(** * Crypto-Market-Dashboard: the data pipeline of [main.py]

    A shallow embedding of the retry wrapper ([fetch_with_retry]), the symbol
    universe selection ([get_active_symbols]), the indicator computation
    ([vectorized_rsi], [analyze_symbol]) and the refresh cycle
    ([update_dashboard]), with the properties the specification states
    about them.

    Numbers.  The program computes on IEEE-754 doubles (Python [float],
    NumPy [float64]).  The type [float] below keeps the special values of
    that arithmetic (both zeros, both infinities, NaN) and the rules that
    produce them, and takes every finite result exactly, as a rational
    number: rounding is not modelled.  Values read from the provider
    (prices, volumes) are finite rationals.  Where a theorem reads a result
    as a rational, this is the value of the program's formula in exact
    arithmetic, of which the program's double is the rounding. *)

From Stdlib Require Import ZArith QArith Qreduction Qminmax.
From Stdlib Require Import List String Ascii Bool Lia Lra Psatz.
From Stdlib Require Import Sorted Permutation.
Import ListNotations.

Local Open Scope Z_scope.

(** ** Floating-point values *)

Module Float.

Inductive float : Type :=
| Fin (q : Q)        (* a finite value; [Fin 0] is +0.0 *)
| NegZero            (* -0.0 *)
| Inf (neg : bool)   (* [Inf false] is +inf, [Inf true] is -inf *)
| NaN.

(** Finite results are kept in lowest terms, so that equal values are
    equal terms. *)
Definition fin (q : Q) : float := Fin (Qred q).

Definition of_Z (z : Z) : float := Fin (inject_Z z).

Definition Qltb (a b : Q) : bool := negb (Qle_bool b a).

(** The sign bit. *)
Definition sign (x : float) : bool :=
  match x with
  | Fin q => Qltb q 0
  | NegZero => true
  | Inf s => s
  | NaN => false
  end.

Definition is_nan (x : float) : bool :=
  match x with NaN => true | _ => false end.

Definition is_zero (x : float) : bool :=
  match x with
  | Fin q => Qeq_bool q 0
  | NegZero => true
  | _ => false
  end.

(** The rational a finite value stands for (0 for the others). *)
Definition value (x : float) : Q :=
  match x with Fin q => q | _ => 0%Q end.

Definition signed_zero (s : bool) : float :=
  if s then NegZero else Fin 0.

(** A finite product or quotient: a zero result keeps the sign. *)
Definition finite_signed (s : bool) (q : Q) : float :=
  if Qeq_bool q 0 then signed_zero s else fin q.

Definition fneg (x : float) : float :=
  match x with
  | Fin q => if Qeq_bool q 0 then NegZero else fin (- q)
  | NegZero => Fin 0
  | Inf s => Inf (negb s)
  | NaN => NaN
  end.

Definition fadd (x y : float) : float :=
  match x, y with
  | NaN, _ | _, NaN => NaN
  | Inf s, Inf t => if Bool.eqb s t then Inf s else NaN
  | Inf s, _ => Inf s
  | _, Inf t => Inf t
  | NegZero, NegZero => NegZero
  | NegZero, Fin b => Fin b
  | Fin a, NegZero => Fin a
  | Fin a, Fin b => fin (a + b)
  end.

Definition fsub (x y : float) : float := fadd x (fneg y).

Definition fmul (x y : float) : float :=
  match x, y with
  | NaN, _ | _, NaN => NaN
  | Inf s, _ => if is_zero y then NaN else Inf (xorb s (sign y))
  | _, Inf t => if is_zero x then NaN else Inf (xorb (sign x) t)
  | _, _ => finite_signed (xorb (sign x) (sign y)) (value x * value y)
  end.

Definition fdiv (x y : float) : float :=
  match x, y with
  | NaN, _ | _, NaN => NaN
  | Inf _, Inf _ => NaN
  | Inf s, _ => Inf (xorb s (sign y))
  | _, Inf t => signed_zero (xorb (sign x) t)
  | _, _ =>
      if is_zero y
      then if is_zero x then NaN else Inf (xorb (sign x) (sign y))
      else finite_signed (xorb (sign x) (sign y)) (value x / value y)
  end.

(** Comparisons: false as soon as one side is NaN; the two zeros are
    equal. *)
Definition fltb (x y : float) : bool :=
  match x, y with
  | NaN, _ | _, NaN => false
  | Inf s, Inf t => s && negb t
  | Inf s, _ => s
  | _, Inf t => negb t
  | _, _ => Qltb (value x) (value y)
  end.

Definition fleb (x y : float) : bool :=
  match x, y with
  | NaN, _ | _, NaN => false
  | Inf s, Inf t => s || negb t
  | Inf s, _ => s
  | _, Inf t => negb t
  | _, _ => Qle_bool (value x) (value y)
  end.

(** [x == y] *)
Definition feqb (x y : float) : bool :=
  match x, y with
  | NaN, _ | _, NaN => false
  | Inf s, Inf t => Bool.eqb s t
  | Inf _, _ | _, Inf _ => false
  | _, _ => Qeq_bool (value x) (value y)
  end.

Definition fmin (x y : float) : float := if fltb y x then y else x.
Definition fmax (x y : float) : float := if fltb x y then y else x.

End Float.
Export Float.

(** ** Exceptions and outcomes *)

(** The exception classes the pipeline meets.  [NetworkError] and
    [ExchangeError] are the provider library's, [RequestException] the
    transport's (each stands for the class and its subclasses); the others
    are Python's own.  [OtherException] is any further class deriving from
    [Exception]. *)
Inductive exn_class : Type :=
| NetworkError
| ExchangeError
| RequestException
| IndexError
| KeyError
| TypeError
| AttributeError
| ValueError
| OtherException (name : string).

Record exn : Type := Exn { exn_cls : exn_class; exn_msg : string }.

Definition class_name (c : exn_class) : string :=
  match c with
  | NetworkError => "NetworkError"
  | ExchangeError => "ExchangeError"
  | RequestException => "RequestException"
  | IndexError => "IndexError"
  | KeyError => "KeyError"
  | TypeError => "TypeError"
  | AttributeError => "AttributeError"
  | ValueError => "ValueError"
  | OtherException name => name
  end.

(** [except (ccxt.NetworkError, ccxt.ExchangeError,
    requests.exceptions.RequestException)] *)
Definition transient (e : exn) : bool :=
  match exn_cls e with
  | NetworkError | ExchangeError | RequestException => true
  | _ => false
  end.

Inductive outcome (A : Type) : Type :=
| Return (a : A)
| Raise (e : exn).
Arguments Return {A} a.
Arguments Raise {A} e.

Definition obind {A B} (o : outcome A) (k : A -> outcome B) : outcome B :=
  match o with
  | Return a => k a
  | Raise e => Raise e
  end.

Declare Scope outcome_scope.
Delimit Scope outcome_scope with outcome.
Notation "x <- c ;; k" := (obind c (fun x => k))
  (at level 61, c at next level, right associativity) : outcome_scope.

(** ** Strings *)

Module Str.

(** [s.endswith(suffix)] *)
Definition endswith (s suffix : string) : bool :=
  let n := String.length s in
  let m := String.length suffix in
  (m <=? n)%nat && String.eqb (substring (n - m) m s) suffix.

(** [s.replace(old, new)] for a non-empty [old]: every occurrence, from the
    left, without overlap.  [skip] counts the characters of an occurrence
    still to be passed over. *)
Fixpoint replace_from (old new : string) (skip : nat) (s : string) : string :=
  match s with
  | EmptyString => EmptyString
  | String c s' =>
      match skip with
      | S k => replace_from old new k s'
      | O =>
          if prefix old s
          then append new (replace_from old new (String.length old - 1) s')
          else String c (replace_from old new 0 s')
      end
  end.

Definition replace (s old new : string) : string := replace_from old new 0 s.

End Str.

(** ** Series: the pandas operations the analysis uses *)

Module Series.

Definition Series : Type := list float.

Fixpoint zip_with {A B C} (f : A -> B -> C) (l : list A) (m : list B) : list C :=
  match l, m with
  | a :: l', b :: m' => f a b :: zip_with f l' m'
  | _, _ => []
  end.

(** [s.diff()]: each element minus the one before, NaN at index 0. *)
Definition diff (s : Series) : Series :=
  match s with
  | [] => []
  | _ :: t => NaN :: zip_with fsub t s
  end.

(** [s.where(cond, other)]: keep the elements that satisfy [cond], put
    [other] elsewhere. *)
Definition where_ (cond : float -> bool) (other : float) (s : Series) : Series :=
  map (fun x => if cond x then x else other) s.

Definition neg (s : Series) : Series := map fneg s.

(** [s.ewm(alpha=alpha, adjust=False).mean()]:
    [y[0] = x[0]], [y[t] = (1 - alpha) * y[t-1] + alpha * x[t]].
    (The series it is applied to hold no NaN, see [where_].) *)
Fixpoint ewm_from (alpha prev : float) (s : Series) : Series :=
  match s with
  | [] => []
  | x :: t =>
      let y := fadd (fmul (fsub (of_Z 1) alpha) prev) (fmul alpha x) in
      y :: ewm_from alpha y t
  end.

Definition ewm_mean (alpha : float) (s : Series) : Series :=
  match s with
  | [] => []
  | x :: t => x :: ewm_from alpha x t
  end.

(** [s.iloc[k]]: a negative [k] counts from the end; out of range raises
    [IndexError]. *)
Definition iloc (s : Series) (k : Z) : outcome float :=
  let n := Z.of_nat (List.length s) in
  let i := if k <? 0 then n + k else k in
  if (0 <=? i) && (i <? n)
  then match nth_error s (Z.to_nat i) with
       | Some x => Return x
       | None => Raise (Exn IndexError "single positional indexer is out-of-bounds")
       end
  else Raise (Exn IndexError "single positional indexer is out-of-bounds").

Definition notna (x : float) : bool := negb (is_nan x).

(** [s.sum()]: NaN entries are skipped; the empty sum is 0. *)
Definition sum (s : Series) : float :=
  fold_left fadd (filter notna s) (Fin 0).

(** [s.tail(k)] *)
Definition tail (k : nat) (s : Series) : Series := skipn (List.length s - k) s.

(** Element-wise product of two series of one index. *)
Definition mul (a b : Series) : Series := zip_with fmul a b.

(** The window of [s.rolling(w)] at index [i]: the elements at
    [i - w + 1 .. i] that exist. *)
Definition window (w i : nat) (s : Series) : Series :=
  skipn (i + 1 - w) (firstn (i + 1) s).

(** [s.rolling(w).agg()]: NaN where the window holds fewer than [w]
    values that are not NaN ([min_periods] is the window size). *)
Definition rolling (w : nat) (agg : Series -> float) (s : Series) : Series :=
  map (fun i =>
         let win := filter notna (window w i s) in
         if (List.length win <? w)%nat then NaN else agg win)
      (seq 0 (List.length s)).

Definition minimum (s : Series) : float :=
  match s with
  | [] => NaN
  | x :: t => fold_left fmin t x
  end.

Definition maximum (s : Series) : float :=
  match s with
  | [] => NaN
  | x :: t => fold_left fmax t x
  end.

(** [s.pct_change()]: [s[i] / s[i-1] - 1], NaN at index 0 (on a series
    without NaN, where the fill of missing values has nothing to do). *)
Definition pct_change (s : Series) : Series :=
  match s with
  | [] => []
  | _ :: t => NaN :: zip_with (fun cur prev => fsub (fdiv cur prev) (of_Z 1)) t s
  end.

(** [s.std()]: the sample standard deviation (one degree of freedom
    removed) of the entries that are not NaN; NaN with fewer than two. *)
Definition std (sqrt : float -> float) (s : Series) : float :=
  let xs := filter notna s in
  let count := Z.of_nat (List.length xs) in
  if count <=? 1 then NaN
  else
    let avg := fdiv (fold_left fadd xs (Fin 0)) (of_Z count) in
    let sqr := map (fun x => let d := fsub avg x in fmul d d) xs in
    sqrt (fdiv (fold_left fadd sqr (Fin 0)) (of_Z (count - 1))).

End Series.

(** ** Provider data *)

(** One OHLCV bucket: [[timestamp, open, high, low, close, volume]]. *)
Record candle : Type := Candle {
  timestamp : Z;
  open : Q;
  high : Q;
  low : Q;
  close : Q;
  volume : Q
}.

(** The value under a key of a provider dict: the key may be missing, or
    hold [None], or hold a number. *)
Inductive field : Type :=
| Absent
| PyNone
| PyNum (q : Q).

Record ticker : Type := Ticker {
  symbol : string;
  quoteVolume : field
}.

(** A market of the directory; [active] is [True], [False] or [None]. *)
Record market : Type := Market {
  active : option bool
}.

(** A dict with string keys, in insertion order. *)
Definition dict (V : Type) : Type := list (string * V).

Fixpoint lookup {V} (d : dict V) (k : string) : option V :=
  match d with
  | [] => None
  | (k', v) :: d' => if String.eqb k k' then Some v else lookup d' k
  end.

(** [d[k]] *)
Definition getitem {V} (d : dict V) (k : string) : outcome V :=
  match lookup d k with
  | Some v => Return v
  | None => Raise (Exn KeyError k)
  end.

(** [x[k]] where [x] is a dict or [None]. *)
Definition subscript {V} (x : option (dict V)) (k : string) : outcome V :=
  match x with
  | Some d => getitem d k
  | None => Raise (Exn TypeError "'NoneType' object is not subscriptable")
  end.

(** [d.values()] *)
Definition values {V} (d : dict V) : list V := map snd d.

(** The truth value of [market['active']]. *)
Definition truthy (a : option bool) : bool :=
  match a with
  | Some b => b
  | None => false
  end.

(** ** Configuration *)

Definition TIMEFRAME : string := "4h".
Definition RSI_PERIOD : Z := 14.
Definition REFRESH_INTERVAL : Z := 10.
Definition MAX_WORKERS : Z := 12.
Definition MIN_VOLUME : Z := 2500000.
Definition SYMBOL_LIMIT : nat := 100.
Definition CACHE_TIMEOUT : Z := 55.

(** ** The result of one symbol's analysis *)

Record AnalysisResult : Type := Result {
  r_symbol : string;
  price : float;
  rsi : float;
  change_24h : float;
  change_7d : float;
  volatility : float;
  volume_24h : float;
  support : float;
  resistance : float;
  vwap : float
}.

(** ** Vectorized RSI *)

(** The two smoothed averages of [vectorized_rsi(series, period=14)]:
    [avg_gain] and [avg_loss]. *)
Definition avg_gain (series : Series.Series) (period : Z) : Series.Series :=
  let delta := Series.diff series in
  let gain := Series.where_ (fun d => fltb (of_Z 0) d) (of_Z 0) delta in
  Series.ewm_mean (fdiv (of_Z 1) (of_Z period)) gain.

Definition avg_loss (series : Series.Series) (period : Z) : Series.Series :=
  let delta := Series.diff series in
  let loss := Series.neg (Series.where_ (fun d => fltb d (of_Z 0)) (of_Z 0) delta) in
  Series.ewm_mean (fdiv (of_Z 1) (of_Z period)) loss.

(** [rs = avg_gain / avg_loss] and [100 - (100 / (1 + rs))]. *)
Definition vectorized_rsi (series : Series.Series) (period : Z) : Series.Series :=
  let rs := Series.zip_with fdiv (avg_gain series period) (avg_loss series period) in
  map (fun r => fsub (of_Z 100) (fdiv (of_Z 100) (fadd (of_Z 1) r))) rs.

(** ** The universe selection *)

(** [sorted(..., key=..., reverse=True)]: stable, in descending order of
    the key. *)

Fixpoint insert_desc {A} (key : A -> Q) (x : A) (l : list A) : list A :=
  match l with
  | [] => [x]
  | y :: l' => if Qltb (key x) (key y) then y :: insert_desc key x l' else x :: l
  end.

Definition sorted_desc {A} (key : A -> Q) (l : list A) : list A :=
  fold_right (insert_desc key) [] l.

(** A list comprehension whose condition can raise: the first exception
    ends it. *)
Fixpoint filterM {A} (cond : A -> outcome bool) (l : list A) : outcome (list A) :=
  match l with
  | [] => Return []
  | x :: l' =>
      (b <- cond x ;;
       rest <- filterM cond l' ;;
       Return (if b then x :: rest else rest))%outcome
  end.

Fixpoint mapM_outcome {A B} (f : A -> outcome B) (l : list A) : outcome (list B) :=
  match l with
  | [] => Return []
  | x :: l' =>
      (y <- f x ;;
       rest <- mapM_outcome f l' ;;
       Return (y :: rest))%outcome
  end.

(** [t['symbol'].endswith('/USDT') and markets[t['symbol']]['active']]:
    the directory is looked up only for a symbol with the suffix. *)
Definition is_active_usdt (markets : option (dict market)) (t : ticker) : outcome bool :=
  if Str.endswith (symbol t) "/USDT"
  then (m <- subscript markets (symbol t) ;; Return (truthy (active m)))%outcome
  else Return false.

(** [t.get('quoteVolume', 0) > MIN_VOLUME]: comparing [None] with a number
    raises [TypeError]. *)
Definition above_min_volume (t : ticker) : outcome bool :=
  match quoteVolume t with
  | Absent => Return (Qltb (inject_Z MIN_VOLUME) 0)
  | PyNone => Raise (Exn TypeError "'>' not supported between instances of 'NoneType' and 'int'")
  | PyNum q => Return (Qltb (inject_Z MIN_VOLUME) q)
  end.

(** [x['quoteVolume']], the sort key. *)
Definition volume_key (t : ticker) : outcome Q :=
  match quoteVolume t with
  | Absent => Raise (Exn KeyError "quoteVolume")
  | PyNone => Raise (Exn TypeError "'<' not supported between instances of 'NoneType' and 'NoneType'")
  | PyNum q => Return q
  end.

(** The sort computes every key first, then orders the elements by them. *)
Definition sorted_by_volume (l : list ticker) : outcome (list ticker) :=
  (keyed <- mapM_outcome (fun t => q <- volume_key t ;; Return (q, t)) l ;;
   Return (map snd (sorted_desc fst keyed)))%outcome.

(** The selection of [get_active_symbols], from the two provider
    responses. *)
Definition select_symbols (markets : option (dict market)) (tickers : dict ticker)
  : outcome (list ticker) :=
  (usdt_tickers <- filterM (is_active_usdt markets) (values tickers) ;;
   above <- filterM above_min_volume usdt_tickers ;;
   sorted <- sorted_by_volume above ;;
   Return (firstn SYMBOL_LIMIT sorted))%outcome.

(** ** The computation of [analyze_symbol], from the candles *)

Section Analysis.

(** The square root of the numeric library. *)
Variable sqrt : float -> float.

Definition closes_of (ohlcv : list candle) : Series.Series :=
  map (fun c => fin (close c)) ohlcv.

Definition volumes_of (ohlcv : list candle) : Series.Series :=
  map (fun c => fin (volume c)) ohlcv.

(** The dict [analyze_symbol] returns, its entries in the order they are
    evaluated; [iloc] is what can raise. *)
Definition indicators (sym : string) (ohlcv : list candle) : outcome AnalysisResult :=
  let closes := closes_of ohlcv in
  let volumes := volumes_of ohlcv in
  let r_symbol := Str.replace sym "/USDT" "" in
  (price <- Series.iloc closes (-1) ;;
   rsi <- Series.iloc (vectorized_rsi closes 14) (-1) ;;
   c1 <- Series.iloc closes (-1) ;;
   c24 <- Series.iloc closes (-24) ;;
   c24' <- Series.iloc closes (-24) ;;
   let change_24h := fmul (fdiv (fsub c1 c24) c24') (of_Z 100) in
   c7 <- Series.iloc closes (-1) ;;
   c168 <- Series.iloc closes (-(42 * 4)) ;;
   c168' <- Series.iloc closes (-(42 * 4)) ;;
   let change_7d := fmul (fdiv (fsub c7 c168) c168') (of_Z 100) in
   let volatility :=
     fmul (Series.std sqrt (Series.pct_change closes)) (sqrt (of_Z 365)) in
   let volume_24h := Series.sum (Series.tail 24 volumes) in
   support <- Series.iloc (Series.rolling 24 Series.minimum closes) (-1) ;;
   resistance <- Series.iloc (Series.rolling 24 Series.maximum closes) (-1) ;;
   let vwap := fdiv (Series.sum (Series.mul closes volumes)) (Series.sum volumes) in
   Return (Result r_symbol price rsi change_24h change_7d volatility volume_24h
             support resistance vwap))%outcome.

End Analysis.

(** ** Effects: the provider and the clock *)

(** What a run does that can be observed from outside: each call of an
    operation wrapped by [fetch_with_retry], and each [time.sleep]. *)
Inductive event : Type :=
| Call
| Sleep (seconds : Z).

Section Pipeline.

(** The state of the world outside the program (the provider, the
    network). *)
Variable W : Type.

(** The three operations of the exchange client. *)
Variable load_markets : W -> outcome (dict market) * W.
Variable fetch_tickers : W -> outcome (dict ticker) * W.
Variable fetch_ohlcv : string -> string -> Z -> W -> outcome (list candle) * W.

Variable sqrt : float -> float.

Definition state : Type := (W * list event)%type.

(** A computation: it reads and changes the state, and returns or raises.
    An exception keeps the state reached when it was raised. *)
Definition M (A : Type) : Type := state -> outcome A * state.

Definition ret {A} (a : A) : M A := fun st => (Return a, st).

Definition raise {A} (e : exn) : M A := fun st => (Raise e, st).

Definition bind {A B} (c : M A) (k : A -> M B) : M B :=
  fun st =>
    match c st with
    | (Return a, st') => k a st'
    | (Raise e, st') => (Raise e, st')
    end.

(** [try: c  except Exception as e: h e] *)
Definition try_except {A} (c : M A) (h : exn -> M A) : M A :=
  fun st =>
    match c st with
    | (Return a, st') => (Return a, st')
    | (Raise e, st') => h e st'
    end.

Definition lift {A} (o : outcome A) : M A := fun st => (o, st).

Notation "x <- c ;; k" := (bind c (fun x => k))
  (at level 61, c at next level, right associativity).

(** One call of a wrapped operation. *)
Definition call {A} (method : W -> outcome A * W) : M A :=
  fun st =>
    let '(r, w') := method (fst st) in
    (r, (w', snd st ++ [Call])).

(** [time.sleep(seconds)]; a negative length raises [ValueError]. *)
Definition sleep (seconds : Z) : M unit :=
  fun st =>
    if seconds <? 0
    then (Raise (Exn ValueError "sleep length must be non-negative"), st)
    else (Return tt, (fst st, snd st ++ [Sleep seconds])).

(** ** [fetch_with_retry] *)

(** The loop [for i in range(max_retries)], from index [i] with
    [remaining] iterations to go; [None] is what the function returns
    when the loop ends. *)
Fixpoint retry_loop {A} (method : W -> outcome A * W) (max_retries delay : Z)
    (i : Z) (remaining : nat) : M (option A) :=
  match remaining with
  | O => ret None
  | S remaining' =>
      fun st =>
        match call method st with
        | (Return a, st') => (Return (Some a), st')
        | (Raise e, st') =>
            if transient e
            then
              if i <? max_retries - 1
              then (_ <- sleep (delay * (i + 1)) ;;
                    retry_loop method max_retries delay (i + 1) remaining') st'
              else (Raise e, st')
            else (Raise e, st')
        end
  end.

Definition fetch_with_retry {A} (method : W -> outcome A * W)
    (max_retries delay : Z) : M (option A) :=
  retry_loop method max_retries delay 0 (Z.to_nat max_retries).

(** A use of the fetched value as a container ([len(x)], [x.values()]):
    [None] has neither. *)
Definition not_none {A} (cls : exn_class) (msg : string) (x : option A) : M A :=
  match x with
  | Some a => ret a
  | None => raise (Exn cls msg)
  end.

(** ** [get_active_symbols] *)

Definition get_active_symbols_body : M (list string) :=
  markets <- fetch_with_retry load_markets 3 1 ;;
  tickers <- fetch_with_retry fetch_tickers 3 1 ;;
  tickers <- not_none AttributeError "'NoneType' object has no attribute 'values'" tickers ;;
  volume_filtered <- lift (select_symbols markets tickers) ;;
  ret (map symbol volume_filtered).

(** The handler prints the error and returns the empty list.  (The
    function is decorated with [cache.memoize]: for [CACHE_TIMEOUT] seconds
    a call answers with the value an earlier call returned.  This is the
    function the decorator wraps.) *)
Definition get_active_symbols : M (list string) :=
  try_except get_active_symbols_body (fun e => ret []).

(** ** [analyze_symbol] *)

Definition analyze_symbol_body (sym : string) : M (option AnalysisResult) :=
  ohlcv <- fetch_with_retry (fetch_ohlcv sym TIMEFRAME 168) 3 1 ;;
  ohlcv <- not_none TypeError "object of type 'NoneType' has no len()" ohlcv ;;
  if (List.length ohlcv <? 50)%nat
  then ret None
  else r <- lift (indicators sqrt sym ohlcv) ;; ret (Some r).

(** The handler prints the error and returns [None]. *)
Definition analyze_symbol (sym : string) : M (option AnalysisResult) :=
  try_except (analyze_symbol_body sym) (fun e => ret None).

(** ** [update_dashboard] *)

(** [executor.map(analyze_symbol, symbols)]: the results come in the order
    of the symbols.  The units run one after the other here. *)
Fixpoint executor_map {A B} (f : A -> M B) (l : list A) : M (list B) :=
  match l with
  | [] => ret []
  | x :: l' =>
      y <- f x ;;
      rest <- executor_map f l' ;;
      ret (y :: rest)
  end.

(** [[r for r in results if r is not None]] *)
Fixpoint valid_data (results : list (option AnalysisResult)) : list AnalysisResult :=
  match results with
  | [] => []
  | Some r :: rest => r :: valid_data rest
  | None :: rest => valid_data rest
  end.

(** The snapshot of one refresh cycle over a given universe. *)
Definition snapshot (symbols : list string) : M (list AnalysisResult) :=
  results <- executor_map analyze_symbol symbols ;;
  ret (valid_data results).

(** The data part of [update_dashboard]: what it hands to the
    presentation. *)
Definition update_dashboard : M (list AnalysisResult) :=
  symbols <- get_active_symbols ;;
  snapshot symbols.

End Pipeline.

Arguments ret {W A} a.
Arguments raise {W A} e.
Arguments bind {W A B} c k.
Arguments try_except {W A} c h.
Arguments lift {W A} o.
Arguments call {W A} method.
Arguments sleep {W} seconds.
Arguments retry_loop {W A} method max_retries delay i remaining.
Arguments fetch_with_retry {W A} method max_retries delay.
Arguments not_none {W A} cls msg x.
Arguments executor_map {W A B} f l.

(** ** Vocabulary of the properties *)

(** The events of [n] failed attempts in a row, the first of index [i]:
    a call, and between two calls a sleep of [delay * (i + 1)]. *)
Fixpoint exhausted_trace (delay : Z) (i : Z) (n : nat) : list event :=
  match n with
  | O => []
  | S O => [Call]
  | S n' => Call :: Sleep (delay * (i + 1)) :: exhausted_trace delay (i + 1) n'
  end.

Definition calls (tr : list event) : nat :=
  List.length (filter (fun ev => match ev with Call => true | _ => false end) tr).

Fixpoint sleeps (tr : list event) : list Z :=
  match tr with
  | [] => []
  | Sleep d :: tr' => d :: sleeps tr'
  | Call :: tr' => sleeps tr'
  end.

(** A finite value [x] (of either sign when it is zero) stands for the
    rational [q]. *)
Definition repr (x : float) (q : Q) : Prop :=
  match x with
  | Fin q' => q' == q
  | NegZero => q == 0
  | _ => False
  end.

(** A finite value that is not negative. *)
Definition nonneg (x : float) : Prop := exists q, repr x q /\ (0 <= q)%Q.

(** A finite value or NaN. *)
Definition finite_or_nan (x : float) : Prop := x = NaN \/ exists q, repr x q.

(** The RSI of one index, from the two smoothed averages there. *)
Definition rsi_of (g l : float) : float :=
  fsub (of_Z 100) (fdiv (of_Z 100) (fadd (of_Z 1) (fdiv g l))).

(** The element [k] places from the end of a series. *)
Definition from_end (s : Series.Series) (k : nat) : float :=
  nth (List.length s - k) s NaN.

(** What [analyze_symbol] makes of the candles once they are fetched:
    nothing below 50 buckets, nothing when an indicator raises. *)
Definition analyze (sqrt : float -> float) (sym : string) (ohlcv : list candle)
  : option AnalysisResult :=
  if (List.length ohlcv <? 50)%nat then None
  else match indicators sqrt sym ohlcv with
       | Return r => Some r
       | Raise _ => None
       end.

(** The candles of [sym] are fetched, from state [st], as [ohlcv],
    leaving state [st']: the first line of [analyze_symbol]. *)
Definition fetched {W} (fetch_ohlcv : string -> string -> Z -> W -> outcome (list candle) * W)
    (sym : string) (st : state W) (ohlcv : list candle) (st' : state W) : Prop :=
  fetch_with_retry (fetch_ohlcv sym TIMEFRAME 168) 3 1 st = (Return (Some ohlcv), st').

(** The close prices, as the provider gave them. *)
Definition close_prices (ohlcv : list candle) : list Q := map close ohlcv.

(** The sum of rationals. *)
Definition Qsum (l : list Q) : Q := fold_right Qplus 0%Q l.

(** The 24h quote volume of a ticker that has one. *)
Definition volume_of (t : ticker) : Q :=
  match quoteVolume t with
  | PyNum q => q
  | _ => 0%Q
  end.

(** A ticker of the response that is quoted in USDT, whose market is in
    the directory and active, and whose 24h quote volume is a number
    above [MIN_VOLUME]. *)
Definition eligible (markets : dict market) (tickers : dict ticker) (t : ticker) : Prop :=
  In t (values tickers)
  /\ Str.endswith (symbol t) "/USDT" = true
  /\ (exists m, lookup markets (symbol t) = Some m /\ truthy (active m) = true)
  /\ exists q, quoteVolume t = PyNum q /\ (inject_Z MIN_VOLUME < q)%Q.

(** In descending order of the 24h quote volume. *)
Definition descending (l : list ticker) : Prop :=
  StronglySorted (fun a b => (volume_of b <= volume_of a)%Q) l.

(** An operation that fails with a transient error whenever it is
    called. *)
Definition always_transient {W A} (method : W -> outcome A * W) : Prop :=
  forall w, exists e w', method w = (Raise e, w') /\ transient e = true.

(** The error the specification names for an exhausted retry. *)
Definition ProviderUnavailable : exn_class := OtherException "ProviderUnavailable".

(** ** Sample inputs *)

Module Samples.

Local Open Scope string_scope.

(** An operation that fails with a network error at every call; the
    message tells the calls apart and the world counts them. *)
Definition unreachable : nat -> outcome (list candle) * nat :=
  fun w => (Raise (Exn NetworkError (String (ascii_of_nat (48 + w)) "")), S w).

(** An operation that fails with an error the wrapper does not catch. *)
Definition malformed : nat -> outcome (list candle) * nat :=
  fun w => (Raise (Exn ValueError "malformed response"), S w).

(** A bucket whose four prices are [p], of volume [v]. *)
Definition bucket (p v : Q) : candle := Candle 0 p p p p v.

(** A flat series: [n] buckets of price [p] and volume 1. *)
Definition flat (n : nat) (p : Q) : list candle := repeat (bucket p 1) n.

(** A rising series: prices 1, 2, ..., [n]. *)
Definition rising (n : nat) : list candle :=
  map (fun i => bucket (inject_Z (Z.of_nat i)) 1) (seq 1 n).

(** A series that goes up and down: prices 10, 11, 10, 11, ... *)
Definition zigzag (n : nat) : list candle :=
  map (fun i => bucket (if Nat.even i then 10 else 11) 1) (seq 0 n).

(** A provider of candles.  The world counts the calls it received. *)
Definition fetch_ohlcv (sym timeframe : string) (limit : Z) (w : nat)
  : outcome (list candle) * nat :=
  let serve l := (Return (firstn (Z.to_nat limit) l), S w) in
  if String.eqb sym "A/USDT" then serve (rising 168)
  else if String.eqb sym "B/USDT" then serve (rising 10)
  else if String.eqb sym "C/USDT" then (Raise (Exn ValueError "malformed response"), S w)
  else if String.eqb sym "D/USDT" then serve (zigzag 100)
  else if String.eqb sym "FLAT/USDT" then serve (flat 168 100)
  else if String.eqb sym "EVEN/USDT" then serve (map (fun c => bucket (close c) 3) (zigzag 168))
  else (Raise (Exn ExchangeError "bad symbol"), S w).

(** A provider that answers a fixed value. *)
Definition answer {A} (a : A) : nat -> outcome A * nat :=
  fun w => (Return a, S w).

(** A provider that is down. *)
Definition down {A} : nat -> outcome A * nat :=
  fun w => (Raise (Exn NetworkError "timed out"), S w).

Definition markets : dict market :=
  [("BTC/USDT", Market (Some true));
   ("ETH/USDT", Market (Some true));
   ("OLD/USDT", Market (Some false));
   ("NEW/USDT", Market None);
   ("SOL/USDT", Market (Some true));
   ("ETH/BTC", Market (Some true));
   ("DOGE/USDT", Market (Some true))].

Definition tickers : dict ticker :=
  [("ETH/USDT", Ticker "ETH/USDT" (PyNum 900000000));
   ("BTC/USDT", Ticker "BTC/USDT" (PyNum 2000000000));
   ("OLD/USDT", Ticker "OLD/USDT" (PyNum 5000000));
   ("NEW/USDT", Ticker "NEW/USDT" (PyNum 5000000));
   ("ETH/BTC", Ticker "ETH/BTC" (PyNum 70000000));
   ("DOGE/USDT", Ticker "DOGE/USDT" (PyNum 2500000));
   ("SOL/USDT", Ticker "SOL/USDT" (PyNum 900000000));
   ("XYZ/EUR", Ticker "XYZ/EUR" PyNone)].

(** A ticker set with a USDT symbol the directory does not list. *)
Definition tickers_unlisted : dict ticker :=
  (tickers ++ [("GONE/USDT", Ticker "GONE/USDT" (PyNum 3000000))])%list.

(** A ticker set with a USDT ticker whose volume is [None]. *)
Definition tickers_no_volume : dict ticker :=
  (tickers ++ [("SOL/USDT", Ticker "SOL/USDT" PyNone)])%list.

(** A square root: that of a perfect square, a lower rational bound
    otherwise. *)
Definition sqrt (x : float) : float :=
  match x with
  | Fin q =>
      if Qltb q 0 then NaN
      else Fin (Z.sqrt (Qnum q * 1000000 * 1000000 / Z.pos (Qden q)) # 1000000)
  | NegZero => NegZero
  | Inf false => Inf false
  | _ => NaN
  end.

End Samples.

(** A flat series: every close is [p]. *)
Definition flat_at (p : Q) (ohlcv : list candle) : Prop :=
  Forall (fun k => (close k == p)%Q) ohlcv.

(** What the analysis needs of the square root: the root of a zero is a
    zero, and that of 365 is finite. *)
Definition sqrt_sound (sqrt : float -> float) : Prop :=
  (forall x, is_zero x = true -> is_zero (sqrt x) = true)
  /\ exists q, repr (sqrt (of_Z 365)) q.


(** ** [create_dashboard]: the overview of a snapshot *)

Module Frame.

(** [(column > x).sum()], [(column < x).sum()]: how many entries satisfy
    the comparison. *)
Definition count (cond : float -> bool) (column : Series.Series) : nat :=
  List.length (filter cond column).

(** [column.mean()]: the mean of the entries that are not NaN, NaN when
    there is none. *)
Definition mean (column : Series.Series) : float :=
  let xs := filter Series.notna column in
  if (List.length xs =? 0)%nat then NaN
  else fdiv (fold_left fadd xs (Fin 0)) (of_Z (Z.of_nat (List.length xs))).

(** The first position of the greatest value from position [i] on, given
    the best [(position, value)] so far. *)
Fixpoint best_from (better : float -> float -> bool) (best : nat * float) (i : nat)
    (l : list float) : nat * float :=
  match l with
  | [] => best
  | x :: t =>
      if better (snd best) x
      then best_from better (i, x) (S i) t
      else best_from better best (S i) t
  end.

Definition arg_best (better : float -> float -> bool) (l : list float) : nat :=
  match l with
  | [] => 0%nat
  | x :: t => fst (best_from better (0%nat, x) 1 t)
  end.

(** [column.idxmax()]: the position of the first greatest entry, the NaN
    entries counting as -inf; on a column of NaN only the library answers
    NaN, which the lookup [df.loc[...]] that follows refuses with
    [KeyError] (later versions of the library raise [ValueError]
    themselves). *)
Definition idxmax (column : Series.Series) : outcome nat :=
  if forallb is_nan column then Raise (Exn KeyError "nan")
  else Return (arg_best fltb (map (fun x => if is_nan x then Inf true else x) column)).

(** [column.idxmin()]: the first least entry, NaN counting as +inf. *)
Definition idxmin (column : Series.Series) : outcome nat :=
  if forallb is_nan column then Raise (Exn KeyError "nan")
  else Return (arg_best (fun best x => fltb x best)
                 (map (fun x => if is_nan x then Inf false else x) column)).

(** [df.loc[i]] on the default index. *)
Definition loc {A} (df : list A) (i : nat) : outcome A :=
  match nth_error df i with
  | Some row => Return row
  | None => Raise (Exn KeyError "row")
  end.

(** [df.sort_values(key, ascending=False)]: descending, the rows whose key
    is NaN last.  Rows of equal key keep their order here; the library's
    default sort promises no order among them. *)
Fixpoint insert_by_desc {A} (key : A -> float) (x : A) (l : list A) : list A :=
  match l with
  | [] => [x]
  | y :: l' =>
      if fltb (key x) (key y) then y :: insert_by_desc key x l' else x :: l
  end.

Definition sort_values_desc {A} (key : A -> float) (df : list A) : list A :=
  fold_right (insert_by_desc key) [] (filter (fun r => negb (is_nan (key r))) df)
  ++ filter (fun r => is_nan (key r)) df.

End Frame.

(** The dict [stats] of [create_dashboard]. *)
Record Stats : Type := MkStats {
  total_volume : float;
  overbought : nat;
  oversold : nat;
  avg_volatility : float;
  top_gainer_24h : string;
  top_loser_24h : string;
  top_gainer_7d : string;
  top_loser_7d : string
}.

(** [df.loc[df[column].idxmax()]['symbol']], and the same with
    [idxmin]. *)
Definition top_symbol (pick : Series.Series -> outcome nat)
    (column : AnalysisResult -> float) (df : list AnalysisResult) : outcome string :=
  (i <- pick (map column df) ;;
   row <- Frame.loc df i ;;
   Return (r_symbol row))%outcome.

Definition market_stats (df : list AnalysisResult) : outcome Stats :=
  let total := Series.sum (map volume_24h df) in
  let over := Frame.count (fun x => fltb (of_Z 70) x) (map rsi df) in
  let under := Frame.count (fun x => fltb x (of_Z 30)) (map rsi df) in
  let avg := Frame.mean (map volatility df) in
  (g24 <- top_symbol Frame.idxmax change_24h df ;;
   l24 <- top_symbol Frame.idxmin change_24h df ;;
   g7 <- top_symbol Frame.idxmax change_7d df ;;
   l7 <- top_symbol Frame.idxmin change_7d df ;;
   Return (MkStats total over under avg g24 l24 g7 l7))%outcome.

Section Dashboard.

(** The figure is the plotting library's: its four traces and its layout
    are built from the columns of the frame, and building them can
    raise. *)
Variable Figure : Type.
Variable empty_figure : Figure.
Variable figure : list AnalysisResult -> outcome Figure.

(** What [create_dashboard] returns: the empty figure, or the page with
    the cards of the statistics, the figure and the rows of the table. *)
Inductive page : Type :=
| Blank (fig : Figure)
| Page (cards : Stats) (fig : Figure) (table : list AnalysisResult).

Definition create_dashboard (data : list (option AnalysisResult)) : outcome page :=
  let df := valid_data data in
  match df with
  | [] => Return (Blank empty_figure)
  | _ =>
      (stats <- market_stats df ;;
       fig <- figure df ;;
       Return (Page stats fig (Frame.sort_values_desc volume_24h df)))%outcome
  end.

End Dashboard.

Arguments Blank {Figure} fig.
Arguments Page {Figure} cards fig table.

Section Callback.

Variable W : Type.
Variable load_markets : W -> outcome (dict market) * W.
Variable fetch_tickers : W -> outcome (dict ticker) * W.
Variable fetch_ohlcv : string -> string -> Z -> W -> outcome (list candle) * W.
Variable sqrt : float -> float.
Variable Figure : Type.
Variable empty_figure : Figure.
Variable figure : list AnalysisResult -> outcome Figure.

(** The callback [update_dashboard] as a whole: the page made of the
    snapshot (the time of the update, its second value, is left out).  The
    universe is computed by the function [cache.memoize] wraps, as in a
    cycle that finds no universe in the cache. *)
Definition update_dashboard_page : M W (page Figure) :=
  bind (update_dashboard W load_markets fetch_tickers fetch_ohlcv sqrt)
       (fun valid => lift (create_dashboard Figure empty_figure figure (map Some valid))).

End Callback.


(** ** Further vocabulary *)

(** From world [w] the operation fails with a transient error [k] times,
    then returns [a] and leaves the world [w']. *)
Fixpoint recovers {W A} (method : W -> outcome A * W) (k : nat) (w : W) (a : A) (w' : W)
  : Prop :=
  match k with
  | O => method w = (Return a, w')
  | S k' =>
      exists e w1,
        method w = (Raise e, w1) /\ transient e = true /\ recovers method k' w1 a w'
  end.

(** The sum of integers. *)
Definition Zsum (l : list Z) : Z := fold_right Z.add 0 l.

(** A USDT ticker the selection cannot read: its symbol is missing from
    the directory, or its market is active and its volume is [None]. *)
Definition unreadable (markets : dict market) (t : ticker) : Prop :=
  Str.endswith (symbol t) "/USDT" = true
  /\ (lookup markets (symbol t) = None
      \/ exists m, lookup markets (symbol t) = Some m
                   /\ truthy (active m) = true
                   /\ quoteVolume t = PyNone).

(** The character occurs in the string. *)
Fixpoint has_char (c : ascii) (s : string) : bool :=
  match s with
  | EmptyString => false
  | String a s' => Ascii.eqb a c || has_char c s'
  end.

(** The differences of consecutive prices: each price minus the one
    before. *)
Definition Qdiffs (c : list Q) : list Q :=
  match c with
  | [] => []
  | _ :: t => Series.zip_with Qminus t c
  end.

(** A finite value above zero. *)
Definition positive (x : float) : Prop := exists q, repr x q /\ (0 < q)%Q.

(** [l] is [m] with some elements left out. *)
Inductive subseq {A : Type} : list A -> list A -> Prop :=
| subseq_nil : subseq [] []
| subseq_skip (x : A) (l m : list A) : subseq l m -> subseq l (x :: m)
| subseq_keep (x : A) (l m : list A) : subseq l m -> subseq (x :: l) (x :: m).

(** From state [st] to state [st'] the program made at most [3 * n] calls
    of the provider and slept at most [3 * n] seconds. *)
Definition spends {W} (n : nat) (st st' : state W) : Prop :=
  exists tr,
    snd st' = snd st ++ tr
    /\ (calls tr <= 3 * n)%nat
    /\ Zsum (sleeps tr) <= 3 * Z.of_nat n.

Module Cases.

Local Open Scope string_scope.

(** An operation that times out twice, then answers 7. *)
Definition flaky : nat -> outcome Z * nat :=
  fun w =>
    if (w <? 2)%nat then (Raise (Exn NetworkError "timed out"), S w)
    else (Return 7, S w).

(** A falling series: prices [n], ..., 2, 1. *)
Definition falling (n : nat) : list candle := rev (Samples.rising n).

(** A result with the given label, RSI, 24h change, 7d change and
    volume. *)
Definition row (label : string) (rsi c24 c7 vol : float) : AnalysisResult :=
  Result label (Fin 1) rsi c24 c7 (Fin 0) vol (Fin 1) (Fin 1) (Fin 1).

(** A snapshot of four rows; the RSI of the last is undefined. *)
Definition board : list AnalysisResult :=
  [row "AAA" (Fin 75) (Fin 2) (Fin (-3)) (Fin 50);
   row "BBB" (Fin 20) (Fin 5) (Fin 9) (Fin 700);
   row "CCC" (Fin 50) (Fin (-1)) (Fin 9) (Fin 40);
   row "DDD" NaN (Fin 5) (Fin 0) (Fin 80)].

(** A plotting library that accepts every frame: its figure is the list of
    the labels. *)
Definition labels (df : list AnalysisResult) : outcome (list string) :=
  Return (map r_symbol df).

End Cases.

(** The rows [create_dashboard] works on are sorted by volume: the rows
    with a volume come first, in descending order, those without last. *)
Definition by_volume_desc (table : list AnalysisResult) : Prop :=
  exists sorted nans,
    table = sorted ++ nans
    /\ Forall (fun r => is_nan (volume_24h r) = false) sorted
    /\ Forall (fun r => is_nan (volume_24h r) = true) nans
    /\ StronglySorted (fun a b => fleb (volume_24h b) (volume_24h a) = true) sorted.
(** * Properties *)

(** ** The retry wrapper *)

Section RetryFacts.

Context {W A : Type}.
Variable method : W -> outcome A * W.
Variables max_retries delay : Z.

Lemma exhausted_trace_calls : forall n i,
  calls (exhausted_trace delay i n) = n.
Proof.
  induction n as [|n IH]; intros i; [reflexivity|].
  destruct n as [|n]; [reflexivity|].
  change (exhausted_trace delay i (S (S n)))
    with (Call :: Sleep (delay * (i + 1)) :: exhausted_trace delay (i + 1) (S n)).
  unfold calls in *. cbn [filter List.length]. now rewrite IH.
Qed.

Lemma exhausted_trace_sleeps : forall n i,
  sleeps (exhausted_trace delay i n)
  = map (fun k => delay * (i + Z.of_nat k)) (seq 1 (n - 1)).
Proof.
  induction n as [|n IH]; intros i; [reflexivity|].
  destruct n as [|n]; [reflexivity|].
  change (exhausted_trace delay i (S (S n)))
    with (Call :: Sleep (delay * (i + 1)) :: exhausted_trace delay (i + 1) (S n)).
  cbn [sleeps]. rewrite IH.
  replace (S (S n) - 1)%nat with (S n) by lia.
  replace (S n - 1)%nat with n by lia.
  cbn [seq map]. f_equal.
  rewrite <- (seq_shift n 1), map_map.
  apply map_ext. intros k. f_equal. lia.
Qed.

(** A loop whose every attempt fails with a transient error uses all its
    iterations and re-raises the error of the last one. *)
Lemma retry_loop_exhausts :
  always_transient method -> 0 <= delay ->
  forall remaining i st,
    (1 <= remaining)%nat -> 0 <= i ->
    max_retries = i + Z.of_nat remaining ->
    exists e w st',
      retry_loop method max_retries delay i remaining st = (Raise e, st')
      /\ method w = (Raise e, fst st')
      /\ transient e = true
      /\ snd st' = snd st ++ exhausted_trace delay i remaining.
Proof.
  intros Hall Hd.
  induction remaining as [|n IH]; intros i st Hn Hi Hmax; [lia|].
  destruct (Hall (fst st)) as (e & w' & Hcall & Htr).
  cbn [retry_loop]. unfold call. rewrite Hcall, Htr.
  destruct n as [|n].
  - replace (i <? max_retries - 1) with false by (symmetry; apply Z.ltb_ge; lia).
    exists e, (fst st), (w', snd st ++ [Call]). auto.
  - replace (i <? max_retries - 1) with true by (symmetry; apply Z.ltb_lt; lia).
    unfold bind at 1, sleep at 1.
    replace (delay * (i + 1) <? 0) with false by (symmetry; apply Z.ltb_ge; nia).
    cbn [fst snd].
    destruct (IH (i + 1) (w', (snd st ++ [Call]) ++ [Sleep (delay * (i + 1))]))
      as (e' & w & st' & Hrun & Hlast & Htr' & Htrace); [lia | lia | lia |].
    exists e', w, st'. rewrite Hrun. repeat split; auto.
    rewrite Htrace. cbn [snd].
    change (exhausted_trace delay i (S (S n)))
      with (Call :: Sleep (delay * (i + 1)) :: exhausted_trace delay (i + 1) (S n)).
    now rewrite <- !app_assoc.
Qed.

(** An error that is not transient ends the loop at once. *)
Lemma retry_loop_fatal : forall remaining i st e w',
  method (fst st) = (Raise e, w') -> transient e = false ->
  retry_loop method max_retries delay i (S remaining) st
  = (Raise e, (w', snd st ++ [Call])).
Proof.
  intros remaining i st e w' Hcall Htr.
  cbn [retry_loop]. unfold call. now rewrite Hcall, Htr.
Qed.

(** With an attempt left for every index up to [max_retries] the loop
    never ends by falling through: it returns a value of the operation or
    raises. *)
Lemma retry_loop_not_none : forall remaining i st,
  (1 <= remaining)%nat ->
  max_retries = i + Z.of_nat remaining ->
  forall st', retry_loop method max_retries delay i remaining st <> (Return None, st').
Proof.
  induction remaining as [|n IH]; intros i st Hn Hmax st'; [lia|].
  cbn [retry_loop]. unfold call.
  destruct (method (fst st)) as [[a|e] w']; [discriminate|].
  destruct (transient e); [|discriminate].
  destruct (Z.ltb_spec i (max_retries - 1)) as [Hlt|Hge]; [|discriminate].
  unfold bind at 1, sleep at 1.
  destruct (delay * (i + 1) <? 0); [discriminate|].
  apply IH; lia.
Qed.

End RetryFacts.

(** C1 (as amended).  With at least one attempt allowed and a delay that is
    not negative: an operation that fails with a transient error at every
    call is called exactly [max_retries] times, with a sleep of
    [delay * k] after the failed attempt number [k] (for [k] from 1 to
    [max_retries - 1]), and the wrapper then raises the error of the
    last call itself, unchanged; an error that is not transient is raised
    after that one call, without any sleep. *)
Theorem fetch_with_retry_exhaustion :
  forall (W A : Type) (method : W -> outcome A * W) (max_retries delay : Z),
    1 <= max_retries -> 0 <= delay ->
    (always_transient method ->
     forall st, exists e w st',
       fetch_with_retry method max_retries delay st = (Raise e, st')
       /\ method w = (Raise e, fst st')
       /\ transient e = true
       /\ snd st' = snd st ++ exhausted_trace delay 0 (Z.to_nat max_retries)
       /\ calls (exhausted_trace delay 0 (Z.to_nat max_retries)) = Z.to_nat max_retries
       /\ sleeps (exhausted_trace delay 0 (Z.to_nat max_retries))
          = map (fun k => delay * Z.of_nat k) (seq 1 (Z.to_nat max_retries - 1)))
    /\ (forall st e w',
         method (fst st) = (Raise e, w') -> transient e = false ->
         fetch_with_retry method max_retries delay st
         = (Raise e, (w', snd st ++ [Call]))).
Proof.
  intros W A method max_retries delay Hmax Hd. split.
  - intros Hall st.
    destruct (retry_loop_exhausts method max_retries delay Hall Hd
                (Z.to_nat max_retries) 0 st) as (e & w & st' & H1 & H2 & H3 & H4);
      [lia | lia | lia |].
    exists e, w, st'. unfold fetch_with_retry.
    rewrite exhausted_trace_calls, exhausted_trace_sleeps.
    repeat split; auto.
  - intros st e w' Hcall Htr. unfold fetch_with_retry.
    destruct (Z.to_nat max_retries) as [|n] eqn:E; [lia|].
    now apply retry_loop_fatal.
Qed.

Lemma fetch_with_retry_exhaustion_witness :
  (exists e w st',
     fetch_with_retry Samples.unreachable 3 1 (0%nat, []) = (Raise e, st')
     /\ Samples.unreachable w = (Raise e, fst st')
     /\ transient e = true
     /\ snd st' = [] ++ exhausted_trace 1 0 (Z.to_nat 3)
     /\ calls (exhausted_trace 1 0 (Z.to_nat 3)) = Z.to_nat 3
     /\ sleeps (exhausted_trace 1 0 (Z.to_nat 3))
        = map (fun k => 1 * Z.of_nat k) (seq 1 (Z.to_nat 3 - 1)))
  /\ fetch_with_retry Samples.malformed 3 1 (0%nat, [])
     = (Raise (Exn ValueError "malformed response"), (1%nat, [] ++ [Call])).
Proof.
  destruct (fetch_with_retry_exhaustion nat (list candle) Samples.unreachable 3 1)
    as [Hex _]; [lia | lia |].
  destruct (fetch_with_retry_exhaustion nat (list candle) Samples.malformed 3 1)
    as [_ Hfatal]; [lia | lia |].
  split.
  - apply (Hex (fun w => ex_intro _ _ (ex_intro _ _ (conj eq_refl eq_refl)))).
  - apply (Hfatal (0%nat, []) _ 1%nat); reflexivity.
Defined.

(** C1, as the specification words it, fails: after three transient
    failures the wrapper raises the third network error itself, and no
    error of the class [ProviderUnavailable]. *)
Lemma fetch_with_retry_no_wrapper :
  fetch_with_retry Samples.unreachable 3 1 (0%nat, [])
  = (Raise (Exn NetworkError "2"), (3%nat, [Call; Sleep 1; Call; Sleep 2; Call]))
  /\ ~ (exists e st',
          fetch_with_retry Samples.unreachable 3 1 (0%nat, []) = (Raise e, st')
          /\ exn_cls e = ProviderUnavailable).
Proof.
  split; [reflexivity|].
  intros (e & st' & Hrun & Hcls).
  vm_compute in Hrun. inversion Hrun; subst e. discriminate Hcls.
Qed.

(** ** Arithmetic of finite values *)

Section FloatFacts.

Local Open Scope Q_scope.

Lemma Qltb_lt (a b : Q) : Qltb a b = true <-> a < b.
Proof.
  unfold Qltb. rewrite negb_true_iff, <- not_true_iff_false, Qle_bool_iff.
  split; [apply Qnot_le_lt | apply Qlt_not_le].
Qed.

Lemma Qltb_ge (a b : Q) : Qltb a b = false <-> b <= a.
Proof.
  unfold Qltb. now rewrite negb_false_iff, Qle_bool_iff.
Qed.

Lemma Qeq_bool_false (a b : Q) : Qeq_bool a b = false <-> ~ a == b.
Proof.
  rewrite <- not_true_iff_false, Qeq_bool_iff. tauto.
Qed.

Lemma Qred_zero (q : Q) : q == 0 -> Qred q = 0.
Proof.
  intros H. now rewrite (Qred_complete _ _ H).
Qed.

#[global] Instance repr_proper : Proper (eq ==> Qeq ==> iff) repr.
Proof.
  intros x ? <- a b Hab. destruct x; cbn [repr]; try tauto; now rewrite Hab.
Qed.

Lemma repr_eq (x : float) (a b : Q) : repr x a -> a == b -> repr x b.
Proof. intros H E. now rewrite <- E. Qed.

Lemma repr_Fin (q : Q) : repr (Fin q) q.
Proof. simpl. reflexivity. Qed.

Lemma repr_fin (q : Q) : repr (fin q) q.
Proof. cbn [repr fin]. apply Qred_correct. Qed.

Lemma repr_of_Z (z : Z) : repr (of_Z z) (inject_Z z).
Proof. simpl. reflexivity. Qed.

Lemma repr_signed_zero (s : bool) : repr (signed_zero s) 0.
Proof. destruct s; simpl; reflexivity. Qed.

Lemma repr_finite_signed (s : bool) (q : Q) : repr (finite_signed s q) q.
Proof.
  unfold finite_signed. destruct (Qeq_bool q 0) eqn:E.
  - apply Qeq_bool_iff in E. rewrite E. apply repr_signed_zero.
  - apply repr_fin.
Qed.

Lemma repr_value (x : float) (q : Q) : repr x q -> value x == q.
Proof. destruct x; cbn [repr value]; try tauto. intros ->. reflexivity. Qed.

Lemma repr_is_zero (x : float) (q : Q) :
  repr x q -> (is_zero x = true <-> q == 0).
Proof.
  destruct x; cbn [repr is_zero]; try tauto.
  intros H. rewrite Qeq_bool_iff, H. tauto.
Qed.

Lemma repr_fneg (x : float) (q : Q) : repr x q -> repr (fneg x) (- q).
Proof.
  destruct x as [a| | |]; cbn [repr fneg]; try tauto.
  - intros H. destruct (Qeq_bool a 0) eqn:E; cbn [repr fin].
    + apply Qeq_bool_iff in E. rewrite <- H, E. reflexivity.
    + rewrite Qred_correct, H. reflexivity.
  - intros ->. reflexivity.
Qed.

Lemma repr_fadd (x y : float) (a b : Q) :
  repr x a -> repr y b -> repr (fadd x y) (a + b).
Proof.
  destruct x, y; cbn [repr fadd fin]; try tauto; intros Ha Hb;
    rewrite ?Qred_correct, ?Ha, ?Hb; ring.
Qed.

Lemma repr_fsub (x y : float) (a b : Q) :
  repr x a -> repr y b -> repr (fsub x y) (a - b).
Proof.
  intros Ha Hb. unfold fsub. apply repr_fadd; [assumption|].
  now apply repr_fneg.
Qed.

Lemma repr_fmul (x y : float) (a b : Q) :
  repr x a -> repr y b -> repr (fmul x y) (a * b).
Proof.
  intros Ha Hb.
  assert (E : value x * value y == a * b)
    by (rewrite (repr_value _ _ Ha), (repr_value _ _ Hb); reflexivity).
  destruct x, y; simpl in Ha, Hb |- *; try tauto;
    rewrite <- E; apply repr_finite_signed.
Qed.

Lemma repr_fdiv (x y : float) (a b : Q) :
  repr x a -> repr y b -> ~ b == 0 -> repr (fdiv x y) (a / b).
Proof.
  intros Ha Hb Hnz.
  assert (E : value x / value y == a / b)
    by (rewrite (repr_value _ _ Ha), (repr_value _ _ Hb); reflexivity).
  assert (Z : is_zero y = false).
  { apply not_true_iff_false. rewrite (repr_is_zero _ _ Hb). exact Hnz. }
  destruct x, y; simpl in Ha, Hb |- *; try tauto; simpl in Z;
    rewrite ?Z; try discriminate; rewrite <- E; apply repr_finite_signed.
Qed.

Lemma repr_fltb (x y : float) (a b : Q) :
  repr x a -> repr y b -> (fltb x y = true <-> a < b).
Proof.
  intros Ha Hb.
  assert (E : fltb x y = Qltb (value x) (value y))
    by (destruct x, y; simpl in Ha, Hb |- *; tauto).
  rewrite E, Qltb_lt, (repr_value _ _ Ha), (repr_value _ _ Hb). tauto.
Qed.

Lemma repr_fleb (x y : float) (a b : Q) :
  repr x a -> repr y b -> (fleb x y = true <-> a <= b).
Proof.
  intros Ha Hb.
  assert (E : fleb x y = Qle_bool (value x) (value y))
    by (destruct x, y; simpl in Ha, Hb |- *; tauto).
  rewrite E, Qle_bool_iff, (repr_value _ _ Ha), (repr_value _ _ Hb). tauto.
Qed.

Lemma repr_feqb (x y : float) (a b : Q) :
  repr x a -> repr y b -> (feqb x y = true <-> a == b).
Proof.
  intros Ha Hb.
  assert (E : feqb x y = Qeq_bool (value x) (value y))
    by (destruct x, y; simpl in Ha, Hb |- *; tauto).
  rewrite E, Qeq_bool_iff, (repr_value _ _ Ha), (repr_value _ _ Hb). tauto.
Qed.

End FloatFacts.

(** ** Lists and series *)

Section SeriesFacts.

Lemma nth_error_zip_with {A B C} (f : A -> B -> C) : forall l m i,
  nth_error (Series.zip_with f l m) i
  = match nth_error l i, nth_error m i with
    | Some a, Some b => Some (f a b)
    | _, _ => None
    end.
Proof.
  induction l as [|a l IH]; intros m i.
  - destruct i; reflexivity.
  - destruct m as [|b m].
    + destruct i; cbn; [reflexivity|]. now destruct (nth_error l i).
    + destruct i; cbn; [reflexivity|]. apply IH.
Qed.

Lemma zip_with_length {A B C} (f : A -> B -> C) : forall l m,
  List.length (Series.zip_with f l m) = Nat.min (List.length l) (List.length m).
Proof.
  induction l as [|a l IH]; intros [|b m]; cbn; auto.
Qed.

Lemma ewm_from_length alpha : forall s prev,
  List.length (Series.ewm_from alpha prev s) = List.length s.
Proof.
  induction s as [|x s IH]; intros prev; cbn; auto.
Qed.

Lemma ewm_mean_length alpha s :
  List.length (Series.ewm_mean alpha s) = List.length s.
Proof.
  destruct s; cbn; [reflexivity|]. now rewrite ewm_from_length.
Qed.

Lemma diff_length s : List.length (Series.diff s) = List.length s.
Proof.
  destruct s as [|x s]; cbn; [reflexivity|].
  rewrite zip_with_length. cbn. f_equal. lia.
Qed.

Lemma avg_gain_length s p : List.length (avg_gain s p) = List.length s.
Proof.
  unfold avg_gain, Series.where_.
  now rewrite ewm_mean_length, length_map, diff_length.
Qed.

Lemma avg_loss_length s p : List.length (avg_loss s p) = List.length s.
Proof.
  unfold avg_loss, Series.where_, Series.neg.
  now rewrite ewm_mean_length, !length_map, diff_length.
Qed.

Lemma vectorized_rsi_length s p : List.length (vectorized_rsi s p) = List.length s.
Proof.
  unfold vectorized_rsi.
  rewrite length_map, zip_with_length, avg_gain_length, avg_loss_length. lia.
Qed.

(** [s.iloc[-k]] is the element [k] places from the end, when there is
    one. *)
Lemma iloc_from_end (s : Series.Series) (k : nat) :
  (1 <= k <= List.length s)%nat ->
  nth_error s (List.length s - k) = Some (from_end s k)
  /\ Series.iloc s (- Z.of_nat k) = Return (from_end s k).
Proof.
  intros Hk. unfold Series.iloc.
  replace (- Z.of_nat k <? 0) with true by (symmetry; apply Z.ltb_lt; lia).
  replace ((0 <=? Z.of_nat (List.length s) + - Z.of_nat k)
           && (Z.of_nat (List.length s) + - Z.of_nat k <? Z.of_nat (List.length s)))
    with true
    by (symmetry; apply andb_true_iff; split;
        [apply Z.leb_le | apply Z.ltb_lt]; lia).
  replace (Z.to_nat (Z.of_nat (List.length s) + - Z.of_nat k))
    with (List.length s - k)%nat by lia.
  assert (E : nth_error s (List.length s - k) = Some (from_end s k))
    by (apply nth_error_nth'; lia).
  now rewrite E.
Qed.

Lemma iloc_from_end_eq (s : Series.Series) (k : nat) :
  (1 <= k <= List.length s)%nat ->
  Series.iloc s (- Z.of_nat k) = Return (from_end s k).
Proof. intros Hk. now apply iloc_from_end. Qed.

(** With fewer than [k] elements, [s.iloc[-k]] raises [IndexError]. *)
Lemma iloc_out_of_bounds (s : Series.Series) (k : nat) :
  (List.length s < k)%nat ->
  exists e, Series.iloc s (- Z.of_nat k) = Raise e /\ exn_cls e = IndexError.
Proof.
  intros Hk. unfold Series.iloc.
  replace (- Z.of_nat k <? 0) with true by (symmetry; apply Z.ltb_lt; lia).
  replace (0 <=? Z.of_nat (List.length s) + - Z.of_nat k) with false
    by (symmetry; apply Z.leb_gt; lia).
  cbn [andb]. eexists. split; reflexivity.
Qed.

End SeriesFacts.

(** ** The RSI *)

Section RsiFacts.

Local Open Scope Q_scope.

Lemma closes_of_finite ohlcv :
  Forall (fun x => exists q, repr x q) (closes_of ohlcv).
Proof.
  unfold closes_of. apply Forall_map, Forall_forall.
  intros c _. exists (close c). apply repr_fin.
Qed.

Lemma volumes_of_finite ohlcv :
  Forall (fun x => exists q, repr x q) (volumes_of ohlcv).
Proof.
  unfold volumes_of. apply Forall_map, Forall_forall.
  intros c _. exists (volume c). apply repr_fin.
Qed.

Lemma zip_with_fsub_finite : forall t s,
  Forall (fun x => exists q, repr x q) t ->
  Forall (fun x => exists q, repr x q) s ->
  Forall finite_or_nan (Series.zip_with fsub t s).
Proof.
  induction t as [|a t IH]; intros [|b s] Ht Hs; cbn; try constructor.
  - inversion Ht as [|? ? [qa Ha] Ht']; inversion Hs as [|? ? [qb Hb] Hs']; subst.
    right. exists (qa - qb). now apply repr_fsub.
  - inversion Ht; inversion Hs; subst. now apply IH.
Qed.

Lemma diff_finite s :
  Forall (fun x => exists q, repr x q) s -> Forall finite_or_nan (Series.diff s).
Proof.
  intros Hs. destruct s as [|x s]; cbn; constructor.
  - now left.
  - apply zip_with_fsub_finite; [now inversion Hs | assumption].
Qed.

(** A gain is a finite value that is not negative. *)
Lemma gain_nonneg d :
  finite_or_nan d -> nonneg (if fltb (of_Z 0) d then d else of_Z 0).
Proof.
  intros [-> | [q Hq]].
  - exists 0. split; [reflexivity | apply Qle_refl].
  - destruct (fltb (of_Z 0) d) eqn:E.
    + exists q. split; [assumption|].
      apply (repr_fltb _ _ _ _ (repr_of_Z 0) Hq) in E. now apply Qlt_le_weak.
    + exists 0. split; [reflexivity | apply Qle_refl].
Qed.

(** So is a loss. *)
Lemma loss_nonneg d :
  finite_or_nan d -> nonneg (fneg (if fltb d (of_Z 0) then d else of_Z 0)).
Proof.
  intros [-> | [q Hq]].
  - exists 0. split; [reflexivity | apply Qle_refl].
  - destruct (fltb d (of_Z 0)) eqn:E.
    + exists (- q). split; [now apply repr_fneg|].
      apply (repr_fltb _ _ _ _ Hq (repr_of_Z 0)) in E.
      change (inject_Z 0) with 0 in E. lra.
    + exists 0. split; [reflexivity | apply Qle_refl].
Qed.

(** One step of the smoothing keeps a value finite and not negative. *)
Lemma ewm_step_nonneg prev x :
  nonneg prev -> nonneg x ->
  nonneg (fadd (fmul (fsub (of_Z 1) (fdiv (of_Z 1) (of_Z 14))) prev)
               (fmul (fdiv (of_Z 1) (of_Z 14)) x)).
Proof.
  intros [p [Hp Hp0]] [q [Hq Hq0]].
  assert (Ha : repr (fdiv (of_Z 1) (of_Z 14)) (1 # 14)) by (vm_compute; reflexivity).
  assert (Hb : repr (fsub (of_Z 1) (fdiv (of_Z 1) (of_Z 14))) (13 # 14))
    by (vm_compute; reflexivity).
  exists ((13 # 14) * p + (1 # 14) * q). split.
  - apply repr_fadd; now apply repr_fmul.
  - lra.
Qed.

Lemma ewm_from_nonneg : forall s prev,
  nonneg prev -> Forall nonneg s ->
  Forall nonneg (Series.ewm_from (fdiv (of_Z 1) (of_Z 14)) prev s).
Proof.
  induction s as [|x s IH]; intros prev Hprev Hs; cbn [Series.ewm_from].
  - constructor.
  - inversion Hs; subst.
    assert (Hy := ewm_step_nonneg prev x Hprev H1).
    constructor; [exact Hy | now apply IH].
Qed.

Lemma ewm_mean_nonneg s :
  Forall nonneg s -> Forall nonneg (Series.ewm_mean (fdiv (of_Z 1) (of_Z 14)) s).
Proof.
  intros Hs. destruct s as [|x s]; cbn [Series.ewm_mean]; [constructor|].
  inversion Hs; subst. constructor; [assumption | now apply ewm_from_nonneg].
Qed.

Lemma avg_gain_nonneg s :
  Forall (fun x => exists q, repr x q) s -> Forall nonneg (avg_gain s 14).
Proof.
  intros Hs. unfold avg_gain. apply ewm_mean_nonneg.
  unfold Series.where_. apply Forall_map.
  eapply Forall_impl; [|apply diff_finite, Hs].
  intros d Hd. now apply gain_nonneg.
Qed.

Lemma avg_loss_nonneg s :
  Forall (fun x => exists q, repr x q) s -> Forall nonneg (avg_loss s 14).
Proof.
  intros Hs. unfold avg_loss. apply ewm_mean_nonneg.
  unfold Series.neg, Series.where_. rewrite map_map. apply Forall_map.
  eapply Forall_impl; [|apply diff_finite, Hs].
  intros d Hd. now apply loss_nonneg.
Qed.

(** The RSI of an index with a positive average loss is a finite value
    within [0, 100]. *)
Lemma rsi_of_positive_loss g l a b :
  repr g a -> repr l b -> 0 <= a -> 0 < b ->
  exists q, repr (rsi_of g l) q /\ 0 <= q /\ q <= 100.
Proof.
  intros Hg Hl Ha Hb.
  assert (Hb' : ~ b == 0) by lra.
  assert (Hrs : 0 <= a / b) by (apply Qle_shift_div_l; lra).
  assert (Ht : ~ 1 + a / b == 0) by lra.
  exists (100 - 100 / (1 + a / b)). split; [|split].
  - unfold rsi_of. apply repr_fsub; [apply repr_of_Z|].
    apply repr_fdiv; [apply repr_of_Z | | exact Ht].
    apply repr_fadd; [apply repr_of_Z|]. now apply repr_fdiv.
  - assert (100 / (1 + a / b) <= 100) by (apply Qle_shift_div_r; lra). lra.
  - assert (0 <= 100 / (1 + a / b)) by (apply Qle_shift_div_l; lra). lra.
Qed.

(** With no average loss and some average gain the RSI is 100. *)
Lemma rsi_of_zero_loss g l a :
  repr g a -> 0 < a -> is_zero l = true -> rsi_of g l = of_Z 100.
Proof.
  intros Hg Ha Hl.
  assert (Hgz : is_zero g = false).
  { apply not_true_iff_false. rewrite (repr_is_zero _ _ Hg). lra. }
  unfold rsi_of.
  assert (E : exists s, fdiv g l = Inf s).
  { destruct g, l; cbn in Hg, Hl, Hgz |- *; try tauto; try discriminate;
      rewrite ?Hl, ?Hgz; eexists; reflexivity. }
  destruct E as [s ->]. now destruct s.
Qed.

(** With neither the ratio is 0/0 and the RSI is NaN. *)
Lemma rsi_of_zero_zero g l :
  is_zero g = true -> is_zero l = true -> rsi_of g l = NaN.
Proof.
  intros Hg Hl. unfold rsi_of.
  assert (E : fdiv g l = NaN).
  { destruct g, l; cbn in Hg, Hl |- *; try discriminate; now rewrite ?Hl, ?Hg. }
  now rewrite E.
Qed.

End RsiFacts.

Section RsiLatest.

Local Open Scope Q_scope.

(** The latest RSI is [rsi_of] of the latest two averages, both finite
    and not negative. *)
Lemma rsi_latest (s : Series.Series) :
  Forall (fun x => exists q, repr x q) s ->
  (1 <= List.length s)%nat ->
  from_end (vectorized_rsi s 14) 1
  = rsi_of (from_end (avg_gain s 14) 1) (from_end (avg_loss s 14) 1)
  /\ nonneg (from_end (avg_gain s 14) 1)
  /\ nonneg (from_end (avg_loss s 14) 1).
Proof.
  intros Hs Hn.
  destruct (iloc_from_end (avg_gain s 14) 1) as (Hg & _);
    [rewrite avg_gain_length; lia|].
  destruct (iloc_from_end (avg_loss s 14) 1) as (Hl & _);
    [rewrite avg_loss_length; lia|].
  destruct (iloc_from_end (vectorized_rsi s 14) 1) as (Hr & _);
    [rewrite vectorized_rsi_length; lia|].
  repeat split.
  - rewrite vectorized_rsi_length in Hr.
    rewrite avg_gain_length in Hg. rewrite avg_loss_length in Hl.
    unfold vectorized_rsi in Hr at 1.
    rewrite nth_error_map, nth_error_zip_with, Hg, Hl in Hr.
    cbn [option_map] in Hr. now inversion Hr.
  - apply nth_error_In in Hg.
    now apply (proj1 (Forall_forall _ _) (avg_gain_nonneg s Hs)).
  - apply nth_error_In in Hl.
    now apply (proj1 (Forall_forall _ _) (avg_loss_nonneg s Hs)).
Qed.

(** C2 (as amended).  For every series of at least 50 buckets, the latest
    smoothed average gain and loss and the latest RSI exist, and whenever
    the two averages are not both zero, the RSI satisfies
    [0 <= RSI <= 100] and is 100 when the average loss is zero.  (The
    converse is not stated: the program's subtraction [100 - 100 / (1 + rs)]
    rounds to 100 for a large ratio [rs], with an average loss above
    zero.) *)
Theorem rsi_bounds :
  forall ohlcv : list candle,
    (50 <= List.length ohlcv)%nat ->
    exists g l r,
      Series.iloc (avg_gain (closes_of ohlcv) 14) (-1) = Return g
      /\ Series.iloc (avg_loss (closes_of ohlcv) 14) (-1) = Return l
      /\ Series.iloc (vectorized_rsi (closes_of ohlcv) 14) (-1) = Return r
      /\ (is_zero g && is_zero l = false ->
          fleb (of_Z 0) r = true
          /\ fleb r (of_Z 100) = true
          /\ (is_zero l = true -> r = of_Z 100)).
Proof.
  intros ohlcv Hn.
  assert (Hlen : (1 <= List.length (closes_of ohlcv))%nat)
    by (unfold closes_of; rewrite length_map; lia).
  destruct (rsi_latest (closes_of ohlcv) (closes_of_finite ohlcv) Hlen)
    as (Hr & [a [Ha Ha0]] & [b [Hb Hb0]]).
  set (g := from_end (avg_gain (closes_of ohlcv) 14) 1) in *.
  set (l := from_end (avg_loss (closes_of ohlcv) 14) 1) in *.
  exists g, l, (rsi_of g l). rewrite <- Hr.
  split; [apply (iloc_from_end _ 1); rewrite avg_gain_length; lia|].
  split; [apply (iloc_from_end _ 1); rewrite avg_loss_length; lia|].
  split; [apply (iloc_from_end _ 1); rewrite vectorized_rsi_length; lia|].
  rewrite Hr. intros H.
  assert (Hzero : is_zero l = true -> rsi_of g l = of_Z 100).
  { intros Hlz. rewrite Hlz, andb_true_r in H.
    assert (Hapos : 0 < a).
    { apply not_true_iff_false in H. rewrite (repr_is_zero _ _ Ha) in H.
      destruct (Qlt_le_dec 0 a); [assumption|]. exfalso. apply H. lra. }
    exact (rsi_of_zero_loss g l a Ha Hapos Hlz). }
  split; [|split; [|exact Hzero]].
  - destruct (Qlt_le_dec 0 b) as [Hpos|Hle].
    + destruct (rsi_of_positive_loss g l a b Ha Hb Ha0 Hpos) as (q & Hq & Hq0 & _).
      now apply (repr_fleb _ _ _ _ (repr_of_Z 0) Hq).
    + assert (Hlz : is_zero l = true) by (apply (repr_is_zero _ _ Hb); lra).
      now rewrite (Hzero Hlz).
  - destruct (Qlt_le_dec 0 b) as [Hpos|Hle].
    + destruct (rsi_of_positive_loss g l a b Ha Hb Ha0 Hpos) as (q & Hq & _ & Hq1).
      apply (repr_fleb _ _ _ _ Hq (repr_of_Z 100)).
      change (inject_Z 100) with 100. exact Hq1.
    + assert (Hlz : is_zero l = true) by (apply (repr_is_zero _ _ Hb); lra).
      now rewrite (Hzero Hlz).
Qed.

End RsiLatest.

Lemma rsi_bounds_witness :
  (50 <= List.length (Samples.zigzag 50))%nat
  /\ exists g l r,
       Series.iloc (avg_gain (closes_of (Samples.zigzag 50)) 14) (-1) = Return g
       /\ Series.iloc (avg_loss (closes_of (Samples.zigzag 50)) 14) (-1) = Return l
       /\ Series.iloc (vectorized_rsi (closes_of (Samples.zigzag 50)) 14) (-1) = Return r
       /\ is_zero g && is_zero l = false
       /\ fleb (of_Z 0) r = true
       /\ fleb r (of_Z 100) = true
       /\ (is_zero l = true -> r = of_Z 100).
Proof.
  assert (Hn : (50 <= List.length (Samples.zigzag 50))%nat)
    by (apply Nat.leb_le; reflexivity).
  split; [exact Hn|].
  destruct (rsi_bounds (Samples.zigzag 50) Hn) as (g & l & r & Hg & Hl & Hr & H).
  assert (Hguard : is_zero g && is_zero l = false).
  { vm_compute in Hg, Hl. injection Hg as <-. injection Hl as <-. reflexivity. }
  exists g, l, r. destruct (H Hguard) as (H0 & H100 & Hz).
  repeat split; assumption.
Defined.

(** C2, as the specification words it, fails on a flat series of 50
    buckets: the average loss is zero, and the RSI is NaN, which is
    neither 100 nor within [0, 100]. *)
Lemma rsi_flat_is_nan :
  (50 <= List.length (Samples.flat 50 100))%nat
  /\ Series.iloc (avg_loss (closes_of (Samples.flat 50 100)) 14) (-1) = Return NegZero
  /\ is_zero NegZero = true
  /\ Series.iloc (vectorized_rsi (closes_of (Samples.flat 50 100)) 14) (-1) = Return NaN
  /\ feqb NaN (of_Z 100) = false
  /\ fleb (of_Z 0) NaN = false
  /\ fleb NaN (of_Z 100) = false.
Proof.
  repeat split; vm_compute; reflexivity.
Qed.

(** ** The indicators of one symbol *)

Section IndicatorFacts.

Variable sqrt : float -> float.

Lemma closes_of_length ohlcv : List.length (closes_of ohlcv) = List.length ohlcv.
Proof. unfold closes_of. apply length_map. Qed.


Lemma rolling_length w agg s :
  List.length (Series.rolling w agg s) = List.length s.
Proof. unfold Series.rolling. now rewrite length_map, length_seq. Qed.

Ltac iloc_end k :=
  match goal with
  | |- context [Series.iloc ?s (- Z.of_nat k)] =>
      rewrite (iloc_from_end_eq s k);
      [| rewrite ?vectorized_rsi_length, ?rolling_length, ?closes_of_length; lia]
  end.

(** With 168 buckets or more every entry of the result is computed. *)
Lemma indicators_long sym ohlcv :
  (168 <= List.length ohlcv)%nat ->
  indicators sqrt sym ohlcv
  = Return {|
      r_symbol := Str.replace sym "/USDT" "";
      price := from_end (closes_of ohlcv) 1;
      rsi := from_end (vectorized_rsi (closes_of ohlcv) 14) 1;
      change_24h :=
        fmul (fdiv (fsub (from_end (closes_of ohlcv) 1) (from_end (closes_of ohlcv) 24))
                   (from_end (closes_of ohlcv) 24)) (of_Z 100);
      change_7d :=
        fmul (fdiv (fsub (from_end (closes_of ohlcv) 1) (from_end (closes_of ohlcv) 168))
                   (from_end (closes_of ohlcv) 168)) (of_Z 100);
      volatility :=
        fmul (Series.std sqrt (Series.pct_change (closes_of ohlcv))) (sqrt (of_Z 365));
      volume_24h := Series.sum (Series.tail 24 (volumes_of ohlcv));
      support := from_end (Series.rolling 24 Series.minimum (closes_of ohlcv)) 1;
      resistance := from_end (Series.rolling 24 Series.maximum (closes_of ohlcv)) 1;
      vwap := fdiv (Series.sum (Series.mul (closes_of ohlcv) (volumes_of ohlcv)))
                   (Series.sum (volumes_of ohlcv))
    |}.
Proof.
  intros Hn. unfold indicators. cbv zeta.
  change (-1) with (- Z.of_nat 1).
  change (-24) with (- Z.of_nat 24).
  change (- (42 * 4)) with (- Z.of_nat 168).
  repeat (first [iloc_end 1%nat | iloc_end 24%nat | iloc_end 168%nat]; cbn [obind]).
  reflexivity.
Qed.

(** With fewer than 168 an entry raises [IndexError], at the latest the
    seven-day change. *)
Lemma indicators_short sym ohlcv :
  (List.length ohlcv < 168)%nat ->
  exists e, indicators sqrt sym ohlcv = Raise e /\ exn_cls e = IndexError.
Proof.
  intros Hn. unfold indicators. cbv zeta.
  change (-1) with (- Z.of_nat 1).
  change (-24) with (- Z.of_nat 24).
  change (- (42 * 4)) with (- Z.of_nat 168).
  destruct (Nat.lt_ge_cases (List.length ohlcv) 1) as [H0|H1].
  { destruct (iloc_out_of_bounds (closes_of ohlcv) 1) as (e & -> & He);
      [rewrite closes_of_length; lia|]. now exists e. }
  repeat iloc_end 1%nat. cbn [obind].
  destruct (Nat.lt_ge_cases (List.length ohlcv) 24) as [H23|H24].
  { destruct (iloc_out_of_bounds (closes_of ohlcv) 24) as (e & -> & He);
      [rewrite closes_of_length; lia|]. now exists e. }
  repeat iloc_end 24%nat. cbn [obind].
  destruct (iloc_out_of_bounds (closes_of ohlcv) 168) as (e & -> & He);
    [rewrite closes_of_length; lia|]. now exists e.
Qed.

End IndicatorFacts.

(** ** [analyze_symbol] *)

Section AnalyzeFacts.

Variable W : Type.
Variable fetch_ohlcv : string -> string -> Z -> W -> outcome (list candle) * W.
Variable sqrt : float -> float.

(** Once the candles are fetched the unit returns [analyze] of them. *)
Lemma analyze_symbol_fetched sym st ohlcv st' :
  fetched fetch_ohlcv sym st ohlcv st' ->
  analyze_symbol W fetch_ohlcv sqrt sym st = (Return (analyze sqrt sym ohlcv), st').
Proof.
  unfold fetched. intros Hf.
  unfold analyze_symbol, try_except, analyze_symbol_body, bind, analyze.
  rewrite Hf. cbn [not_none ret].
  destruct (List.length ohlcv <? 50)%nat; [reflexivity|].
  unfold lift. now destruct (indicators sqrt sym ohlcv).
Qed.

(** A fetch that raises gives no result. *)
Lemma analyze_symbol_fetch_raises sym st e st' :
  fetch_with_retry (fetch_ohlcv sym TIMEFRAME 168) 3 1 st = (Raise e, st') ->
  analyze_symbol W fetch_ohlcv sqrt sym st = (Return None, st').
Proof.
  intros Hf.
  unfold analyze_symbol, try_except, analyze_symbol_body, bind.
  now rewrite Hf.
Qed.

(** The unit never raises. *)
Lemma analyze_symbol_returns sym st :
  exists r st', analyze_symbol W fetch_ohlcv sqrt sym st = (Return r, st').
Proof.
  destruct (fetch_with_retry (fetch_ohlcv sym TIMEFRAME 168) 3 1 st)
    as [[[ohlcv|]|e] st'] eqn:Hf.
  - exists (analyze sqrt sym ohlcv), st'. now apply analyze_symbol_fetched.
  - exfalso. revert Hf. apply retry_loop_not_none; cbn; lia.
  - exists None, st'. now apply analyze_symbol_fetch_raises with e.
Qed.

(** With 168 buckets fetched the unit returns their indicators. *)
Lemma analyze_symbol_long sym st ohlcv st' :
  fetched fetch_ohlcv sym st ohlcv st' ->
  (168 <= List.length ohlcv)%nat ->
  exists r,
    analyze_symbol W fetch_ohlcv sqrt sym st = (Return (Some r), st')
    /\ indicators sqrt sym ohlcv = Return r.
Proof.
  intros Hf Hn.
  rewrite (analyze_symbol_fetched _ _ _ _ Hf). unfold analyze.
  replace (List.length ohlcv <? 50)%nat with false
    by (symmetry; apply Nat.ltb_ge; lia).
  rewrite (indicators_long sqrt sym ohlcv Hn).
  eexists. split; reflexivity.
Qed.

(** C7.  When the fetch returns fewer than 50 buckets, the analysis of the
    symbol returns [None]: no result is produced and nothing is raised. *)
Theorem analyze_symbol_insufficient :
  forall sym st ohlcv st',
    fetched fetch_ohlcv sym st ohlcv st' ->
    (List.length ohlcv < 50)%nat ->
    analyze_symbol W fetch_ohlcv sqrt sym st = (Return None, st').
Proof.
  intros sym st ohlcv st' Hf Hn.
  rewrite (analyze_symbol_fetched _ _ _ _ Hf). unfold analyze.
  now replace (List.length ohlcv <? 50)%nat with true
    by (symmetry; apply Nat.ltb_lt; exact Hn).
Qed.

End AnalyzeFacts.

Lemma analyze_symbol_insufficient_witness :
  analyze_symbol nat Samples.fetch_ohlcv Samples.sqrt "B/USDT" (0%nat, [])
  = (Return None, (1%nat, [Call])).
Proof.
  apply (analyze_symbol_insufficient nat Samples.fetch_ohlcv Samples.sqrt
           "B/USDT" (0%nat, []) (Samples.rising 10) (1%nat, [Call])).
  - reflexivity.
  - apply Nat.ltb_lt. reflexivity.
Defined.

(** ** Percent changes *)

Section ChangeFacts.

Local Open Scope Q_scope.

Lemma from_end_closes ohlcv k :
  (1 <= k <= List.length ohlcv)%nat ->
  repr (nth (List.length ohlcv - k) (closes_of ohlcv) NaN)
       (nth (List.length ohlcv - k) (close_prices ohlcv) 0).
Proof.
  intros Hk.
  set (i := (List.length ohlcv - k)%nat).
  set (d := Candle 0 0 0 0 0 0).
  unfold closes_of, close_prices.
  rewrite (nth_indep _ NaN (fin (close d))) by (rewrite length_map; lia).
  rewrite (map_nth (fun c => fin (close c))).
  change 0 with (close d). rewrite (map_nth close).
  apply repr_fin.
Qed.

(** [(x - y) / y * 100] on finite values, [y] not zero. *)
Lemma percent_change_repr x y a b :
  repr x a -> repr y b -> ~ b == 0 ->
  repr (fmul (fdiv (fsub x y) y) (of_Z 100)) ((a - b) / b * 100).
Proof.
  intros Hx Hy Hb.
  apply repr_fmul; [|apply repr_of_Z].
  apply repr_fdiv; [|assumption|assumption].
  now apply repr_fsub.
Qed.

End ChangeFacts.

Section ChangeOffsets.

Variable W : Type.
Variable fetch_ohlcv : string -> string -> Z -> W -> outcome (list candle) * W.
Variable sqrt : float -> float.

Local Open Scope Q_scope.

(** C8.  Once the candles are fetched, [n] of them, with closes [C]: from
    168 buckets on the analysis returns a result whose [change_24h] is
    [(C[n-1] - C[n-24]) / C[n-24] * 100] and whose [change_7d] is
    [(C[n-1] - C[n-168]) / C[n-168] * 100], which stand for these
    rationals when the divisor is not zero; from 50 to 167 buckets it
    returns [None] and raises nothing. *)
Theorem change_offsets :
  forall sym st ohlcv st',
    fetched fetch_ohlcv sym st ohlcv st' ->
    let n := List.length ohlcv in
    let C := closes_of ohlcv in
    let c := close_prices ohlcv in
    ((168 <= n)%nat ->
     exists r,
       analyze_symbol W fetch_ohlcv sqrt sym st = (Return (Some r), st')
       /\ change_24h r
          = fmul (fdiv (fsub (nth (n - 1) C NaN) (nth (n - 24) C NaN))
                       (nth (n - 24) C NaN)) (of_Z 100)
       /\ change_7d r
          = fmul (fdiv (fsub (nth (n - 1) C NaN) (nth (n - 168) C NaN))
                       (nth (n - 168) C NaN)) (of_Z 100)
       /\ (~ nth (n - 24) c 0 == 0 ->
           repr (change_24h r)
                ((nth (n - 1) c 0 - nth (n - 24) c 0) / nth (n - 24) c 0 * 100))
       /\ (~ nth (n - 168) c 0 == 0 ->
           repr (change_7d r)
                ((nth (n - 1) c 0 - nth (n - 168) c 0) / nth (n - 168) c 0 * 100)))
    /\ ((50 <= n < 168)%nat ->
        analyze_symbol W fetch_ohlcv sqrt sym st = (Return None, st')).
Proof.
  intros sym st ohlcv st' Hf n C c.
  rewrite (analyze_symbol_fetched _ _ _ _ _ _ _ Hf). unfold analyze.
  fold n. split.
  - intros Hn.
    replace (n <? 50)%nat with false by (symmetry; apply Nat.ltb_ge; lia).
    rewrite (indicators_long sqrt sym ohlcv Hn).
    eexists. split; [reflexivity|]. cbn [change_24h change_7d].
    unfold from_end. rewrite closes_of_length. fold n C.
    split; [reflexivity|]. split; [reflexivity|].
    split; intros Hnz.
    + apply percent_change_repr; [| |exact Hnz].
      * apply (from_end_closes ohlcv 1). fold n. lia.
      * apply (from_end_closes ohlcv 24). fold n. lia.
    + apply percent_change_repr; [| |exact Hnz].
      * apply (from_end_closes ohlcv 1). fold n. lia.
      * apply (from_end_closes ohlcv 168). fold n. lia.
  - intros Hn.
    replace (n <? 50)%nat with false by (symmetry; apply Nat.ltb_ge; lia).
    destruct (indicators_short sqrt sym ohlcv) as (e & -> & _); [fold n; lia|].
    reflexivity.
Qed.

End ChangeOffsets.

Lemma change_offsets_witness :
  let n := List.length (Samples.rising 168) in
  let C := closes_of (Samples.rising 168) in
  let c := close_prices (Samples.rising 168) in
  ((168 <= n)%nat ->
   exists r,
     analyze_symbol nat Samples.fetch_ohlcv Samples.sqrt "A/USDT" (0%nat, [])
     = (Return (Some r), (1%nat, [Call]))
     /\ change_24h r
        = fmul (fdiv (fsub (nth (n - 1) C NaN) (nth (n - 24) C NaN))
                     (nth (n - 24) C NaN)) (of_Z 100)
     /\ change_7d r
        = fmul (fdiv (fsub (nth (n - 1) C NaN) (nth (n - 168) C NaN))
                     (nth (n - 168) C NaN)) (of_Z 100)
     /\ (~ (nth (n - 24) c 0 == 0)%Q ->
         repr (change_24h r)
              ((nth (n - 1) c 0 - nth (n - 24) c 0) / nth (n - 24) c 0 * 100)%Q)
     /\ (~ (nth (n - 168) c 0 == 0)%Q ->
         repr (change_7d r)
              ((nth (n - 1) c 0 - nth (n - 168) c 0) / nth (n - 168) c 0 * 100)%Q))
  /\ ((50 <= n < 168)%nat ->
      analyze_symbol nat Samples.fetch_ohlcv Samples.sqrt "A/USDT" (0%nat, [])
      = (Return None, (1%nat, [Call]))).
Proof.
  apply (change_offsets nat Samples.fetch_ohlcv Samples.sqrt
           "A/USDT" (0%nat, []) (Samples.rising 168) (1%nat, [Call])).
  reflexivity.
Defined.

(** ** Support and resistance *)

Section WindowFacts.

Local Open Scope Q_scope.

Lemma Forall_skipn_keep {A} (P : A -> Prop) : forall n l,
  Forall P l -> Forall P (skipn n l).
Proof.
  induction n as [|n IH]; intros l Hl; [exact Hl|].
  destruct l as [|x l]; [constructor|].
  inversion Hl; subst. cbn [skipn]. now apply IH.
Qed.

Lemma Forall_firstn_keep {A} (P : A -> Prop) : forall n l,
  Forall P l -> Forall P (firstn n l).
Proof.
  induction n as [|n IH]; intros l Hl; [constructor|].
  destruct l as [|x l]; [constructor|].
  inversion Hl; subst. cbn [firstn]. constructor; [assumption | now apply IH].
Qed.

Lemma filter_notna_finite (l : Series.Series) :
  Forall (fun x => exists q, repr x q) l -> filter Series.notna l = l.
Proof.
  induction 1 as [|x l [q Hq] Hl IH]; [reflexivity|].
  cbn [filter]. rewrite IH. now destruct x.
Qed.

Lemma fmin_spec x y a b :
  repr x a -> repr y b -> exists m, repr (fmin x y) m /\ m <= a /\ m <= b.
Proof.
  intros Hx Hy. unfold fmin. destruct (fltb y x) eqn:E.
  - apply (repr_fltb _ _ _ _ Hy Hx) in E.
    exists b. repeat split; [assumption | lra | lra].
  - apply not_true_iff_false in E. rewrite (repr_fltb _ _ _ _ Hy Hx) in E.
    exists a. repeat split; [assumption | lra | lra].
Qed.

Lemma fmax_spec x y a b :
  repr x a -> repr y b -> exists m, repr (fmax x y) m /\ a <= m /\ b <= m.
Proof.
  intros Hx Hy. unfold fmax. destruct (fltb x y) eqn:E.
  - apply (repr_fltb _ _ _ _ Hx Hy) in E.
    exists b. repeat split; [assumption | lra | lra].
  - apply not_true_iff_false in E. rewrite (repr_fltb _ _ _ _ Hx Hy) in E.
    exists a. repeat split; [assumption | lra | lra].
Qed.

Lemma fold_fmin_spec : forall l x a,
  repr x a -> Forall (fun y => exists q, repr y q) l ->
  exists m, repr (fold_left fmin l x) m
            /\ m <= a
            /\ forall y b, In y l -> repr y b -> m <= b.
Proof.
  induction l as [|z l IH]; intros x a Hx Hl; cbn [fold_left].
  - exists a. repeat split; [assumption | lra | intros ? ? []].
  - inversion Hl as [|? ? [c Hz] Hl']; subst.
    destruct (fmin_spec x z a c Hx Hz) as (m0 & Hm0 & Hm0a & Hm0c).
    destruct (IH _ _ Hm0 Hl') as (m & Hm & Hle & Hall).
    exists m. repeat split; [assumption | lra |].
    intros y b [<- | Hin] Hy.
    + assert (E : value z == c) by now apply repr_value.
      assert (E' : value z == b) by now apply repr_value.
      lra.
    + now apply Hall with y.
Qed.

Lemma fold_fmax_spec : forall l x a,
  repr x a -> Forall (fun y => exists q, repr y q) l ->
  exists m, repr (fold_left fmax l x) m
            /\ a <= m
            /\ forall y b, In y l -> repr y b -> b <= m.
Proof.
  induction l as [|z l IH]; intros x a Hx Hl; cbn [fold_left].
  - exists a. repeat split; [assumption | lra | intros ? ? []].
  - inversion Hl as [|? ? [c Hz] Hl']; subst.
    destruct (fmax_spec x z a c Hx Hz) as (m0 & Hm0 & Hm0a & Hm0c).
    destruct (IH _ _ Hm0 Hl') as (m & Hm & Hle & Hall).
    exists m. repeat split; [assumption | lra |].
    intros y b [<- | Hin] Hy.
    + assert (E : value z == c) by now apply repr_value.
      assert (E' : value z == b) by now apply repr_value.
      lra.
    + now apply Hall with y.
Qed.

(** The minimum of finite values is below each of them. *)
Lemma minimum_below (l : Series.Series) (y : float) :
  Forall (fun x => exists q, repr x q) l -> In y l ->
  fleb (Series.minimum l) y = true.
Proof.
  intros Hl Hin. destruct l as [|x l]; [destruct Hin|].
  inversion Hl as [|? ? [a Hx] Hl']; subst.
  destruct (fold_fmin_spec l x a Hx Hl') as (m & Hm & Hma & Hall).
  cbn [Series.minimum].
  destruct Hin as [<- | Hin].
  - now apply (repr_fleb _ _ _ _ Hm Hx).
  - destruct (proj1 (Forall_forall _ _) Hl' y Hin) as [b Hy].
    apply (repr_fleb _ _ _ _ Hm Hy). now apply Hall with y.
Qed.

(** The maximum is above each. *)
Lemma maximum_above (l : Series.Series) (y : float) :
  Forall (fun x => exists q, repr x q) l -> In y l ->
  fleb y (Series.maximum l) = true.
Proof.
  intros Hl Hin. destruct l as [|x l]; [destruct Hin|].
  inversion Hl as [|? ? [a Hx] Hl']; subst.
  destruct (fold_fmax_spec l x a Hx Hl') as (m & Hm & Hma & Hall).
  cbn [Series.maximum].
  destruct Hin as [<- | Hin].
  - now apply (repr_fleb _ _ _ _ Hx Hm).
  - destruct (proj1 (Forall_forall _ _) Hl' y Hin) as [b Hy].
    apply (repr_fleb _ _ _ _ Hy Hm). now apply Hall with y.
Qed.

(** The latest value of a rolling aggregate over a finite series with a
    full window: the aggregate of the last [w] elements. *)
Lemma rolling_latest (w : nat) (agg : Series.Series -> float) (s : Series.Series) :
  Forall (fun x => exists q, repr x q) s ->
  (1 <= w <= List.length s)%nat ->
  from_end (Series.rolling w agg s) 1 = agg (skipn (List.length s - w) s).
Proof.
  intros Hs Hw. unfold from_end. rewrite rolling_length.
  unfold Series.rolling.
  rewrite (nth_indep _ NaN ((fun i =>
             let win := filter Series.notna (Series.window w i s) in
             if (List.length win <? w)%nat then NaN else agg win) 0%nat))
    by (rewrite length_map, length_seq; lia).
  rewrite (map_nth (fun i =>
             let win := filter Series.notna (Series.window w i s) in
             if (List.length win <? w)%nat then NaN else agg win)).
  rewrite seq_nth by lia. cbn [Nat.add]. cbv zeta.
  unfold Series.window.
  replace (List.length s - 1 + 1)%nat with (List.length s) by lia.
  rewrite firstn_all.
  rewrite filter_notna_finite by (apply Forall_skipn_keep; exact Hs).
  rewrite length_skipn.
  now replace (List.length s - (List.length s - w) <? w)%nat with false
    by (symmetry; apply Nat.ltb_ge; lia).
Qed.

(** The latest element is in every trailing window. *)
Lemma latest_in_window (w : nat) (s : Series.Series) :
  (1 <= w <= List.length s)%nat ->
  In (from_end s 1) (skipn (List.length s - w) s).
Proof.
  intros Hw. apply nth_error_In with (n := (w - 1)%nat).
  rewrite nth_error_skipn.
  replace (List.length s - w + (w - 1))%nat with (List.length s - 1)%nat by lia.
  apply nth_error_nth'. lia.
Qed.

End WindowFacts.

Section ResultFacts.

Variable W : Type.
Variable fetch_ohlcv : string -> string -> Z -> W -> outcome (list candle) * W.
Variable sqrt : float -> float.

(** A result comes from candles that were fetched, 168 of them at least,
    and holds their indicators. *)
Lemma analyze_symbol_some sym st r st' :
  analyze_symbol W fetch_ohlcv sqrt sym st = (Return (Some r), st') ->
  exists ohlcv,
    fetched fetch_ohlcv sym st ohlcv st'
    /\ (168 <= List.length ohlcv)%nat
    /\ indicators sqrt sym ohlcv = Return r.
Proof.
  intros Hrun.
  destruct (fetch_with_retry (fetch_ohlcv sym TIMEFRAME 168) 3 1 st)
    as [[[ohlcv|]|e] st1] eqn:Hf.
  - rewrite (analyze_symbol_fetched W fetch_ohlcv sqrt sym st ohlcv st1 Hf) in Hrun.
    inversion Hrun as [[Ha Hst]]. subst st1. unfold analyze in Ha.
    exists ohlcv. split; [exact Hf|].
    destruct (List.length ohlcv <? 50)%nat; [discriminate|].
    destruct (Nat.lt_ge_cases (List.length ohlcv) 168) as [Hlt|Hge].
    + destruct (indicators_short sqrt sym ohlcv Hlt) as (e & He & _).
      rewrite He in Ha. discriminate.
    + split; [exact Hge|].
      destruct (indicators sqrt sym ohlcv); [now inversion Ha | discriminate].
  - exfalso. revert Hf. apply retry_loop_not_none; cbn; lia.
  - rewrite (analyze_symbol_fetch_raises W fetch_ohlcv sqrt sym st e st1 Hf) in Hrun.
    discriminate.
Qed.

(** C10.  Every result [analyze_symbol] returns has
    [support <= price <= resistance]. *)
Theorem support_price_resistance :
  forall sym st r st',
    analyze_symbol W fetch_ohlcv sqrt sym st = (Return (Some r), st') ->
    fleb (support r) (price r) = true /\ fleb (price r) (resistance r) = true.
Proof.
  intros sym st r st' Hrun.
  destruct (analyze_symbol_some sym st r st' Hrun) as (ohlcv & _ & Hn & Hind).
  rewrite (indicators_long sqrt sym ohlcv Hn) in Hind.
  inversion Hind as [Hr]. cbn [support price resistance].
  assert (Hfin := closes_of_finite ohlcv).
  assert (Hw : (1 <= 24 <= List.length (closes_of ohlcv))%nat)
    by (rewrite closes_of_length; lia).
  rewrite !(rolling_latest 24 _ _ Hfin Hw).
  split.
  - apply minimum_below; [now apply Forall_skipn_keep | now apply latest_in_window].
  - apply maximum_above; [now apply Forall_skipn_keep | now apply latest_in_window].
Qed.

End ResultFacts.

Lemma support_price_resistance_witness :
  exists r,
    analyze_symbol nat Samples.fetch_ohlcv Samples.sqrt "A/USDT" (0%nat, [])
    = (Return (Some r), (1%nat, [Call]))
    /\ fleb (support r) (price r) = true /\ fleb (price r) (resistance r) = true.
Proof.
  destruct (analyze_symbol_long nat Samples.fetch_ohlcv Samples.sqrt
              "A/USDT" (0%nat, []) (Samples.rising 168) (1%nat, [Call]))
    as (r & Hrun & _); [reflexivity | apply Nat.leb_le; reflexivity |].
  exists r. split; [exact Hrun|].
  exact (support_price_resistance nat Samples.fetch_ohlcv Samples.sqrt
           "A/USDT" (0%nat, []) r (1%nat, [Call]) Hrun).
Defined.

(** ** The volume-weighted average price *)

Section SumFacts.

Local Open Scope Q_scope.

Lemma Forall2_repr_finite l qs :
  Forall2 repr l qs -> Forall (fun x => exists q, repr x q) l.
Proof.
  induction 1 as [|x q l qs Hx _ IH]; constructor; [now exists q | exact IH].
Qed.

Lemma fold_fadd_repr : forall l qs acc a,
  repr acc a -> Forall2 repr l qs ->
  repr (fold_left fadd l acc) (a + Qsum qs).
Proof.
  induction l as [|x l IH]; intros qs acc a Ha Hl; inversion Hl; subst.
  - cbn [fold_left Qsum fold_right]. now rewrite Qplus_0_r.
  - cbn [fold_left Qsum fold_right].
    rewrite Qplus_assoc. apply IH; [|assumption].
    now apply repr_fadd.
Qed.

(** The sum of a series of finite values stands for the sum of theirs. *)
Lemma sum_repr l qs : Forall2 repr l qs -> repr (Series.sum l) (Qsum qs).
Proof.
  intros Hl. unfold Series.sum.
  rewrite (filter_notna_finite l (Forall2_repr_finite l qs Hl)).
  rewrite <- (Qplus_0_l (Qsum qs)).
  apply fold_fadd_repr; [reflexivity | exact Hl].
Qed.

Lemma closes_repr ohlcv : Forall2 repr (closes_of ohlcv) (close_prices ohlcv).
Proof.
  induction ohlcv as [|k o IH]; constructor; [apply repr_fin | exact IH].
Qed.

Lemma volumes_repr ohlcv : Forall2 repr (volumes_of ohlcv) (map volume ohlcv).
Proof.
  induction ohlcv as [|k o IH]; constructor; [apply repr_fin | exact IH].
Qed.

End SumFacts.

Section VwapFacts.

Variable W : Type.
Variable fetch_ohlcv : string -> string -> Z -> W -> outcome (list candle) * W.
Variable sqrt : float -> float.

Local Open Scope Q_scope.


End VwapFacts.



(** ** A flat series *)

Section FlatFacts.

Local Open Scope Q_scope.

Variable sqrt : float -> float.

Lemma Qsum_zeros (qs : list Q) : Forall (fun q => q == 0) qs -> Qsum qs == 0.
Proof.
  induction 1 as [|q qs Hq _ IH]; cbn [Qsum fold_right]; [reflexivity|].
  fold (Qsum qs). rewrite Hq, IH. ring.
Qed.

Lemma sum_of_zeros (l : Series.Series) :
  Forall (fun x => repr x 0) l -> repr (fold_left fadd l (Fin 0)) 0.
Proof.
  intros Hl.
  assert (H2 : Forall2 repr l (repeat 0 (List.length l))).
  { induction Hl; cbn [List.length repeat]; constructor; assumption. }
  apply repr_eq with (0 + Qsum (repeat 0 (List.length l))).
  - apply fold_fadd_repr; [reflexivity | exact H2].
  - rewrite Qsum_zeros; [ring|]. apply Forall_forall.
    intros q Hq. apply repeat_spec in Hq. now subst.
Qed.

(** The standard deviation of two or more zeros is the square root of a
    zero. *)
Lemma std_of_zeros (s : Series.Series) :
  Forall (fun x => repr x 0) (filter Series.notna s) ->
  (2 <= List.length (filter Series.notna s))%nat ->
  exists z, is_zero z = true /\ Series.std sqrt s = sqrt z.
Proof.
  intros Hz Hn. unfold Series.std.
  set (xs := filter Series.notna s) in *.
  replace (Z.of_nat (List.length xs) <=? 1)%Z with false
    by (symmetry; apply Z.leb_gt; lia).
  eexists. split; [|reflexivity].
  assert (Havg : repr (fdiv (fold_left fadd xs (Fin 0)) (of_Z (Z.of_nat (List.length xs)))) 0).
  { apply repr_eq with (0 / inject_Z (Z.of_nat (List.length xs)));
      [|unfold Qdiv; ring].
    apply repr_fdiv; [now apply sum_of_zeros | apply repr_of_Z |].
    change 0 with (inject_Z 0). rewrite inject_Z_injective. lia. }
  set (avg := fdiv (fold_left fadd xs (Fin 0)) (of_Z (Z.of_nat (List.length xs)))) in *.
  assert (Hsqr : Forall (fun x => repr x 0)
                   (map (fun x => fmul (fsub avg x) (fsub avg x)) xs)).
  { apply Forall_map. eapply Forall_impl; [|exact Hz].
    intros x Hx. cbv beta.
    apply repr_eq with ((0 - 0) * (0 - 0)); [|ring].
    apply repr_fmul; now apply repr_fsub. }
  eapply (repr_is_zero _ 0); [|reflexivity].
  apply repr_eq with (0 / inject_Z (Z.of_nat (List.length xs) - 1));
    [|unfold Qdiv; ring].
  apply repr_fdiv; [now apply sum_of_zeros | apply repr_of_Z |].
  change 0 with (inject_Z 0). rewrite inject_Z_injective. lia.
Qed.

(** The closes of a flat series are one value. *)
Lemma flat_closes (p : Q) ohlcv :
  Forall (fun k => close k == p) ohlcv ->
  closes_of ohlcv = repeat (fin p) (List.length ohlcv).
Proof.
  induction 1 as [|k o Hk _ IH]; [reflexivity|].
  cbn [closes_of map List.length repeat]. fold (closes_of o).
  rewrite IH. unfold fin. now rewrite (Qred_complete _ _ Hk).
Qed.

Lemma zip_with_repeat {A B C} (f : A -> B -> C) (a : A) (b : B) : forall n m,
  (n <= m)%nat ->
  Series.zip_with f (repeat a n) (repeat b m) = repeat (f a b) n.
Proof.
  induction n as [|n IH]; intros m Hm; [reflexivity|].
  destruct m as [|m]; [lia|].
  cbn [repeat Series.zip_with]. rewrite IH by lia. reflexivity.
Qed.

(** The percent changes of a flat series at a price that is not zero: NaN,
    then zeros. *)
Lemma pct_change_flat (p : Q) (n : nat) :
  ~ p == 0 ->
  filter Series.notna (Series.pct_change (repeat (fin p) (S n)))
  = repeat (fsub (fdiv (fin p) (fin p)) (of_Z 1)) n
  /\ repr (fsub (fdiv (fin p) (fin p)) (of_Z 1)) 0.
Proof.
  intros Hp.
  assert (Hz : repr (fsub (fdiv (fin p) (fin p)) (of_Z 1)) 0).
  { apply repr_eq with (p / p - inject_Z 1);
      [|change (inject_Z 1) with 1; field; exact Hp].
    apply repr_fsub; [|apply repr_of_Z].
    apply repr_fdiv; [apply repr_fin | apply repr_fin | exact Hp]. }
  split; [|exact Hz].
  cbn [repeat Series.pct_change].
  change (fin p :: repeat (fin p) n) with (repeat (fin p) (S n)).
  rewrite zip_with_repeat by lia.
  cbn [filter Series.notna is_nan negb].
  apply filter_notna_finite, Forall_forall.
  intros x Hx. apply repeat_spec in Hx. subst x. now exists 0.
Qed.

End FlatFacts.

Section FlatSeries.

Variable W : Type.
Variable fetch_ohlcv : string -> string -> Z -> W -> outcome (list candle) * W.
Variable sqrt : float -> float.

Local Open Scope Q_scope.

Lemma from_end_flat (p : Q) ohlcv (k : nat) :
  flat_at p ohlcv -> (1 <= k <= List.length ohlcv)%nat ->
  from_end (closes_of ohlcv) k = fin p.
Proof.
  intros Hflat Hk. unfold from_end.
  rewrite (flat_closes p ohlcv Hflat), repeat_length.
  apply nth_repeat_lt. lia.
Qed.

(** [(p - p) / p * 100] is a zero. *)
Lemma percent_change_flat (p : Q) :
  ~ p == 0 ->
  feqb (fmul (fdiv (fsub (fin p) (fin p)) (fin p)) (of_Z 100)) (of_Z 0) = true.
Proof.
  intros Hp.
  apply (repr_feqb _ _ ((p - p) / p * 100) (inject_Z 0)).
  - apply percent_change_repr; [apply repr_fin | apply repr_fin | exact Hp].
  - apply repr_of_Z.
  - change (inject_Z 0) with 0. field. exact Hp.
Qed.

(** C3 (as amended).  For every flat series of at least 168 buckets at a
    price that is not zero, the analysis returns a result whose
    volatility, [change_24h] and [change_7d] are zero. *)
Theorem flat_series_indicators :
  forall sym st ohlcv st' p,
    fetched fetch_ohlcv sym st ohlcv st' ->
    (168 <= List.length ohlcv)%nat ->
    ~ p == 0 ->
    flat_at p ohlcv ->
    sqrt_sound sqrt ->
    exists r,
      analyze_symbol W fetch_ohlcv sqrt sym st = (Return (Some r), st')
      /\ feqb (volatility r) (of_Z 0) = true
      /\ feqb (change_24h r) (of_Z 0) = true
      /\ feqb (change_7d r) (of_Z 0) = true.
Proof.
  intros sym st ohlcv st' p Hf Hn Hp Hflat [Hsqrt0 [s365 Hs365]].
  rewrite (analyze_symbol_fetched _ _ _ _ _ _ _ Hf). unfold analyze.
  replace (List.length ohlcv <? 50)%nat with false
    by (symmetry; apply Nat.ltb_ge; lia).
  rewrite (indicators_long sqrt sym ohlcv Hn).
  eexists. split; [reflexivity|].
  cbn [volatility change_24h change_7d].
  rewrite !(from_end_flat p ohlcv) by (assumption || lia).
  split; [|split; now apply percent_change_flat].
  destruct (List.length ohlcv) as [|n] eqn:En; [lia|].
  assert (Hc : closes_of ohlcv = repeat (fin p) (S n))
    by (rewrite <- En; now apply flat_closes).
  destruct (pct_change_flat p n Hp) as [Hpct Hz].
  destruct (std_of_zeros sqrt (Series.pct_change (closes_of ohlcv)))
    as (z & Hzero & ->).
  - rewrite Hc, Hpct. apply Forall_forall.
    intros x Hx. apply repeat_spec in Hx. now subst x.
  - rewrite Hc, Hpct, repeat_length. lia.
  - assert (Hr : exists q, repr (sqrt z) q /\ q == 0).
    { specialize (Hsqrt0 z Hzero).
      destruct (sqrt z) as [q| | |]; cbn in Hsqrt0; try discriminate.
      - exists q. split; [reflexivity | now apply Qeq_bool_iff].
      - exists 0. split; reflexivity. }
    destruct Hr as (q & Hq & Hq0).
    apply (repr_feqb _ _ (q * s365) (inject_Z 0)).
    + now apply repr_fmul.
    + apply repr_of_Z.
    + change (inject_Z 0) with 0. rewrite Hq0. ring.
Qed.

End FlatSeries.

(** *** The RSI of a flat series *)

Section FlatRsi.

Local Open Scope Q_scope.

Lemma ewm_from_zeros : forall s prev,
  repr prev 0 -> Forall (fun x => repr x 0) s ->
  Forall (fun x => repr x 0) (Series.ewm_from (fdiv (of_Z 1) (of_Z 14)) prev s).
Proof.
  induction s as [|x s IH]; intros prev Hprev Hs; cbn [Series.ewm_from];
    [constructor|].
  inversion Hs as [|? ? Hx Hs']; subst.
  assert (Hy : repr (fadd (fmul (fsub (of_Z 1) (fdiv (of_Z 1) (of_Z 14))) prev)
                          (fmul (fdiv (of_Z 1) (of_Z 14)) x)) 0).
  { apply repr_eq with ((13 # 14) * 0 + (1 # 14) * 0); [|ring].
    apply repr_fadd; apply repr_fmul; try assumption; vm_compute; reflexivity. }
  constructor; [exact Hy | now apply IH].
Qed.

Lemma ewm_mean_zeros s :
  Forall (fun x => repr x 0) s ->
  Forall (fun x => repr x 0) (Series.ewm_mean (fdiv (of_Z 1) (of_Z 14)) s).
Proof.
  intros Hs. destruct s as [|x s]; cbn [Series.ewm_mean]; [constructor|].
  inversion Hs; subst. constructor; [assumption | now apply ewm_from_zeros].
Qed.

(** The differences of a flat series: NaN, then zeros. *)
Lemma diff_flat (p : Q) (n : nat) :
  Forall (fun d => d = NaN \/ repr d 0) (Series.diff (repeat (fin p) n)).
Proof.
  destruct n as [|n]; cbn [repeat Series.diff]; constructor; [now left|].
  change (fin p :: repeat (fin p) n) with (repeat (fin p) (S n)).
  rewrite zip_with_repeat by lia.
  apply Forall_forall. intros d Hd. apply repeat_spec in Hd. subst d. right.
  apply repr_eq with (p - p); [|ring].
  apply repr_fsub; apply repr_fin.
Qed.

(** On a flat series of any price both smoothed averages are zero at
    every index, and the latest RSI is NaN. *)
Lemma rsi_of_flat_series (p : Q) ohlcv :
  flat_at p ohlcv -> (1 <= List.length ohlcv)%nat ->
  is_zero (from_end (avg_gain (closes_of ohlcv) 14) 1) = true
  /\ is_zero (from_end (avg_loss (closes_of ohlcv) 14) 1) = true
  /\ from_end (vectorized_rsi (closes_of ohlcv) 14) 1 = NaN.
Proof.
  intros Hflat Hn.
  assert (Hlen : (1 <= List.length (closes_of ohlcv))%nat)
    by (rewrite closes_of_length; lia).
  destruct (rsi_latest (closes_of ohlcv) (closes_of_finite ohlcv) Hlen) as (Hr & _ & _).
  assert (Hd := diff_flat p (List.length ohlcv)).
  rewrite <- (flat_closes p ohlcv Hflat) in Hd.
  assert (Hg : Forall (fun x => repr x 0) (avg_gain (closes_of ohlcv) 14)).
  { unfold avg_gain. apply ewm_mean_zeros. unfold Series.where_. apply Forall_map.
    eapply Forall_impl; [|exact Hd].
    intros d [-> | Hz]; [reflexivity|].
    destruct (fltb (of_Z 0) d) eqn:E; [|reflexivity].
    apply (repr_fltb _ _ _ _ (repr_of_Z 0) Hz) in E.
    change (inject_Z 0) with 0 in E. lra. }
  assert (Hl : Forall (fun x => repr x 0) (avg_loss (closes_of ohlcv) 14)).
  { unfold avg_loss. apply ewm_mean_zeros.
    unfold Series.neg, Series.where_. rewrite map_map. apply Forall_map.
    eapply Forall_impl; [|exact Hd].
    intros d [-> | Hz]; [reflexivity|].
    destruct (fltb d (of_Z 0)) eqn:E; [|reflexivity].
    apply (repr_fltb _ _ _ _ Hz (repr_of_Z 0)) in E.
    change (inject_Z 0) with 0 in E. lra. }
  assert (Hgz : is_zero (from_end (avg_gain (closes_of ohlcv) 14) 1) = true).
  { apply (repr_is_zero _ 0); [|reflexivity].
    apply (proj1 (Forall_forall _ _) Hg).
    apply nth_error_In with (n := (List.length (avg_gain (closes_of ohlcv) 14) - 1)%nat).
    apply iloc_from_end. rewrite avg_gain_length. lia. }
  assert (Hlz : is_zero (from_end (avg_loss (closes_of ohlcv) 14) 1) = true).
  { apply (repr_is_zero _ 0); [|reflexivity].
    apply (proj1 (Forall_forall _ _) Hl).
    apply nth_error_In with (n := (List.length (avg_loss (closes_of ohlcv) 14) - 1)%nat).
    apply iloc_from_end. rewrite avg_loss_length. lia. }
  split; [exact Hgz|]. split; [exact Hlz|].
  rewrite Hr. now apply rsi_of_zero_zero.
Qed.

End FlatRsi.

Lemma sample_sqrt_sound : sqrt_sound Samples.sqrt.
Proof.
  split.
  - intros [q| | |]; cbn [is_zero Samples.sqrt]; try discriminate; [|reflexivity].
    intros Hq. apply Qeq_bool_iff in Hq.
    assert (Hnum : Qnum q = 0%Z).
    { unfold Qeq in Hq. cbn in Hq. lia. }
    replace (Qltb q 0) with false
      by (symmetry; apply Qltb_ge; rewrite Hq; apply Qle_refl).
    cbn [is_zero]. now rewrite Hnum.
  - exists (value (Samples.sqrt (of_Z 365))). vm_compute. reflexivity.
Qed.

Lemma flat_series_indicators_witness :
  exists r,
    analyze_symbol nat Samples.fetch_ohlcv Samples.sqrt "FLAT/USDT" (0%nat, [])
    = (Return (Some r), (1%nat, [Call]))
    /\ feqb (volatility r) (of_Z 0) = true
    /\ feqb (change_24h r) (of_Z 0) = true
    /\ feqb (change_7d r) (of_Z 0) = true.
Proof.
  apply (flat_series_indicators nat Samples.fetch_ohlcv Samples.sqrt
           "FLAT/USDT" (0%nat, []) (Samples.flat 168 100) (1%nat, [Call]) 100%Q).
  - reflexivity.
  - apply Nat.leb_le. reflexivity.
  - discriminate.
  - apply Forall_forall. intros k Hk. apply repeat_spec in Hk. now subst k.
  - exact sample_sqrt_sound.
Defined.

(** C3, as the specification words it, fails: on a flat series of 168
    buckets the RSI is NaN and not 100; on a flat series of 50 buckets the
    analysis returns no result at all; and on a flat series at price zero
    the two changes are NaN. *)
Lemma flat_series_rsi_nan :
  (exists r,
     analyze Samples.sqrt "FLAT/USDT" (Samples.flat 168 100) = Some r
     /\ rsi r = NaN /\ feqb (rsi r) (of_Z 100) = false)
  /\ analyze Samples.sqrt "FLAT/USDT" (Samples.flat 50 100) = None
  /\ analyze_symbol nat Samples.fetch_ohlcv Samples.sqrt "FLAT/USDT" (0%nat, [])
     = (Return (analyze Samples.sqrt "FLAT/USDT" (Samples.flat 168 100)), (1%nat, [Call]))
  /\ (exists r,
        analyze Samples.sqrt "FLAT/USDT" (Samples.flat 168 0) = Some r
        /\ change_24h r = NaN /\ change_7d r = NaN).
Proof.
  split; [|split; [|split]].
  - eexists. split; [vm_compute; reflexivity|]. split; reflexivity.
  - vm_compute. reflexivity.
  - vm_compute. reflexivity.
  - eexists. split; [vm_compute; reflexivity|]. split; reflexivity.
Qed.

(** ** The selection of the universe *)

Section SelectionFacts.

Local Open Scope Q_scope.

Lemma filterM_spec {A} (cond : A -> outcome bool) : forall l l',
  filterM cond l = Return l' ->
  forall x, In x l' -> In x l /\ cond x = Return true.
Proof.
  induction l as [|a l IH]; intros l' Hrun x Hin; cbn [filterM] in Hrun.
  - inversion Hrun; subst. destruct Hin.
  - destruct (cond a) as [b|e] eqn:Ea; [|discriminate].
    cbn [obind] in Hrun.
    destruct (filterM cond l) as [rest|e] eqn:Er; [|discriminate].
    cbn [obind] in Hrun. inversion Hrun; subst l'.
    destruct b.
    + destruct Hin as [<- | Hin].
      * split; [now left | exact Ea].
      * destruct (IH rest eq_refl x Hin). split; [now right | assumption].
    + destruct (IH rest eq_refl x Hin). split; [now right | assumption].
Qed.

Lemma mapM_outcome_spec {A B} (f : A -> outcome B) : forall l l',
  mapM_outcome f l = Return l' -> Forall2 (fun x y => f x = Return y) l l'.
Proof.
  induction l as [|a l IH]; intros l' Hrun; cbn [mapM_outcome] in Hrun.
  - inversion Hrun. constructor.
  - destruct (f a) as [b|e] eqn:Ea; [|discriminate].
    cbn [obind] in Hrun.
    destruct (mapM_outcome f l) as [rest|e] eqn:Er; [|discriminate].
    cbn [obind] in Hrun. inversion Hrun; subst l'.
    constructor; [exact Ea | now apply IH].
Qed.

Lemma insert_desc_perm {A} (key : A -> Q) (x : A) : forall l,
  Permutation (insert_desc key x l) (x :: l).
Proof.
  induction l as [|y l IH]; cbn [insert_desc]; [reflexivity|].
  destruct (Qltb (key x) (key y)); [|reflexivity].
  rewrite IH. apply perm_swap.
Qed.

Lemma sorted_desc_perm {A} (key : A -> Q) : forall l,
  Permutation (sorted_desc key l) l.
Proof.
  induction l as [|x l IH]; [reflexivity|].
  cbn [sorted_desc fold_right]. fold (sorted_desc key l).
  rewrite insert_desc_perm. now constructor.
Qed.

Lemma insert_desc_sorted {A} (key : A -> Q) (x : A) : forall l,
  StronglySorted (fun a b => key b <= key a) l ->
  StronglySorted (fun a b => key b <= key a) (insert_desc key x l).
Proof.
  induction l as [|y l IH]; intros Hl; cbn [insert_desc].
  - repeat constructor.
  - inversion Hl as [|? ? Hl' Hy]; subst.
    destruct (Qltb (key x) (key y)) eqn:E.
    + apply Qltb_lt in E. constructor; [now apply IH|].
      apply Forall_forall. intros z Hz.
      apply (Permutation_in _ (insert_desc_perm key x l)) in Hz.
      destruct Hz as [<- | Hz]; [now apply Qlt_le_weak|].
      now apply (proj1 (Forall_forall _ _) Hy).
    + apply Qltb_ge in E. constructor; [exact Hl|].
      constructor; [exact E|].
      eapply Forall_impl; [|exact Hy].
      intros z Hz. cbv beta in Hz. lra.
Qed.

Lemma sorted_desc_sorted {A} (key : A -> Q) : forall l,
  StronglySorted (fun a b => key b <= key a) (sorted_desc key l).
Proof.
  induction l as [|x l IH]; [constructor|].
  cbn [sorted_desc fold_right]. fold (sorted_desc key l).
  now apply insert_desc_sorted.
Qed.

Lemma StronglySorted_map {A B} (R : B -> B -> Prop) (f : A -> B) : forall l,
  StronglySorted (fun a b => R (f a) (f b)) l -> StronglySorted R (map f l).
Proof.
  induction 1 as [|x l _ IH Hx]; cbn [map]; constructor; [exact IH|].
  now apply Forall_map.
Qed.

Lemma StronglySorted_firstn {A} (R : A -> A -> Prop) : forall n l,
  StronglySorted R l -> StronglySorted R (firstn n l).
Proof.
  induction n as [|n IH]; intros l Hl; [constructor|].
  destruct l as [|x l]; [constructor|].
  inversion Hl; subst. cbn [firstn].
  constructor; [now apply IH | now apply Forall_firstn_keep].
Qed.

Lemma In_firstn {A} (x : A) : forall n l, In x (firstn n l) -> In x l.
Proof.
  induction n as [|n IH]; intros l Hin; [destruct Hin|].
  destruct l as [|y l]; [destruct Hin|].
  destruct Hin as [<- | Hin]; [now left | right; now apply IH].
Qed.

(** The tickers sorted by volume are those given, each with a number for
    volume, in descending order of it. *)
Lemma sorted_by_volume_spec l l' :
  sorted_by_volume l = Return l' ->
  Permutation l' l /\ descending l'.
Proof.
  unfold sorted_by_volume. intros Hrun.
  destruct (mapM_outcome (fun t => (q <- volume_key t ;; Return (q, t))%outcome) l)
    as [keyed|e] eqn:Ek; [|discriminate].
  cbn [obind] in Hrun. inversion Hrun; subst l'. clear Hrun.
  apply mapM_outcome_spec in Ek.
  assert (Hkeyed : map snd keyed = l
                   /\ Forall (fun kt => fst kt = volume_of (snd kt)) keyed).
  { induction Ek as [|t kt l keyed Ht _ [IH1 IH2]]; [split; constructor|].
    unfold volume_key in Ht.
    destruct (quoteVolume t) as [| |q] eqn:Eq; try discriminate.
    cbn [obind] in Ht. inversion Ht; subst kt. cbn [map snd].
    split; [now rewrite IH1|].
    constructor; [|exact IH2]. cbn [fst snd]. unfold volume_of. now rewrite Eq. }
  destruct Hkeyed as [Hsnd Hkey].
  split.
  - rewrite <- Hsnd. apply Permutation_map, sorted_desc_perm.
  - unfold descending. apply StronglySorted_map.
    assert (Hs := sorted_desc_sorted (@fst Q ticker) keyed).
    assert (Hk : Forall (fun kt => fst kt = volume_of (snd kt)) (sorted_desc fst keyed)).
    { apply Forall_forall. intros kt Hin.
      apply (Permutation_in _ (sorted_desc_perm fst keyed)) in Hin.
      now apply (proj1 (Forall_forall _ _) Hkey). }
    revert Hk. induction Hs as [|kt ks _ IH Hhd]; intros Hk; [constructor|].
    inversion Hk as [|? ? Hkt Hks]; subst.
    constructor; [now apply IH|].
    apply Forall_forall. intros z Hz.
    assert (Hz1 := proj1 (Forall_forall _ _) Hhd z Hz).
    assert (Hz2 := proj1 (Forall_forall _ _) Hks z Hz).
    cbv beta in Hz1. now rewrite <- Hkt, <- Hz2.
Qed.

(** What [select_symbols] returns: at most [SYMBOL_LIMIT] eligible
    tickers, in descending order of volume. *)
Lemma select_symbols_spec markets tickers sel :
  select_symbols (Some markets) tickers = Return sel ->
  (List.length sel <= SYMBOL_LIMIT)%nat
  /\ Forall (eligible markets tickers) sel
  /\ descending sel.
Proof.
  unfold select_symbols. generalize SYMBOL_LIMIT. intros limit Hrun.
  destruct (filterM (is_active_usdt (Some markets)) (values tickers))
    as [usdt|e] eqn:E1; [|discriminate].
  cbn [obind] in Hrun.
  destruct (filterM above_min_volume usdt) as [above|e] eqn:E2; [|discriminate].
  cbn [obind] in Hrun.
  destruct (sorted_by_volume above) as [sorted|e] eqn:E3; [|discriminate].
  cbn [obind] in Hrun. injection Hrun as <-.
  destruct (sorted_by_volume_spec _ _ E3) as [Hperm Hdesc].
  split; [apply firstn_le_length|].
  split; [|now apply StronglySorted_firstn].
  apply Forall_forall. intros t Hin.
  apply In_firstn in Hin. apply (Permutation_in _ Hperm) in Hin.
  destruct (filterM_spec _ _ _ E2 t Hin) as [Hin1 Hvol].
  destruct (filterM_spec _ _ _ E1 t Hin1) as [Hin0 Hact].
  unfold eligible. split; [exact Hin0|].
  unfold is_active_usdt in Hact.
  destruct (Str.endswith (symbol t) "/USDT"); [|discriminate].
  split; [reflexivity|]. split.
  - unfold subscript, getitem in Hact.
    destruct (lookup markets (symbol t)) as [m|]; [|discriminate].
    cbn [obind] in Hact. exists m. split; [reflexivity | now inversion Hact].
  - unfold above_min_volume in Hvol.
    destruct (quoteVolume t) as [| |q]; try discriminate.
    exists q. split; [reflexivity|]. apply Qltb_lt. now inversion Hvol.
Qed.

End SelectionFacts.

(** ** [get_active_symbols] *)

Section UniverseFacts.

Variable W : Type.
Variable load_markets : W -> outcome (dict market) * W.
Variable fetch_tickers : W -> outcome (dict ticker) * W.

(** With both responses in hand the function returns the symbols of the
    selection, or nothing when the selection raises. *)
Lemma get_active_symbols_fetched st markets st1 tickers st2 :
  fetch_with_retry load_markets 3 1 st = (Return (Some markets), st1) ->
  fetch_with_retry fetch_tickers 3 1 st1 = (Return (Some tickers), st2) ->
  get_active_symbols W load_markets fetch_tickers st
  = (Return (match select_symbols (Some markets) tickers with
             | Return sel => map symbol sel
             | Raise _ => []
             end), st2).
Proof.
  intros Hm Ht.
  unfold get_active_symbols, try_except, get_active_symbols_body, bind.
  rewrite Hm, Ht. cbn [not_none ret]. unfold lift.
  now destruct (select_symbols (Some markets) tickers).
Qed.

(** C5.  For every pair of provider responses, a market directory and a
    ticker set, [get_active_symbols] returns the symbols of at most
    [SYMBOL_LIMIT] tickers of the set, each quoted in USDT, active in the
    directory and of 24h quote volume strictly above [MIN_VOLUME], in
    descending order of that volume. *)
Theorem universe_selection :
  forall st markets st1 tickers st2,
    fetch_with_retry load_markets 3 1 st = (Return (Some markets), st1) ->
    fetch_with_retry fetch_tickers 3 1 st1 = (Return (Some tickers), st2) ->
    exists sel,
      get_active_symbols W load_markets fetch_tickers st = (Return (map symbol sel), st2)
      /\ (List.length (map symbol sel) <= SYMBOL_LIMIT)%nat
      /\ Forall (eligible markets tickers) sel
      /\ descending sel.
Proof.
  intros st markets st1 tickers st2 Hm Ht.
  rewrite (get_active_symbols_fetched st markets st1 tickers st2 Hm Ht).
  destruct (select_symbols (Some markets) tickers) as [sel|e] eqn:Es.
  - destruct (select_symbols_spec markets tickers sel Es) as (Hlen & Hel & Hd).
    exists sel. rewrite length_map. auto.
  - exists []. repeat split; try constructor. cbn. lia.
Qed.

(** The function never raises. *)
Lemma get_active_symbols_returns st :
  exists l st', get_active_symbols W load_markets fetch_tickers st = (Return l, st').
Proof.
  unfold get_active_symbols, try_except.
  destruct (get_active_symbols_body W load_markets fetch_tickers st) as [[l|e] st'].
  - now exists l, st'.
  - now exists [], st'.
Qed.

(** C6.  [get_active_symbols] always returns, and returns the empty list
    whenever its body raises: when loading the markets fails, when
    fetching the tickers fails, when the selection (filters or sort)
    raises. *)
Theorem universe_fail_soft :
  forall st,
    (exists l st', get_active_symbols W load_markets fetch_tickers st = (Return l, st'))
    /\ (forall e st',
          get_active_symbols_body W load_markets fetch_tickers st = (Raise e, st') ->
          get_active_symbols W load_markets fetch_tickers st = (Return [], st'))
    /\ (forall e st1,
          fetch_with_retry load_markets 3 1 st = (Raise e, st1) ->
          get_active_symbols W load_markets fetch_tickers st = (Return [], st1))
    /\ (forall markets st1 e st2,
          fetch_with_retry load_markets 3 1 st = (Return markets, st1) ->
          fetch_with_retry fetch_tickers 3 1 st1 = (Raise e, st2) ->
          get_active_symbols W load_markets fetch_tickers st = (Return [], st2))
    /\ (forall markets st1 tickers st2 e,
          fetch_with_retry load_markets 3 1 st = (Return markets, st1) ->
          fetch_with_retry fetch_tickers 3 1 st1 = (Return (Some tickers), st2) ->
          select_symbols markets tickers = Raise e ->
          get_active_symbols W load_markets fetch_tickers st = (Return [], st2)).
Proof.
  intros st.
  assert (Hbody : forall e st',
             get_active_symbols_body W load_markets fetch_tickers st = (Raise e, st') ->
             get_active_symbols W load_markets fetch_tickers st = (Return [], st')).
  { intros e st' Hb. unfold get_active_symbols, try_except. now rewrite Hb. }
  split; [|split; [exact Hbody|split; [|split]]].
  - apply get_active_symbols_returns.
  - intros e st1 Hm. apply (Hbody e).
    unfold get_active_symbols_body, bind. now rewrite Hm.
  - intros markets st1 e st2 Hm Ht. apply (Hbody e).
    unfold get_active_symbols_body, bind. now rewrite Hm, Ht.
  - intros markets st1 tickers st2 e Hm Ht Hs. apply (Hbody e).
    unfold get_active_symbols_body, bind. rewrite Hm, Ht.
    cbn [not_none ret]. unfold lift. now rewrite Hs.
Qed.

End UniverseFacts.

Lemma universe_selection_witness :
  exists sel,
    get_active_symbols nat (Samples.answer Samples.markets) (Samples.answer Samples.tickers)
      (0%nat, [])
    = (Return (map symbol sel), (2%nat, [Call; Call]))
    /\ (List.length (map symbol sel) <= SYMBOL_LIMIT)%nat
    /\ Forall (eligible Samples.markets Samples.tickers) sel
    /\ descending sel.
Proof.
  apply (universe_selection nat (Samples.answer Samples.markets)
           (Samples.answer Samples.tickers)
           (0%nat, []) Samples.markets (1%nat, [Call]) Samples.tickers (2%nat, [Call; Call]));
    reflexivity.
Defined.

(** The sample universe: the three active USDT symbols above the volume
    floor, the larger volume first, equal volumes in the order of the
    ticker set. *)
Example universe_sample :
  get_active_symbols nat (Samples.answer Samples.markets) (Samples.answer Samples.tickers)
    (0%nat, [])
  = (Return ["BTC/USDT"; "ETH/USDT"; "SOL/USDT"]%string, (2%nat, [Call; Call])).
Proof. vm_compute. reflexivity. Qed.

(** Three refreshes that fail: the provider is down (three attempts, two
    sleeps); a USDT ticker is missing from the directory ([KeyError]); a
    USDT ticker has no volume ([TypeError]). *)
Example universe_failures :
  get_active_symbols nat Samples.down (Samples.answer Samples.tickers) (0%nat, [])
  = (Return [], (3%nat, [Call; Sleep 1; Call; Sleep 2; Call]))
  /\ select_symbols (Some Samples.markets) Samples.tickers_unlisted
     = Raise (Exn KeyError "GONE/USDT")
  /\ get_active_symbols nat (Samples.answer Samples.markets)
       (Samples.answer Samples.tickers_unlisted) (0%nat, [])
     = (Return [], (2%nat, [Call; Call]))
  /\ exn_cls (match select_symbols (Some Samples.markets) Samples.tickers_no_volume with
              | Raise e => e
              | Return _ => Exn ValueError ""
              end) = TypeError
  /\ get_active_symbols nat (Samples.answer Samples.markets)
       (Samples.answer Samples.tickers_no_volume) (0%nat, [])
     = (Return [], (2%nat, [Call; Call])).
Proof. repeat split; vm_compute; reflexivity. Qed.

(** ** The refresh cycle *)

Section CycleFacts.

Variable W : Type.
Variable load_markets : W -> outcome (dict market) * W.
Variable fetch_tickers : W -> outcome (dict ticker) * W.
Variable fetch_ohlcv : string -> string -> Z -> W -> outcome (list candle) * W.
Variable sqrt : float -> float.

(** A first attempt that succeeds is the only one. *)
Lemma fetch_with_retry_first {A} (method : W -> outcome A * W) st a w' :
  method (fst st) = (Return a, w') ->
  fetch_with_retry method 3 1 st = (Return (Some a), (w', snd st ++ [Call])).
Proof.
  intros Hm. unfold fetch_with_retry.
  change (Z.to_nat 3) with 3%nat. cbn [retry_loop].
  unfold call. now rewrite Hm.
Qed.

Lemma fetch_with_retry_fatal {A} (method : W -> outcome A * W) st e w' :
  method (fst st) = (Raise e, w') -> transient e = false ->
  fetch_with_retry method 3 1 st = (Raise e, (w', snd st ++ [Call])).
Proof.
  intros Hm Ht. unfold fetch_with_retry.
  change (Z.to_nat 3) with 3%nat. now apply retry_loop_fatal.
Qed.

Lemma executor_map_returns : forall symbols st,
  exists results st',
    executor_map (analyze_symbol W fetch_ohlcv sqrt) symbols st = (Return results, st')
    /\ List.length results = List.length symbols.
Proof.
  induction symbols as [|sym rest IH]; intros st.
  - exists [], st. split; reflexivity.
  - destruct (analyze_symbol_returns W fetch_ohlcv sqrt sym st) as (o & st1 & Ho).
    destruct (IH st1) as (results & st2 & Hr & Hlen).
    exists (o :: results), st2. cbn [executor_map]. unfold bind at 1.
    rewrite Ho. unfold bind at 1. rewrite Hr. cbn [ret List.length].
    split; [reflexivity | now rewrite Hlen].
Qed.

Lemma valid_data_In results r : In r (valid_data results) <-> In (Some r) results.
Proof.
  induction results as [|[x|] results IH]; cbn [valid_data In].
  - tauto.
  - rewrite IH. split; intros [H|H]; auto; left; congruence.
  - rewrite IH. split; [tauto|]. intros [H|H]; [discriminate | assumption].
Qed.

Lemma snapshot_step sym rest st o st1 :
  analyze_symbol W fetch_ohlcv sqrt sym st = (Return o, st1) ->
  exists snap st2,
    snapshot W fetch_ohlcv sqrt rest st1 = (Return snap, st2)
    /\ snapshot W fetch_ohlcv sqrt (sym :: rest) st
       = (Return (match o with Some r => r :: snap | None => snap end), st2).
Proof.
  intros Ho.
  destruct (executor_map_returns rest st1) as (results & st2 & Hr & _).
  exists (valid_data results), st2. unfold snapshot.
  cbn [executor_map]. unfold bind. rewrite Ho, Hr. cbn [ret valid_data].
  split; [reflexivity | now destruct o].
Qed.

(** C4.  The snapshot of a cycle is the list of the results of the units
    that returned one, in the order of the symbols, and the cycle never
    raises.  A symbol whose unit returns [None] adds nothing and leaves the
    snapshot of the others as it is, and a unit returns [None] when its
    fetch raises, when it returns fewer than 50 buckets, and when an
    indicator raises.  For the universe [A, B, C] where the fetch of [A]
    returns 168 buckets, that of [B] returns 10 and that of [C] raises an
    error that is not transient, the snapshot is the one result of [A]. *)
Theorem snapshot_without_failures :
  (forall symbols st,
     exists results st',
       executor_map (analyze_symbol W fetch_ohlcv sqrt) symbols st = (Return results, st')
       /\ List.length results = List.length symbols
       /\ snapshot W fetch_ohlcv sqrt symbols st = (Return (valid_data results), st')
       /\ forall r, In r (valid_data results) <-> In (Some r) results)
  /\ (forall st, exists snap st',
        update_dashboard W load_markets fetch_tickers fetch_ohlcv sqrt st
        = (Return snap, st'))
  /\ (forall sym rest st st1,
        analyze_symbol W fetch_ohlcv sqrt sym st = (Return None, st1) ->
        snapshot W fetch_ohlcv sqrt (sym :: rest) st
        = snapshot W fetch_ohlcv sqrt rest st1)
  /\ (forall sym rest st r st1,
        analyze_symbol W fetch_ohlcv sqrt sym st = (Return (Some r), st1) ->
        exists snap st2,
          snapshot W fetch_ohlcv sqrt rest st1 = (Return snap, st2)
          /\ snapshot W fetch_ohlcv sqrt (sym :: rest) st = (Return (r :: snap), st2))
  /\ (forall sym st e st1,
        fetch_with_retry (fetch_ohlcv sym TIMEFRAME 168) 3 1 st = (Raise e, st1) ->
        analyze_symbol W fetch_ohlcv sqrt sym st = (Return None, st1))
  /\ (forall sym st ohlcv st1,
        fetched fetch_ohlcv sym st ohlcv st1 ->
        (List.length ohlcv < 50)%nat ->
        analyze_symbol W fetch_ohlcv sqrt sym st = (Return None, st1))
  /\ (forall sym st ohlcv st1 e,
        fetched fetch_ohlcv sym st ohlcv st1 ->
        indicators sqrt sym ohlcv = Raise e ->
        analyze_symbol W fetch_ohlcv sqrt sym st = (Return None, st1))
  /\ (forall A B C ohlcvA ohlcvB,
        List.length ohlcvA = 168%nat ->
        List.length ohlcvB = 10%nat ->
        (forall w, exists w', fetch_ohlcv A TIMEFRAME 168 w = (Return ohlcvA, w')) ->
        (forall w, exists w', fetch_ohlcv B TIMEFRAME 168 w = (Return ohlcvB, w')) ->
        (forall w, exists e w',
            fetch_ohlcv C TIMEFRAME 168 w = (Raise e, w') /\ transient e = false) ->
        forall st, exists rA st',
          snapshot W fetch_ohlcv sqrt [A; B; C] st = (Return [rA], st')
          /\ indicators sqrt A ohlcvA = Return rA).
Proof.
  split; [|split; [|split; [|split; [|split; [|split; [|split]]]]]].
  - intros symbols st.
    destruct (executor_map_returns symbols st) as (results & st' & Hr & Hlen).
    exists results, st'. split; [exact Hr|]. split; [exact Hlen|].
    split; [|apply valid_data_In].
    unfold snapshot, bind. now rewrite Hr.
  - intros st. unfold update_dashboard, bind.
    destruct (get_active_symbols_returns W load_markets fetch_tickers st) as (l & st1 & ->).
    destruct (executor_map_returns l st1) as (results & st2 & Hr & _).
    exists (valid_data results), st2. unfold snapshot, bind. now rewrite Hr.
  - intros sym rest st st1 Ho.
    destruct (snapshot_step sym rest st None st1 Ho) as (snap & st2 & H1 & H2).
    now rewrite H1, H2.
  - intros sym rest st r st1 Ho.
    exact (snapshot_step sym rest st (Some r) st1 Ho).
  - intros sym st e st1. apply analyze_symbol_fetch_raises.
  - intros sym st ohlcv st1 Hf Hn.
    rewrite (analyze_symbol_fetched W fetch_ohlcv sqrt sym st ohlcv st1 Hf).
    unfold analyze.
    now replace (List.length ohlcv <? 50)%nat with true
      by (symmetry; apply Nat.ltb_lt; exact Hn).
  - intros sym st ohlcv st1 e Hf He.
    rewrite (analyze_symbol_fetched W fetch_ohlcv sqrt sym st ohlcv st1 Hf).
    unfold analyze. rewrite He. now destruct (List.length ohlcv <? 50)%nat.
  - intros A B C ohlcvA ohlcvB HlenA HlenB HA HB HC st.
    destruct (HA (fst st)) as (wA & HfA).
    destruct (HB wA) as (wB & HfB).
    destruct (HC wB) as (e & wC & HfC & He).
    set (stA := (wA, snd st ++ [Call])).
    set (stB := (wB, snd stA ++ [Call])).
    set (stC := (wC, snd stB ++ [Call])).
    assert (HrunA : analyze_symbol W fetch_ohlcv sqrt A st
                    = (Return (analyze sqrt A ohlcvA), stA))
      by (apply analyze_symbol_fetched, fetch_with_retry_first, HfA).
    assert (HrunB : analyze_symbol W fetch_ohlcv sqrt B stA
                    = (Return (analyze sqrt B ohlcvB), stB))
      by (apply analyze_symbol_fetched, fetch_with_retry_first, HfB).
    assert (HrunC : analyze_symbol W fetch_ohlcv sqrt C stB = (Return None, stC))
      by (apply analyze_symbol_fetch_raises with e;
          now apply fetch_with_retry_fatal).
    unfold analyze in HrunA, HrunB. rewrite HlenA in HrunA. rewrite HlenB in HrunB.
    change (168 <? 50)%nat with false in HrunA.
    change (10 <? 50)%nat with true in HrunB.
    assert (HindA := indicators_long sqrt A ohlcvA).
    rewrite HlenA in HindA. specialize (HindA (le_n 168)).
    rewrite HindA in HrunA |- *.
    eexists. exists stC. split; [|reflexivity].
    unfold snapshot. cbn [executor_map]. unfold bind.
    rewrite HrunA, HrunB, HrunC. reflexivity.
Qed.

End CycleFacts.

Lemma snapshot_without_failures_witness :
  exists rA st',
    snapshot nat Samples.fetch_ohlcv Samples.sqrt
      ["A/USDT"; "B/USDT"; "C/USDT"]%string (0%nat, [])
    = (Return [rA], st')
    /\ indicators Samples.sqrt "A/USDT" (Samples.rising 168) = Return rA.
Proof.
  destruct (snapshot_without_failures nat
              (Samples.answer Samples.markets) (Samples.answer Samples.tickers)
              Samples.fetch_ohlcv Samples.sqrt)
    as (_ & _ & _ & _ & _ & _ & _ & Hscenario).
  apply (Hscenario "A/USDT" "B/USDT" "C/USDT"
           (Samples.rising 168) (Samples.rising 10))%string.
  - reflexivity.
  - reflexivity.
  - intros w. exists (S w). reflexivity.
  - intros w. exists (S w). reflexivity.
  - intros w. exists (Exn ValueError "malformed response"), (S w). split; reflexivity.
Defined.

(** The scenario on the sample provider, evaluated: one entry, for [A]. *)
Example snapshot_sample :
  exists rA,
    snapshot nat Samples.fetch_ohlcv Samples.sqrt
      ["A/USDT"; "B/USDT"; "C/USDT"]%string (0%nat, [])
    = (Return [rA], (3%nat, [Call; Call; Call]))
    /\ r_symbol rA = "A"%string
    /\ price rA = Fin 168.
Proof. eexists. split; [vm_compute; reflexivity|]. split; reflexivity. Qed.

(** A series of 100 buckets is accepted and still yields no result: its
    seven-day offset is out of range. *)
Example short_history_sample :
  List.length (Samples.zigzag 100) = 100%nat
  /\ (exists e, indicators Samples.sqrt "D/USDT" (Samples.zigzag 100) = Raise e
                /\ exn_cls e = IndexError)
  /\ analyze_symbol nat Samples.fetch_ohlcv Samples.sqrt "D/USDT" (0%nat, [])
     = (Return None, (1%nat, [Call])).
Proof.
  split; [reflexivity|]. split; [|vm_compute; reflexivity].
  eexists. split; [vm_compute; reflexivity | reflexivity].
Qed.

(** * Further properties *)

(** ** The retry wrapper: recovery, bounds *)

Section RetryBounds.

Context {W A : Type}.
Variable method : W -> outcome A * W.
Variables max_retries delay : Z.

Lemma exhausted_trace_step (i : Z) (n : nat) :
  exhausted_trace delay i (S (S n))
  = Call :: Sleep (delay * (i + 1)) :: exhausted_trace delay (i + 1) (S n).
Proof. reflexivity. Qed.

Lemma retry_loop_recovers :
  0 <= delay ->
  forall k remaining i st a w',
    recovers method k (fst st) a w' ->
    (k < remaining)%nat -> 0 <= i ->
    max_retries = i + Z.of_nat remaining ->
    retry_loop method max_retries delay i remaining st
    = (Return (Some a), (w', snd st ++ exhausted_trace delay i (S k))).
Proof.
  intros Hd.
  induction k as [|k IH]; intros remaining i st a w' Hrec Hk Hi Hmax.
  - destruct remaining as [|n]; [lia|].
    cbn [recovers] in Hrec. cbn [retry_loop]. unfold call. now rewrite Hrec.
  - destruct remaining as [|n]; [lia|].
    cbn [recovers] in Hrec. destruct Hrec as (e & w1 & Hcall & Htr & Hrec).
    cbn [retry_loop]. unfold call. rewrite Hcall, Htr.
    replace (i <? max_retries - 1) with true by (symmetry; apply Z.ltb_lt; lia).
    unfold bind at 1, sleep at 1.
    replace (delay * (i + 1) <? 0) with false by (symmetry; apply Z.ltb_ge; nia).
    cbn [fst snd].
    rewrite (IH n (i + 1) (w1, (snd st ++ [Call]) ++ [Sleep (delay * (i + 1))]) a w');
      [| exact Hrec | lia | lia | lia].
    cbn [snd]. rewrite exhausted_trace_step. now rewrite <- !app_assoc.
Qed.

(** Whatever the operation does, the events of a run are those of [k]
    attempts in a row, for some [k] within the iterations left. *)
Lemma retry_loop_trace :
  0 <= delay ->
  forall remaining i st,
    0 <= i ->
    max_retries = i + Z.of_nat remaining ->
    exists k,
      (k <= remaining)%nat
      /\ (1 <= remaining -> 1 <= k)%nat
      /\ snd (snd (retry_loop method max_retries delay i remaining st))
         = snd st ++ exhausted_trace delay i k.
Proof.
  intros Hd.
  induction remaining as [|n IH]; intros i st Hi Hmax.
  - exists 0%nat. cbn. rewrite app_nil_r. repeat split; lia.
  - cbn [retry_loop]. unfold call.
    destruct (method (fst st)) as [[a|e] w1].
    + exists 1%nat. cbn. repeat split; lia.
    + destruct (transient e); [|exists 1%nat; cbn; repeat split; lia].
      destruct (Z.ltb_spec i (max_retries - 1)) as [Hlt|Hge];
        [|exists 1%nat; cbn; repeat split; lia].
      unfold bind at 1, sleep at 1.
      replace (delay * (i + 1) <? 0) with false by (symmetry; apply Z.ltb_ge; nia).
      cbn [fst snd].
      destruct (IH (i + 1) (w1, (snd st ++ [Call]) ++ [Sleep (delay * (i + 1))]))
        as (k & Hk & Hk1 & Htr); [lia | lia |].
      destruct k as [|k]; [lia|].
      exists (S (S k)). rewrite Htr. cbn [snd].
      rewrite exhausted_trace_step.
      repeat split; try lia. now rewrite <- !app_assoc.
Qed.

End RetryBounds.

Lemma exhausted_trace_total_sleep (delay : Z) : forall n i,
  2 * Zsum (sleeps (exhausted_trace delay i n))
  = delay * Z.of_nat (n - 1) * (2 * i + Z.of_nat n).
Proof.
  induction n as [|n IH]; intros i; [cbn; lia|].
  destruct n as [|n]; [cbn; lia|].
  change (exhausted_trace delay i (S (S n)))
    with (Call :: Sleep (delay * (i + 1)) :: exhausted_trace delay (i + 1) (S n)).
  cbn [sleeps Zsum fold_right]. fold (Zsum (sleeps (exhausted_trace delay (i + 1) (S n)))).
  rewrite Z.mul_add_distr_l, IH.
  replace (S (S n) - 1)%nat with (S n) by lia.
  replace (S n - 1)%nat with n by lia.
  rewrite !Nat2Z.inj_succ. unfold Z.succ. ring.
Qed.

(** X1.  An operation that fails with a transient error [k] times and then
    returns, with [k] below [max_retries]: the wrapper returns its value
    after [k + 1] calls, having slept [delay * j] after the failed attempt
    number [j], for [j] from 1 to [k]. *)
Theorem fetch_with_retry_recovers :
  forall (W A : Type) (method : W -> outcome A * W) (max_retries delay : Z)
         (k : nat) (st : state W) (a : A) (w' : W),
    0 <= delay ->
    Z.of_nat k < max_retries ->
    recovers method k (fst st) a w' ->
    fetch_with_retry method max_retries delay st
    = (Return (Some a), (w', snd st ++ exhausted_trace delay 0 (S k)))
    /\ calls (exhausted_trace delay 0 (S k)) = S k
    /\ sleeps (exhausted_trace delay 0 (S k))
       = map (fun j => delay * Z.of_nat j) (seq 1 k).
Proof.
  intros W A method max_retries delay k st a w' Hd Hk Hrec.
  split; [|split].
  - unfold fetch_with_retry.
    apply retry_loop_recovers; try assumption; lia.
  - apply exhausted_trace_calls.
  - rewrite exhausted_trace_sleeps.
    replace (S k - 1)%nat with k by lia. reflexivity.
Qed.

Lemma fetch_with_retry_recovers_witness :
  fetch_with_retry Cases.flaky 3 1 (0%nat, [])
  = (Return (Some 7), (3%nat, [] ++ exhausted_trace 1 0 3))
  /\ calls (exhausted_trace 1 0 3) = 3%nat
  /\ sleeps (exhausted_trace 1 0 3) = map (fun j => 1 * Z.of_nat j) (seq 1 2).
Proof.
  apply (fetch_with_retry_recovers nat Z Cases.flaky 3 1 2 (0%nat, []) 7 3%nat).
  - lia.
  - reflexivity.
  - cbn. eexists _, _. split; [reflexivity|]. split; [reflexivity|].
    eexists _, _. split; [reflexivity|]. split; reflexivity.
Defined.

(** X2.  The wrapper returns [None] exactly when no attempt is allowed
    ([max_retries <= 0]), and then without calling the operation or
    sleeping; with an attempt allowed it returns a value of the operation
    or raises. *)
Theorem fetch_with_retry_none :
  forall (W A : Type) (method : W -> outcome A * W) (max_retries delay : Z)
         (st : state W),
    (max_retries <= 0 ->
     fetch_with_retry method max_retries delay st = (Return None, st))
    /\ (forall st',
          fetch_with_retry method max_retries delay st = (Return None, st') ->
          max_retries <= 0).
Proof.
  intros W A method max_retries delay st. split.
  - intros Hle. unfold fetch_with_retry.
    replace (Z.to_nat max_retries) with 0%nat by lia. reflexivity.
  - intros st' Hrun.
    destruct (Z.le_gt_cases max_retries 0) as [Hle|Hgt]; [exact Hle|].
    exfalso. revert Hrun. unfold fetch_with_retry.
    apply retry_loop_not_none; lia.
Qed.

(** X3.  Whatever the operation does, one run of the wrapper with a delay
    that is not negative makes [k] calls for some [k <= max_retries],
    alternating with [k - 1] sleeps of [delay * 1, ..., delay * (k - 1)]:
    the total sleep is [delay * k * (k - 1) / 2]. *)
Theorem fetch_with_retry_budget :
  forall (W A : Type) (method : W -> outcome A * W) (max_retries delay : Z)
         (st : state W),
    0 <= delay ->
    exists k,
      (k <= Z.to_nat max_retries)%nat
      /\ snd (snd (fetch_with_retry method max_retries delay st))
         = snd st ++ exhausted_trace delay 0 k
      /\ calls (exhausted_trace delay 0 k) = k
      /\ sleeps (exhausted_trace delay 0 k)
         = map (fun j => delay * Z.of_nat j) (seq 1 (k - 1))
      /\ 2 * Zsum (sleeps (exhausted_trace delay 0 k))
         = delay * Z.of_nat (k - 1) * Z.of_nat k.
Proof.
  intros W A method max_retries delay st Hd.
  destruct (Z.le_gt_cases max_retries 0) as [Hle|Hgt].
  - exists 0%nat. unfold fetch_with_retry.
    replace (Z.to_nat max_retries) with 0%nat by lia.
    cbn. rewrite app_nil_r. repeat split; lia.
  - destruct (retry_loop_trace method max_retries delay Hd
                (Z.to_nat max_retries) 0 st) as (k & Hk & _ & Htr); [lia | lia |].
    exists k. split; [exact Hk|]. split; [exact Htr|].
    split; [apply exhausted_trace_calls|].
    split; [apply exhausted_trace_sleeps|].
    rewrite exhausted_trace_total_sleep. ring.
Qed.

Lemma fetch_with_retry_budget_witness :
  exists k,
    (k <= Z.to_nat 3)%nat
    /\ snd (snd (fetch_with_retry Samples.unreachable 3 1 (0%nat, [])))
       = [] ++ exhausted_trace 1 0 k
    /\ calls (exhausted_trace 1 0 k) = k
    /\ sleeps (exhausted_trace 1 0 k)
       = map (fun j => 1 * Z.of_nat j) (seq 1 (k - 1))
    /\ 2 * Zsum (sleeps (exhausted_trace 1 0 k)) = 1 * Z.of_nat (k - 1) * Z.of_nat k.
Proof.
  apply (fetch_with_retry_budget nat (list candle) Samples.unreachable 3 1 (0%nat, [])).
  lia.
Defined.

(** ** The universe: what is kept, what empties it *)

Section SelectionMore.

Local Open Scope Q_scope.

Lemma filterM_complete {A} (cond : A -> outcome bool) : forall l l',
  filterM cond l = Return l' ->
  forall x, In x l -> cond x = Return true -> In x l'.
Proof.
  induction l as [|a l IH]; intros l' Hrun x Hin Hx; [destruct Hin|].
  cbn [filterM] in Hrun.
  destruct (cond a) as [b|e] eqn:Ea; [|discriminate].
  cbn [obind] in Hrun.
  destruct (filterM cond l) as [rest|e] eqn:Er; [|discriminate].
  cbn [obind] in Hrun. injection Hrun as <-.
  destruct Hin as [-> | Hin].
  - rewrite Hx in Ea. injection Ea as <-. now left.
  - specialize (IH rest eq_refl x Hin Hx). destruct b; [now right | exact IH].
Qed.

Lemma filterM_raises {A} (cond : A -> outcome bool) : forall l x e,
  In x l -> cond x = Raise e -> exists e', filterM cond l = Raise e'.
Proof.
  induction l as [|a l IH]; intros x e Hin Hx; [destruct Hin|].
  cbn [filterM].
  destruct (cond a) as [b|e0] eqn:Ea; [|now exists e0].
  cbn [obind].
  destruct Hin as [-> | Hin]; [rewrite Hx in Ea; discriminate|].
  destruct (IH x e Hin Hx) as [e' ->]. now exists e'.
Qed.

Lemma filterM_returns {A} (cond : A -> outcome bool) : forall l,
  Forall (fun x => exists b, cond x = Return b) l ->
  exists l', filterM cond l = Return l'.
Proof.
  induction 1 as [|a l [b Hb] _ [rest IH]]; [now exists []|].
  cbn [filterM]. rewrite Hb, IH. cbn [obind]. eexists. reflexivity.
Qed.

Lemma mapM_outcome_returns {A B} (f : A -> outcome B) : forall l,
  Forall (fun x => exists y, f x = Return y) l ->
  exists l', mapM_outcome f l = Return l'.
Proof.
  induction 1 as [|a l [b Hb] _ [rest IH]]; [now exists []|].
  cbn [mapM_outcome]. rewrite Hb, IH. cbn [obind]. eexists. reflexivity.
Qed.

(** In a sorted list every element of a prefix is related to every
    element of what follows it. *)
Lemma StronglySorted_cut {A} (R : A -> A -> Prop) : forall n l,
  StronglySorted R l ->
  forall x y, In x (firstn n l) -> In y (skipn n l) -> R x y.
Proof.
  induction n as [|n IH]; intros l Hl x y Hx Hy; [destruct Hx|].
  destruct l as [|a l]; [destruct Hx|].
  inversion Hl as [|? ? Hl' Ha]; subst.
  cbn [firstn skipn] in Hx, Hy.
  destruct Hx as [<- | Hx].
  - apply (proj1 (Forall_forall _ _) Ha).
    rewrite <- (firstn_skipn n l). apply in_or_app. now right.
  - now apply (IH l Hl').
Qed.

(** With a readable ticker set the selection returns. *)
Lemma select_symbols_returns markets tickers :
  Forall (fun t => ~ unreadable markets t) (values tickers) ->
  exists sel, select_symbols (Some markets) tickers = Return sel.
Proof.
  intros Hok. unfold select_symbols. generalize SYMBOL_LIMIT. intros limit.
  destruct (filterM_returns (is_active_usdt (Some markets)) (values tickers))
    as [usdt E1].
  { eapply Forall_impl; [|exact Hok]. intros t Ht. unfold is_active_usdt.
    destruct (Str.endswith (symbol t) "/USDT") eqn:Es; [|now exists false].
    unfold subscript, getitem.
    destruct (lookup markets (symbol t)) as [m|] eqn:El.
    - cbn [obind]. eexists. reflexivity.
    - exfalso. apply Ht. split; [exact Es | now left]. }
  rewrite E1. cbn [obind].
  destruct (filterM_returns above_min_volume usdt) as [above E2].
  { apply Forall_forall. intros t Hin.
    destruct (filterM_spec _ _ _ E1 t Hin) as [Hin0 Hact].
    unfold above_min_volume.
    destruct (quoteVolume t) as [| |q] eqn:Eq; try (eexists; reflexivity).
    exfalso. apply (proj1 (Forall_forall _ _) Hok t Hin0).
    unfold is_active_usdt in Hact.
    destruct (Str.endswith (symbol t) "/USDT") eqn:Es; [|discriminate].
    split; [exact Es|]. right.
    unfold subscript, getitem in Hact.
    destruct (lookup markets (symbol t)) as [m|]; [|discriminate].
    cbn [obind] in Hact. exists m. repeat split; congruence. }
  rewrite E2. cbn [obind].
  unfold sorted_by_volume.
  destruct (mapM_outcome_returns
              (fun t => (q <- volume_key t ;; Return (q, t))%outcome) above)
    as [keyed E3].
  { apply Forall_forall. intros t Hin.
    destruct (filterM_spec _ _ _ E2 t Hin) as [_ Hvol].
    unfold above_min_volume in Hvol. unfold volume_key.
    destruct (quoteVolume t) as [| |q]; try discriminate.
    cbn [obind]. eexists. reflexivity. }
  rewrite E3. cbn [obind]. eexists. reflexivity.
Qed.

(** An eligible ticker is selected, or the limit is reached by tickers of
    at least its volume. *)
Lemma select_symbols_complete markets tickers sel :
  select_symbols (Some markets) tickers = Return sel ->
  forall t, eligible markets tickers t ->
    In t sel
    \/ (List.length sel = SYMBOL_LIMIT
        /\ Forall (fun s => volume_of t <= volume_of s) sel).
Proof.
  unfold select_symbols. generalize SYMBOL_LIMIT. intros limit Hrun t Ht.
  destruct (filterM (is_active_usdt (Some markets)) (values tickers))
    as [usdt|e] eqn:E1; [|discriminate].
  cbn [obind] in Hrun.
  destruct (filterM above_min_volume usdt) as [above|e] eqn:E2; [|discriminate].
  cbn [obind] in Hrun.
  destruct (sorted_by_volume above) as [sorted|e] eqn:E3; [|discriminate].
  cbn [obind] in Hrun. injection Hrun as <-.
  destruct (sorted_by_volume_spec _ _ E3) as [Hperm Hdesc].
  destruct Ht as (Hin & Hs & (m & Hm & Hact) & (q & Hq & Hvol)).
  assert (H1 : In t usdt).
  { apply (filterM_complete _ _ _ E1 t Hin). unfold is_active_usdt.
    rewrite Hs. unfold subscript, getitem. rewrite Hm. cbn [obind]. now rewrite Hact. }
  assert (H2 : In t above).
  { apply (filterM_complete _ _ _ E2 t H1). unfold above_min_volume.
    rewrite Hq. f_equal. now apply Qltb_lt. }
  assert (H3 : In t sorted) by (apply (Permutation_in _ (Permutation_sym Hperm)), H2).
  rewrite <- (firstn_skipn limit sorted) in H3.
  apply in_app_or in H3. destruct H3 as [H3|H3]; [now left|]. right.
  split.
  - apply firstn_length_le.
    destruct (Nat.le_gt_cases limit (List.length sorted)) as [Hle|Hgt]; [exact Hle|].
    rewrite skipn_all2 in H3 by lia. destruct H3.
  - apply Forall_forall. intros s Hsin.
    exact (StronglySorted_cut _ limit sorted Hdesc s t Hsin H3).
Qed.

(** An unreadable ticker makes the selection raise. *)
Lemma select_symbols_unreadable markets tickers :
  Exists (unreadable markets) (values tickers) ->
  exists e, select_symbols (Some markets) tickers = Raise e.
Proof.
  intros Hex. apply Exists_exists in Hex.
  destruct Hex as (t & Hin & Hs & Hbad).
  unfold select_symbols.
  destruct (filterM (is_active_usdt (Some markets)) (values tickers))
    as [usdt|e] eqn:E1; [|now exists e].
  cbn [obind].
  destruct Hbad as [Hnone | (m & Hm & Hact & Hvol)].
  - exfalso.
    destruct (filterM_raises (is_active_usdt (Some markets)) (values tickers) t
                (Exn KeyError (symbol t)) Hin) as [e He]; [|congruence].
    unfold is_active_usdt. rewrite Hs. unfold subscript, getitem. now rewrite Hnone.
  - assert (H1 : In t usdt).
    { apply (filterM_complete _ _ _ E1 t Hin). unfold is_active_usdt.
      rewrite Hs. unfold subscript, getitem. rewrite Hm. cbn [obind]. now rewrite Hact. }
    destruct (filterM_raises above_min_volume usdt t
                (Exn TypeError "'>' not supported between instances of 'NoneType' and 'int'") H1)
      as [e He].
    { unfold above_min_volume. now rewrite Hvol. }
    rewrite He. now exists e.
Qed.

End SelectionMore.

Section UniverseMore.

Variable W : Type.
Variable load_markets : W -> outcome (dict market) * W.
Variable fetch_tickers : W -> outcome (dict ticker) * W.

Local Open Scope Q_scope.

(** X4.  When both responses arrive and every USDT ticker is readable,
    [get_active_symbols] returns the symbols of a selection that misses no
    eligible ticker, unless it holds [SYMBOL_LIMIT] tickers each of at
    least the volume of the missed one. *)
Theorem universe_complete :
  forall st markets st1 tickers st2,
    fetch_with_retry load_markets 3 1 st = (Return (Some markets), st1) ->
    fetch_with_retry fetch_tickers 3 1 st1 = (Return (Some tickers), st2) ->
    Forall (fun t => ~ unreadable markets t) (values tickers) ->
    exists sel,
      get_active_symbols W load_markets fetch_tickers st = (Return (map symbol sel), st2)
      /\ forall t, eligible markets tickers t ->
           In t sel
           \/ (List.length sel = SYMBOL_LIMIT
               /\ Forall (fun s => volume_of t <= volume_of s) sel).
Proof.
  intros st markets st1 tickers st2 Hm Ht Hok.
  rewrite (get_active_symbols_fetched W load_markets fetch_tickers
             st markets st1 tickers st2 Hm Ht).
  destruct (select_symbols_returns markets tickers Hok) as [sel Hsel].
  rewrite Hsel. exists sel. split; [reflexivity|].
  now apply select_symbols_complete.
Qed.

(** X5.  When both responses arrive and one ticker is unreadable (a USDT
    symbol missing from the directory, or an active USDT market whose
    ticker has volume [None]), [get_active_symbols] returns the empty list,
    whatever the other tickers are. *)
Theorem universe_emptied :
  forall st markets st1 tickers st2,
    fetch_with_retry load_markets 3 1 st = (Return (Some markets), st1) ->
    fetch_with_retry fetch_tickers 3 1 st1 = (Return (Some tickers), st2) ->
    Exists (unreadable markets) (values tickers) ->
    get_active_symbols W load_markets fetch_tickers st = (Return [], st2).
Proof.
  intros st markets st1 tickers st2 Hm Ht Hbad.
  rewrite (get_active_symbols_fetched W load_markets fetch_tickers
             st markets st1 tickers st2 Hm Ht).
  destruct (select_symbols_unreadable markets tickers Hbad) as [e ->].
  reflexivity.
Qed.

End UniverseMore.

Lemma sample_tickers_readable :
  Forall (fun t => ~ unreadable Samples.markets t) (values Samples.tickers).
Proof.
  repeat (apply Forall_cons;
          [intros (Hs & [Hn | (m & Hm & Ha & Hv)]);
           first [discriminate Hs | discriminate Hn | discriminate Hv]|]).
  apply Forall_nil.
Qed.

Lemma universe_complete_witness :
  exists sel,
    get_active_symbols nat (Samples.answer Samples.markets) (Samples.answer Samples.tickers)
      (0%nat, [])
    = (Return (map symbol sel), (2%nat, [Call; Call]))
    /\ forall t, eligible Samples.markets Samples.tickers t ->
         In t sel
         \/ (List.length sel = SYMBOL_LIMIT
             /\ Forall (fun s => (volume_of t <= volume_of s)%Q) sel).
Proof.
  apply (universe_complete nat (Samples.answer Samples.markets)
           (Samples.answer Samples.tickers)
           (0%nat, []) Samples.markets (1%nat, [Call]) Samples.tickers (2%nat, [Call; Call])).
  - reflexivity.
  - reflexivity.
  - exact sample_tickers_readable.
Defined.

Lemma universe_emptied_witness :
  get_active_symbols nat (Samples.answer Samples.markets)
    (Samples.answer Samples.tickers_unlisted) (0%nat, [])
  = (Return [], (2%nat, [Call; Call])).
Proof.
  apply (universe_emptied nat (Samples.answer Samples.markets)
           (Samples.answer Samples.tickers_unlisted)
           (0%nat, []) Samples.markets (1%nat, [Call])
           Samples.tickers_unlisted (2%nat, [Call; Call])).
  - reflexivity.
  - reflexivity.
  - apply Exists_exists.
    exists (Ticker "GONE/USDT" (PyNum 3000000)). split.
    + cbn. tauto.
    + split; [reflexivity | left; reflexivity].
Defined.

(** ** The display name of a symbol *)

Section SymbolName.

Variable W : Type.
Variable fetch_ohlcv : string -> string -> Z -> W -> outcome (list candle) * W.
Variable sqrt : float -> float.

(** Removing the quote suffix from [base/USDT] gives [base] back, for a
    [base] without a slash. *)
Lemma replace_quote_suffix (base : string) :
  has_char "/" base = false ->
  Str.replace (append base "/USDT") "/USDT" "" = base.
Proof.
  unfold Str.replace.
  induction base as [|c base IH]; intros Hno; [reflexivity|].
  cbn [has_char] in Hno. apply orb_false_iff in Hno. destruct Hno as [Hc Hno].
  cbn [append Str.replace_from]. cbn [prefix].
  destruct (ascii_dec "/" c) as [<- | Hne]; [discriminate Hc|].
  f_equal. apply IH, Hno.
Qed.

(** X6.  The result for a symbol [base/USDT], [base] without a slash, is
    labelled [base]. *)
Theorem result_symbol_is_base :
  forall base st r st',
    has_char "/" base = false ->
    analyze_symbol W fetch_ohlcv sqrt (append base "/USDT") st = (Return (Some r), st') ->
    r_symbol r = base.
Proof.
  intros base st r st' Hno Hrun.
  destruct (analyze_symbol_some W fetch_ohlcv sqrt _ st r st' Hrun)
    as (ohlcv & _ & Hn & Hind).
  rewrite (indicators_long sqrt _ ohlcv Hn) in Hind.
  injection Hind as <-. cbn [r_symbol].
  now apply replace_quote_suffix.
Qed.

End SymbolName.

Lemma result_symbol_is_base_witness :
  exists r,
    analyze_symbol nat Samples.fetch_ohlcv Samples.sqrt "A/USDT" (0%nat, [])
    = (Return (Some r), (1%nat, [Call]))
    /\ r_symbol r = "A"%string.
Proof.
  destruct (analyze_symbol_long nat Samples.fetch_ohlcv Samples.sqrt
              "A/USDT" (0%nat, []) (Samples.rising 168) (1%nat, [Call]))
    as (r & Hrun & _); [reflexivity | apply Nat.leb_le; reflexivity |].
  exists r. split; [exact Hrun|].
  apply (result_symbol_is_base nat Samples.fetch_ohlcv Samples.sqrt
           "A" (0%nat, []) r (1%nat, [Call])); [reflexivity | exact Hrun].
Defined.

(** ** The RSI at its two ends *)

Section RsiExtremes.

Local Open Scope Q_scope.

Lemma ewm_step_positive prev x :
  nonneg prev -> nonneg x -> positive prev \/ positive x ->
  positive (fadd (fmul (fsub (of_Z 1) (fdiv (of_Z 1) (of_Z 14))) prev) (fmul (fdiv (of_Z 1) (of_Z 14)) x)).
Proof.
  intros [p [Hp Hp0]] [q [Hq Hq0]] Hpos.
  assert (Ha : repr (fdiv (of_Z 1) (of_Z 14)) (1 # 14)) by (vm_compute; reflexivity).
  assert (Hb : repr (fsub (of_Z 1) (fdiv (of_Z 1) (of_Z 14))) (13 # 14)) by (vm_compute; reflexivity).
  exists ((13 # 14) * p + (1 # 14) * q). split.
  - apply repr_fadd; now apply repr_fmul.
  - destruct Hpos as [[p' [Hp' Hpos]] | [q' [Hq' Hpos]]].
    + assert (E : p == p').
      { rewrite <- (repr_value _ _ Hp), <- (repr_value _ _ Hp'). reflexivity. }
      lra.
    + assert (E : q == q').
      { rewrite <- (repr_value _ _ Hq), <- (repr_value _ _ Hq'). reflexivity. }
      lra.
Qed.

(** Once a value above zero has entered the smoothing, its latest value
    is above zero. *)
Lemma ewm_from_latest_positive : forall s prev,
  nonneg prev -> Forall nonneg s -> s <> [] ->
  positive prev \/ Exists positive s ->
  positive (from_end (Series.ewm_from (fdiv (of_Z 1) (of_Z 14)) prev s) 1).
Proof.
  induction s as [|x s IH]; intros prev Hprev Hs Hne Hpos; [congruence|].
  inversion Hs as [|? ? Hx Hs']; subst.
  cbn [Series.ewm_from].
  set (y := fadd (fmul (fsub (of_Z 1) (fdiv (of_Z 1) (of_Z 14))) prev) (fmul (fdiv (of_Z 1) (of_Z 14)) x)).
  assert (Hy : nonneg y) by now apply ewm_step_nonneg.
  destruct s as [|x' s].
  - cbn. apply ewm_step_positive; try assumption.
    destruct Hpos as [Hpos|Hpos]; [now left|].
    inversion Hpos as [? ? H|? ? H]; subst; [now right | inversion H].
  - assert (Hpos' : positive y \/ Exists positive (x' :: s)).
    { destruct Hpos as [Hpos|Hpos].
      - left. apply ewm_step_positive; auto.
      - inversion Hpos as [? ? H|? ? H]; subst.
        + left. apply ewm_step_positive; auto.
        + now right. }
    specialize (IH y Hy Hs' ltac:(discriminate) Hpos').
    unfold from_end in IH |- *.
    cbn [List.length] in IH |- *.
    rewrite ewm_from_length in IH |- *. cbn [List.length] in IH |- *.
    replace (S (S (List.length s)) - 1)%nat with (S (List.length s)) by lia.
    replace (S (List.length s) - 1)%nat with (List.length s) in IH by lia.
    exact IH.
Qed.

Lemma ewm_mean_latest_positive s :
  Forall nonneg s -> Exists positive s ->
  positive (from_end (Series.ewm_mean (fdiv (of_Z 1) (of_Z 14)) s) 1).
Proof.
  intros Hs Hpos. destruct s as [|x s]; [inversion Hpos|].
  inversion Hs as [|? ? Hx Hs']; subst. cbn [Series.ewm_mean].
  destruct s as [|x' s].
  - cbn. inversion Hpos as [? ? H|? ? H]; subst; [exact H | inversion H].
  - assert (Hpos' : positive x \/ Exists positive (x' :: s)).
    { inversion Hpos; subst; [now left | now right]. }
    assert (IH := ewm_from_latest_positive (x' :: s) x Hx Hs' ltac:(discriminate) Hpos').
    unfold from_end in IH |- *.
    cbn [List.length] in IH |- *.
    rewrite ewm_from_length in IH |- *. cbn [List.length] in IH |- *.
    replace (S (S (List.length s)) - 1)%nat with (S (List.length s)) by lia.
    replace (S (List.length s) - 1)%nat with (List.length s) in IH by lia.
    exact IH.
Qed.

(** The differences of the closes stand for those of the prices. *)
Lemma diffs_repr : forall t s qt qs,
  Forall2 repr t qt -> Forall2 repr s qs ->
  Forall2 repr (Series.zip_with fsub t s) (Series.zip_with Qminus qt qs).
Proof.
  induction t as [|a t IH]; intros s qt qs Ht Hs; inversion Ht; subst;
    [constructor|].
  inversion Hs; subst; cbn [Series.zip_with]; constructor.
  - now apply repr_fsub.
  - now apply IH.
Qed.

Lemma diff_closes ohlcv :
  exists ds,
    Series.diff (closes_of ohlcv) = match ohlcv with [] => [] | _ => NaN :: ds end
    /\ Forall2 repr ds (Qdiffs (close_prices ohlcv)).
Proof.
  destruct ohlcv as [|k o]; [exists []; split; constructor|].
  eexists. split; [reflexivity|].
  cbn [close_prices map Qdiffs].
  apply diffs_repr; [apply (closes_repr o) | apply (closes_repr (k :: o))].
Qed.

End RsiExtremes.

Section RsiEnds.

Local Open Scope Q_scope.

Lemma Forall2_Forall_map {A B C} (R : A -> B -> Prop) (P : B -> Prop)
    (Q' : C -> Prop) (f : A -> C) :
  (forall a b, R a b -> P b -> Q' (f a)) ->
  forall l m, Forall2 R l m -> Forall P m -> Forall Q' (map f l).
Proof.
  intros Hf. induction 1 as [|a b l m Hab _ IH]; intros Hm; cbn [map];
    [constructor|].
  inversion Hm; subst. constructor; [now apply Hf with b | now apply IH].
Qed.

Lemma Forall2_Exists_map {A B C} (R : A -> B -> Prop) (P : B -> Prop)
    (Q' : C -> Prop) (f : A -> C) :
  (forall a b, R a b -> P b -> Q' (f a)) ->
  forall l m, Forall2 R l m -> Exists P m -> Exists Q' (map f l).
Proof.
  intros Hf. induction 1 as [|a b l m Hab _ IH]; intros Hm; cbn [map];
    [inversion Hm|].
  inversion Hm; subst; [left; now apply Hf with b | right; now apply IH].
Qed.

(** The latest averages of a series, from the differences of its prices:
    no fall, no loss; a rise, a gain; and the other way round. *)
Lemma latest_averages ohlcv :
  let c := close_prices ohlcv in
  (Forall (fun d => 0 <= d) (Qdiffs c) ->
   (1 <= List.length ohlcv)%nat ->
   is_zero (from_end (avg_loss (closes_of ohlcv) 14) 1) = true)
  /\ (Forall (fun d => d <= 0) (Qdiffs c) ->
      (1 <= List.length ohlcv)%nat ->
      is_zero (from_end (avg_gain (closes_of ohlcv) 14) 1) = true)
  /\ (Exists (fun d => 0 < d) (Qdiffs c) ->
      positive (from_end (avg_gain (closes_of ohlcv) 14) 1))
  /\ (Exists (fun d => d < 0) (Qdiffs c) ->
      positive (from_end (avg_loss (closes_of ohlcv) 14) 1)).
Proof.
  intros c. subst c.
  destruct (diff_closes ohlcv) as (ds & Hdiff & Hds).
  assert (Hzero : forall s : Series.Series,
             Forall (fun x => repr x 0) s -> (1 <= List.length s)%nat ->
             is_zero (from_end (Series.ewm_mean (fdiv (of_Z 1) (of_Z 14)) s) 1) = true).
  { intros s Hs Hlen. apply (repr_is_zero _ 0); [|reflexivity].
    apply (proj1 (Forall_forall _ _) (ewm_mean_zeros s Hs)).
    apply nth_error_In
      with (n := (List.length (Series.ewm_mean (fdiv (of_Z 1) (of_Z 14)) s) - 1)%nat).
    apply iloc_from_end. rewrite ewm_mean_length. lia. }
  split; [|split; [|split]].
  - intros Hup Hn. unfold avg_loss. rewrite Hdiff.
    destruct ohlcv as [|k o]; [cbn in Hn; lia|].
    apply Hzero.
    + unfold Series.neg, Series.where_. rewrite map_map. cbn [map].
      constructor; [reflexivity|].
      eapply Forall2_Forall_map; [|exact Hds|exact Hup].
      intros d q Hd Hq. cbv beta in Hq |- *.
      destruct (fltb d (of_Z 0)) eqn:E; [|reflexivity].
      apply (repr_fltb _ _ _ _ Hd (repr_of_Z 0)) in E.
      change (inject_Z 0) with 0 in E. lra.
    + unfold Series.neg, Series.where_. rewrite !length_map. cbn. lia.
  - intros Hdown Hn. unfold avg_gain. rewrite Hdiff.
    destruct ohlcv as [|k o]; [cbn in Hn; lia|].
    apply Hzero.
    + unfold Series.where_. cbn [map].
      constructor; [reflexivity|].
      eapply Forall2_Forall_map; [|exact Hds|exact Hdown].
      intros d q Hd Hq. cbv beta in Hq |- *.
      destruct (fltb (of_Z 0) d) eqn:E; [|reflexivity].
      apply (repr_fltb _ _ _ _ (repr_of_Z 0) Hd) in E.
      change (inject_Z 0) with 0 in E. lra.
    + unfold Series.where_. rewrite !length_map. cbn. lia.
  - intros Hrise. unfold avg_gain.
    apply ewm_mean_latest_positive.
    + unfold Series.where_. apply Forall_map.
      eapply Forall_impl; [|apply diff_finite, closes_of_finite].
      intros d Hd. now apply gain_nonneg.
    + rewrite Hdiff. destruct ohlcv as [|k o]; [inversion Hrise|].
      unfold Series.where_. cbn [map]. right.
      eapply Forall2_Exists_map; [|exact Hds|exact Hrise].
      intros d q Hd Hq. cbv beta in Hq |- *.
      replace (fltb (of_Z 0) d) with true
        by (symmetry; apply (repr_fltb _ _ _ _ (repr_of_Z 0) Hd); exact Hq).
      now exists q.
  - intros Hfall. unfold avg_loss.
    apply ewm_mean_latest_positive.
    + unfold Series.neg, Series.where_. rewrite map_map. apply Forall_map.
      eapply Forall_impl; [|apply diff_finite, closes_of_finite].
      intros d Hd. now apply loss_nonneg.
    + rewrite Hdiff. destruct ohlcv as [|k o]; [inversion Hfall|].
      unfold Series.neg, Series.where_. rewrite map_map. cbn [map]. right.
      eapply Forall2_Exists_map; [|exact Hds|exact Hfall].
      intros d q Hd Hq. cbv beta in Hq |- *.
      replace (fltb d (of_Z 0)) with true
        by (symmetry; apply (repr_fltb _ _ _ _ Hd (repr_of_Z 0)); exact Hq).
      exists (- q). split; [now apply repr_fneg | lra].
Qed.

Lemma Qdiffs_nonempty (c : list Q) (P : Q -> Prop) :
  Exists P (Qdiffs c) -> (2 <= List.length c)%nat.
Proof.
  destruct c as [|a [|b c]]; cbn; intros H; [inversion H | inversion H | lia].
Qed.

(** X7.  A series in which no close is below the one before and some
    close is above it has a latest RSI of 100. *)
Theorem rsi_of_rising_series :
  forall ohlcv : list candle,
    Forall (fun d => 0 <= d) (Qdiffs (close_prices ohlcv)) ->
    Exists (fun d => 0 < d) (Qdiffs (close_prices ohlcv)) ->
    Series.iloc (vectorized_rsi (closes_of ohlcv) 14) (-1) = Return (of_Z 100).
Proof.
  intros ohlcv Hup Hrise.
  assert (Hn : (2 <= List.length ohlcv)%nat).
  { apply Qdiffs_nonempty in Hrise. unfold close_prices in Hrise.
    now rewrite length_map in Hrise. }
  destruct (latest_averages ohlcv) as (Hloss & _ & Hgain & _).
  destruct (Hgain Hrise) as (a & Ha & Hapos).
  assert (Hlen : (1 <= List.length (closes_of ohlcv))%nat)
    by (rewrite closes_of_length; lia).
  destruct (rsi_latest (closes_of ohlcv) (closes_of_finite ohlcv) Hlen) as (Hr & _).
  change (-1)%Z with (- Z.of_nat 1)%Z.
  rewrite iloc_from_end_eq by (rewrite vectorized_rsi_length; lia).
  rewrite Hr. f_equal.
  apply (rsi_of_zero_loss _ _ a Ha Hapos). apply Hloss; [exact Hup | lia].
Qed.

(** X8.  A series in which no close is above the one before and some
    close is below it has a latest RSI of 0. *)
Theorem rsi_of_falling_series :
  forall ohlcv : list candle,
    Forall (fun d => d <= 0) (Qdiffs (close_prices ohlcv)) ->
    Exists (fun d => d < 0) (Qdiffs (close_prices ohlcv)) ->
    exists r,
      Series.iloc (vectorized_rsi (closes_of ohlcv) 14) (-1) = Return r
      /\ feqb r (of_Z 0) = true.
Proof.
  intros ohlcv Hdown Hfall.
  assert (Hn : (2 <= List.length ohlcv)%nat).
  { apply Qdiffs_nonempty in Hfall. unfold close_prices in Hfall.
    now rewrite length_map in Hfall. }
  destruct (latest_averages ohlcv) as (_ & Hgain & _ & Hloss).
  destruct (Hloss Hfall) as (b & Hb & Hbpos).
  assert (Hlen : (1 <= List.length (closes_of ohlcv))%nat)
    by (rewrite closes_of_length; lia).
  destruct (rsi_latest (closes_of ohlcv) (closes_of_finite ohlcv) Hlen)
    as (Hr & [a [Ha _]] & _).
  assert (Ha0 : a == 0).
  { apply (repr_is_zero _ _ Ha). apply Hgain; [exact Hdown | lia]. }
  exists (from_end (vectorized_rsi (closes_of ohlcv) 14) 1). split.
  - change (-1)%Z with (- Z.of_nat 1)%Z.
    apply iloc_from_end_eq. rewrite vectorized_rsi_length. lia.
  - rewrite Hr.
    apply (repr_feqb _ _ (inject_Z 100 - inject_Z 100 / (inject_Z 1 + a / b)) (inject_Z 0)).
    + unfold rsi_of. apply repr_fsub; [apply repr_of_Z|].
      apply repr_fdiv; [apply repr_of_Z | |].
      * apply repr_fadd; [apply repr_of_Z|]. apply repr_fdiv; [assumption..|lra].
      * rewrite Ha0. change (inject_Z 1) with 1. unfold Qdiv. lra.
    + apply repr_of_Z.
    + rewrite Ha0. change (inject_Z 100) with 100. change (inject_Z 1) with 1.
      change (inject_Z 0) with 0. field. lra.
Qed.

End RsiEnds.

Lemma rsi_of_rising_series_witness :
  Series.iloc (vectorized_rsi (closes_of (Samples.rising 50)) 14) (-1)
  = Return (of_Z 100).
Proof.
  apply (rsi_of_rising_series (Samples.rising 50)).
  - apply Forall_forall. intros d Hd. apply Qle_bool_iff.
    revert d Hd. apply forallb_forall. vm_compute. reflexivity.
  - apply Exists_exists. exists (1 # 1)%Q.
    split; [vm_compute; left; reflexivity | reflexivity].
Defined.

Lemma rsi_of_falling_series_witness :
  exists r,
    Series.iloc (vectorized_rsi (closes_of (Cases.falling 50)) 14) (-1) = Return r
    /\ feqb r (of_Z 0) = true.
Proof.
  apply (rsi_of_falling_series (Cases.falling 50)).
  - apply Forall_forall. intros d Hd. apply Qle_bool_iff.
    revert d Hd. apply forallb_forall. vm_compute. reflexivity.
  - apply Exists_exists. exists (- 1 # 1)%Q.
    split; [vm_compute; left; reflexivity | reflexivity].
Defined.

(** ** More on the indicators *)

Section IndicatorsMore.

Variable W : Type.
Variable fetch_ohlcv : string -> string -> Z -> W -> outcome (list candle) * W.
Variable sqrt : float -> float.

Local Open Scope Q_scope.

Lemma Qsum_volumes_nonneg ohlcv :
  Forall (fun k => 0 <= volume k) ohlcv -> 0 <= Qsum (map volume ohlcv).
Proof.
  induction 1 as [|k o Hk _ IH]; cbn [map Qsum fold_right]; [lra|].
  fold (Qsum (map volume o)). lra.
Qed.

Lemma tail_volumes ohlcv (k : nat) :
  Series.tail k (volumes_of ohlcv) = volumes_of (skipn (List.length ohlcv - k) ohlcv).
Proof.
  unfold Series.tail, volumes_of. now rewrite length_map, skipn_map.
Qed.

(** X10.  The [volume_24h] of a result is the sum of the volumes of the
    last 24 buckets of its series, and is not negative when no volume
    is. *)
Theorem volume_of_last_buckets :
  forall sym st r st',
    analyze_symbol W fetch_ohlcv sqrt sym st = (Return (Some r), st') ->
    exists ohlcv,
      fetched fetch_ohlcv sym st ohlcv st'
      /\ repr (volume_24h r)
              (Qsum (map volume (skipn (List.length ohlcv - 24) ohlcv)))
      /\ (Forall (fun k => 0 <= volume k) ohlcv ->
          fleb (of_Z 0) (volume_24h r) = true).
Proof.
  intros sym st r st' Hrun.
  destruct (analyze_symbol_some W fetch_ohlcv sqrt sym st r st' Hrun)
    as (ohlcv & Hf & Hn & Hind).
  rewrite (indicators_long sqrt sym ohlcv Hn) in Hind.
  injection Hind as <-. cbn [volume_24h].
  exists ohlcv. split; [exact Hf|].
  assert (Hsum : repr (Series.sum (Series.tail 24 (volumes_of ohlcv)))
                      (Qsum (map volume (skipn (List.length ohlcv - 24) ohlcv)))).
  { rewrite tail_volumes. apply sum_repr, volumes_repr. }
  split; [exact Hsum|].
  intros Hv.
  apply (repr_fleb _ _ _ _ (repr_of_Z 0) Hsum).
  change (inject_Z 0) with 0.
  apply Qsum_volumes_nonneg. now apply Forall_skipn_keep.
Qed.

Lemma fold_fmin_in : forall l x, In (fold_left fmin l x) (x :: l).
Proof.
  induction l as [|y l IH]; intros x; cbn [fold_left]; [now left|].
  destruct (IH (fmin x y)) as [H|H].
  - rewrite <- H. unfold fmin. destruct (fltb y x); [right; now left | now left].
  - right. now right.
Qed.

Lemma fold_fmax_in : forall l x, In (fold_left fmax l x) (x :: l).
Proof.
  induction l as [|y l IH]; intros x; cbn [fold_left]; [now left|].
  destruct (IH (fmax x y)) as [H|H].
  - rewrite <- H. unfold fmax. destruct (fltb x y); [right; now left | now left].
  - right. now right.
Qed.

Lemma minimum_in (l : Series.Series) :
  (1 <= List.length l)%nat -> In (Series.minimum l) l.
Proof.
  destruct l as [|x l]; cbn [List.length]; [lia|].
  intros _. apply fold_fmin_in.
Qed.

Lemma maximum_in (l : Series.Series) :
  (1 <= List.length l)%nat -> In (Series.maximum l) l.
Proof.
  destruct l as [|x l]; cbn [List.length]; [lia|].
  intros _. apply fold_fmax_in.
Qed.

(** X11.  The support and the resistance of a result are closes of the
    last 24 buckets of its series, and every close of these buckets lies
    between them. *)
Theorem support_resistance_of_window :
  forall sym st r st',
    analyze_symbol W fetch_ohlcv sqrt sym st = (Return (Some r), st') ->
    exists ohlcv,
      fetched fetch_ohlcv sym st ohlcv st'
      /\ let last24 := closes_of (skipn (List.length ohlcv - 24) ohlcv) in
         List.length last24 = 24%nat
         /\ In (support r) last24
         /\ In (resistance r) last24
         /\ Forall (fun x => fleb (support r) x = true
                             /\ fleb x (resistance r) = true) last24.
Proof.
  intros sym st r st' Hrun.
  destruct (analyze_symbol_some W fetch_ohlcv sqrt sym st r st' Hrun)
    as (ohlcv & Hf & Hn & Hind).
  rewrite (indicators_long sqrt sym ohlcv Hn) in Hind.
  injection Hind as <-. cbn [support resistance].
  exists ohlcv. split; [exact Hf|]. cbv zeta.
  assert (Hfin := closes_of_finite ohlcv).
  assert (Hw : (1 <= 24 <= List.length (closes_of ohlcv))%nat)
    by (rewrite closes_of_length; lia).
  rewrite !(rolling_latest 24 _ _ Hfin Hw).
  assert (E : skipn (List.length (closes_of ohlcv) - 24) (closes_of ohlcv)
              = closes_of (skipn (List.length ohlcv - 24) ohlcv)).
  { unfold closes_of. now rewrite length_map, skipn_map. }
  rewrite E.
  set (last24 := closes_of (skipn (List.length ohlcv - 24) ohlcv)).
  assert (Hlen : List.length last24 = 24%nat).
  { unfold last24. rewrite closes_of_length, length_skipn. lia. }
  assert (Hfin24 : Forall (fun x => exists q, repr x q) last24)
    by apply closes_of_finite.
  split; [exact Hlen|].
  split; [apply minimum_in; rewrite Hlen; lia|].
  split; [apply maximum_in; rewrite Hlen; lia|].
  apply Forall_forall. intros y Hy. split.
  - now apply minimum_below.
  - now apply maximum_above.
Qed.

End IndicatorsMore.

Lemma volume_of_last_buckets_witness :
  exists r ohlcv,
    analyze_symbol nat Samples.fetch_ohlcv Samples.sqrt "A/USDT" (0%nat, [])
    = (Return (Some r), (1%nat, [Call]))
    /\ fetched Samples.fetch_ohlcv "A/USDT" (0%nat, []) ohlcv (1%nat, [Call])
    /\ repr (volume_24h r)
            (Qsum (map volume (skipn (List.length ohlcv - 24) ohlcv)))
    /\ (Forall (fun k => (0 <= volume k)%Q) ohlcv ->
        fleb (of_Z 0) (volume_24h r) = true).
Proof.
  destruct (analyze_symbol_long nat Samples.fetch_ohlcv Samples.sqrt
              "A/USDT" (0%nat, []) (Samples.rising 168) (1%nat, [Call]))
    as (r & Hrun & _); [reflexivity | apply Nat.leb_le; reflexivity |].
  destruct (volume_of_last_buckets nat Samples.fetch_ohlcv Samples.sqrt
              "A/USDT" (0%nat, []) r (1%nat, [Call]) Hrun) as (ohlcv & Hf & Hb).
  exists r, ohlcv. auto.
Defined.

Lemma support_resistance_of_window_witness :
  exists r ohlcv,
    analyze_symbol nat Samples.fetch_ohlcv Samples.sqrt "A/USDT" (0%nat, [])
    = (Return (Some r), (1%nat, [Call]))
    /\ fetched Samples.fetch_ohlcv "A/USDT" (0%nat, []) ohlcv (1%nat, [Call])
    /\ List.length (closes_of (skipn (List.length ohlcv - 24) ohlcv)) = 24%nat
    /\ In (support r) (closes_of (skipn (List.length ohlcv - 24) ohlcv))
    /\ In (resistance r) (closes_of (skipn (List.length ohlcv - 24) ohlcv))
    /\ Forall (fun x => fleb (support r) x = true /\ fleb x (resistance r) = true)
              (closes_of (skipn (List.length ohlcv - 24) ohlcv)).
Proof.
  destruct (analyze_symbol_long nat Samples.fetch_ohlcv Samples.sqrt
              "A/USDT" (0%nat, []) (Samples.rising 168) (1%nat, [Call]))
    as (r & Hrun & _); [reflexivity | apply Nat.leb_le; reflexivity |].
  destruct (support_resistance_of_window nat Samples.fetch_ohlcv Samples.sqrt
              "A/USDT" (0%nat, []) r (1%nat, [Call]) Hrun) as (ohlcv & Hf & Hb).
  exists r, ohlcv. auto.
Defined.

(** ** The refresh cycle: outage, order, budget *)

Section CycleMore.

Variable W : Type.
Variable load_markets : W -> outcome (dict market) * W.
Variable fetch_tickers : W -> outcome (dict ticker) * W.
Variable fetch_ohlcv : string -> string -> Z -> W -> outcome (list candle) * W.
Variable sqrt : float -> float.

Lemma outage_snapshot :
  always_transient load_markets ->
  forall st, exists w',
    update_dashboard W load_markets fetch_tickers fetch_ohlcv sqrt st
    = (Return [], (w', snd st ++ [Call; Sleep 1; Call; Sleep 2; Call])).
Proof.
  intros Hall st.
  destruct (retry_loop_exhausts load_markets 3 1 Hall ltac:(lia) 3%nat 0 st)
    as (e & w & st1 & Hrun & _ & _ & Htr); [lia | lia | reflexivity |].
  exists (fst st1).
  unfold update_dashboard, bind at 1.
  unfold get_active_symbols, try_except, get_active_symbols_body, bind at 1.
  unfold fetch_with_retry. change (Z.to_nat 3) with 3%nat. rewrite Hrun.
  cbn [ret]. unfold snapshot, bind. cbn [executor_map ret valid_data].
  destruct st1 as [w1 tr1]. cbn [fst snd] in *. now rewrite Htr.
Qed.

(** X12.  When loading the markets fails with a transient error at every
    attempt, the cycle ends with an empty snapshot after three calls and
    sleeps of 1 and 2 seconds: the tickers and the candles are not
    asked for. *)
Theorem update_dashboard_outage :
  always_transient load_markets ->
  forall st, exists w',
    update_dashboard W load_markets fetch_tickers fetch_ohlcv sqrt st
    = (Return [], (w', snd st ++ [Call; Sleep 1; Call; Sleep 2; Call])).
Proof. exact outage_snapshot. Qed.

Lemma select_symbols_length markets tickers sel :
  select_symbols markets tickers = Return sel ->
  (List.length sel <= SYMBOL_LIMIT)%nat.
Proof.
  unfold select_symbols. generalize SYMBOL_LIMIT. intros limit Hrun.
  destruct (filterM (is_active_usdt markets) (values tickers)) as [usdt|e];
    [|discriminate].
  cbn [obind] in Hrun.
  destruct (filterM above_min_volume usdt) as [above|e]; [|discriminate].
  cbn [obind] in Hrun.
  destruct (sorted_by_volume above) as [sorted|e]; [|discriminate].
  cbn [obind] in Hrun. injection Hrun as <-. apply firstn_le_length.
Qed.

(** The universe never exceeds the limit. *)
Lemma get_active_symbols_length st l st' :
  get_active_symbols W load_markets fetch_tickers st = (Return l, st') ->
  (List.length l <= SYMBOL_LIMIT)%nat.
Proof.
  unfold get_active_symbols, try_except, get_active_symbols_body, bind.
  destruct (fetch_with_retry load_markets 3 1 st) as [[markets|e] st1].
  - destruct (fetch_with_retry fetch_tickers 3 1 st1) as [[[tickers|]|e] st2];
      cbn [not_none ret raise].
    + unfold lift.
      destruct (select_symbols markets tickers) as [sel|e] eqn:Es.
      * intros H. injection H as <- _. rewrite length_map.
        now apply select_symbols_length with markets tickers.
      * intros H. injection H as <- _. cbn. lia.
    + intros H. injection H as <- _. cbn. lia.
    + intros H. injection H as <- _. cbn. lia.
  - intros H. injection H as <- _. cbn. lia.
Qed.

(** The labels of a snapshot follow the symbols of the universe. *)
Lemma snapshot_subseq : forall symbols st snap st',
  snapshot W fetch_ohlcv sqrt symbols st = (Return snap, st') ->
  subseq (map r_symbol snap) (map (fun s => Str.replace s "/USDT" "") symbols)
  /\ (List.length snap <= List.length symbols)%nat.
Proof.
  induction symbols as [|sym rest IH]; intros st snap st' Hrun.
  - cbn in Hrun. injection Hrun as <- _. split; [constructor | cbn; lia].
  - destruct (analyze_symbol_returns W fetch_ohlcv sqrt sym st) as (o & st1 & Ho).
    destruct (snapshot_step W fetch_ohlcv sqrt sym rest st o st1 Ho)
      as (snap2 & st2 & Hrest & Hcons).
    rewrite Hcons in Hrun. injection Hrun as <- _.
    destruct (IH st1 snap2 st2 Hrest) as [Hsub Hlen].
    destruct o as [r|]; cbn [map List.length].
    + destruct (analyze_symbol_some W fetch_ohlcv sqrt sym st r st1 Ho)
        as (ohlcv & _ & Hn & Hind).
      rewrite (indicators_long sqrt sym ohlcv Hn) in Hind.
      injection Hind as <-. cbn [r_symbol].
      split; [now constructor | lia].
    + split; [now constructor | lia].
Qed.

(** The cycle never raises. *)
Lemma update_dashboard_returns st :
  exists snap st',
    update_dashboard W load_markets fetch_tickers fetch_ohlcv sqrt st
    = (Return snap, st').
Proof.
  unfold update_dashboard, bind at 1.
  destruct (get_active_symbols_returns W load_markets fetch_tickers st)
    as (symbols & st1 & ->).
  destruct (executor_map_returns W fetch_ohlcv sqrt symbols st1)
    as (results & st2 & Hr & _).
  exists (valid_data results), st2. unfold snapshot, bind. now rewrite Hr.
Qed.

Lemma update_dashboard_length st snap st' :
  update_dashboard W load_markets fetch_tickers fetch_ohlcv sqrt st
  = (Return snap, st') ->
  (List.length snap <= SYMBOL_LIMIT)%nat.
Proof.
  intros Hrun.
  destruct (get_active_symbols_returns W load_markets fetch_tickers st)
    as (symbols & st1 & Hu).
  unfold update_dashboard, bind in Hrun. rewrite Hu in Hrun.
  destruct (snapshot_subseq symbols st1 snap st' Hrun) as [_ Hlen].
  assert (H := get_active_symbols_length st symbols st1 Hu). lia.
Qed.

(** X13.  The snapshot of a cycle has one entry at most per symbol of the
    universe, labelled with the symbol without its quote suffix, in the
    order of the universe; it has at most [SYMBOL_LIMIT] entries. *)
Theorem snapshot_follows_universe :
  forall st snap st',
    update_dashboard W load_markets fetch_tickers fetch_ohlcv sqrt st
    = (Return snap, st') ->
    exists symbols st1,
      get_active_symbols W load_markets fetch_tickers st = (Return symbols, st1)
      /\ subseq (map r_symbol snap) (map (fun s => Str.replace s "/USDT" "") symbols)
      /\ (List.length snap <= List.length symbols)%nat
      /\ (List.length symbols <= SYMBOL_LIMIT)%nat.
Proof.
  intros st snap st' Hrun.
  destruct (get_active_symbols_returns W load_markets fetch_tickers st)
    as (symbols & st1 & Hu).
  unfold update_dashboard, bind in Hrun. rewrite Hu in Hrun.
  exists symbols, st1. split; [exact Hu|].
  destruct (snapshot_subseq symbols st1 snap st' Hrun) as [Hsub Hlen].
  split; [exact Hsub|]. split; [exact Hlen|].
  now apply get_active_symbols_length with st st1.
Qed.

End CycleMore.

Section Budget.

Variable W : Type.
Variable load_markets : W -> outcome (dict market) * W.
Variable fetch_tickers : W -> outcome (dict ticker) * W.
Variable fetch_ohlcv : string -> string -> Z -> W -> outcome (list candle) * W.
Variable sqrt : float -> float.

Lemma calls_app (a b : list event) : calls (a ++ b) = (calls a + calls b)%nat.
Proof. unfold calls. now rewrite filter_app, length_app. Qed.

Lemma sleeps_app : forall a b : list event, sleeps (a ++ b) = sleeps a ++ sleeps b.
Proof.
  induction a as [|[|d] a IH]; intros b; cbn [app sleeps]; [reflexivity | apply IH|].
  now rewrite IH.
Qed.

Lemma Zsum_app : forall a b : list Z, Zsum (a ++ b) = Zsum a + Zsum b.
Proof.
  induction a as [|x a IH]; intros b; cbn [app Zsum fold_right]; [reflexivity|].
  fold (Zsum (a ++ b)). fold (Zsum a). rewrite IH. ring.
Qed.

Lemma spends_refl (st : state W) : spends 0 st st.
Proof. exists []. rewrite app_nil_r. cbn. repeat split; lia. Qed.

Lemma spends_trans (a b : nat) (st st1 st2 : state W) :
  spends a st st1 -> spends b st1 st2 -> spends (a + b) st st2.
Proof.
  intros (t1 & E1 & C1 & S1) (t2 & E2 & C2 & S2).
  exists (t1 ++ t2). rewrite E2, E1, app_assoc. split; [reflexivity|].
  rewrite calls_app, sleeps_app, Zsum_app. split; lia.
Qed.

Lemma spends_more (a b : nat) (st st' : state W) :
  spends a st st' -> (a <= b)%nat -> spends b st st'.
Proof.
  intros (t & E & C & S) Hab. exists t. repeat split; [exact E | lia | lia].
Qed.

(** One wrapped fetch: three calls and three seconds at most. *)
Lemma fetch_with_retry_spends {A} (method : W -> outcome A * W) (st : state W) :
  spends 1 st (snd (fetch_with_retry method 3 1 st)).
Proof.
  destruct (retry_loop_trace method 3 1 ltac:(lia) 3%nat 0 st)
    as (k & Hk & _ & Htr); [lia | reflexivity |].
  exists (exhausted_trace 1 0 k). split; [exact Htr|].
  rewrite exhausted_trace_calls. split; [lia|].
  assert (H := exhausted_trace_total_sleep 1 k 0).
  destruct k as [|[|[|[|k]]]]; cbn in H |- *; lia.
Qed.

(** The unit of one symbol leaves the state its fetch left. *)
Lemma analyze_symbol_state sym st :
  snd (analyze_symbol W fetch_ohlcv sqrt sym st)
  = snd (fetch_with_retry (fetch_ohlcv sym TIMEFRAME 168) 3 1 st).
Proof.
  unfold analyze_symbol, try_except, analyze_symbol_body, bind.
  destruct (fetch_with_retry (fetch_ohlcv sym TIMEFRAME 168) 3 1 st)
    as [[[ohlcv|]|e] st1]; cbn [not_none ret raise snd]; try reflexivity.
  destruct (List.length ohlcv <? 50)%nat; [reflexivity|].
  unfold lift. now destruct (indicators sqrt sym ohlcv).
Qed.

Lemma executor_map_spends : forall symbols st,
  spends (List.length symbols) st
         (snd (executor_map (analyze_symbol W fetch_ohlcv sqrt) symbols st)).
Proof.
  induction symbols as [|sym rest IH]; intros st; [apply spends_refl|].
  cbn [executor_map List.length]. unfold bind at 1.
  assert (H1 := fetch_with_retry_spends (fetch_ohlcv sym TIMEFRAME 168) st).
  rewrite <- analyze_symbol_state in H1.
  destruct (analyze_symbol_returns W fetch_ohlcv sqrt sym st) as (o & st1 & Ho).
  rewrite Ho in H1 |- *. cbn [snd] in H1.
  specialize (IH st1). unfold bind at 1.
  destruct (executor_map (analyze_symbol W fetch_ohlcv sqrt) rest st1)
    as [[results|e] st2]; cbn [snd ret] in IH |- *;
    apply (spends_trans 1 (List.length rest) st st1 st2 H1 IH).
Qed.

Lemma get_active_symbols_spends st :
  spends 2 st (snd (get_active_symbols W load_markets fetch_tickers st)).
Proof.
  unfold get_active_symbols, try_except, get_active_symbols_body, bind.
  assert (H1 := fetch_with_retry_spends load_markets st).
  destruct (fetch_with_retry load_markets 3 1 st) as [[markets|e] st1];
    cbn [snd ret] in H1 |- *; [|apply spends_more with 1%nat; [exact H1 | lia]].
  assert (H2 := fetch_with_retry_spends fetch_tickers st1).
  destruct (fetch_with_retry fetch_tickers 3 1 st1) as [[[tickers|]|e] st2];
    cbn [snd not_none ret raise] in H2 |- *;
    try exact (spends_trans 1 1 st st1 st2 H1 H2).
  unfold lift. destruct (select_symbols markets tickers);
    exact (spends_trans 1 1 st st1 st2 H1 H2).
Qed.

(** X14.  One refresh cycle makes at most [3 * (2 + SYMBOL_LIMIT)] calls
    of the provider (306) and sleeps at most as many seconds between
    attempts, whatever the provider does. *)
Theorem update_dashboard_budget :
  forall st,
    spends (2 + SYMBOL_LIMIT) st
      (snd (update_dashboard W load_markets fetch_tickers fetch_ohlcv sqrt st)).
Proof.
  intros st. unfold update_dashboard, bind at 1.
  assert (H1 := get_active_symbols_spends st).
  destruct (get_active_symbols_returns W load_markets fetch_tickers st)
    as (symbols & st1 & Hu).
  assert (Hlen := get_active_symbols_length W load_markets fetch_tickers
                    st symbols st1 Hu).
  rewrite Hu in H1 |- *. cbn [snd] in H1.
  assert (H2 := executor_map_spends symbols st1).
  unfold snapshot, bind.
  destruct (executor_map (analyze_symbol W fetch_ohlcv sqrt) symbols st1)
    as [[results|e] st2]; cbn [snd ret] in H2 |- *;
    apply (spends_more (2 + List.length symbols)); try lia;
    exact (spends_trans 2 (List.length symbols) st st1 st2 H1 H2).
Qed.

End Budget.

Lemma update_dashboard_outage_witness :
  exists w',
    update_dashboard nat Samples.down (Samples.answer Samples.tickers)
      Samples.fetch_ohlcv Samples.sqrt (0%nat, [])
    = (Return [], (w', [] ++ [Call; Sleep 1; Call; Sleep 2; Call])).
Proof.
  apply (update_dashboard_outage nat Samples.down (Samples.answer Samples.tickers)
           Samples.fetch_ohlcv Samples.sqrt).
  intros w. exists (Exn NetworkError "timed out"), (S w). split; reflexivity.
Defined.

Lemma snapshot_follows_universe_witness :
  exists snap st' symbols st1,
    update_dashboard nat (Samples.answer Samples.markets) (Samples.answer Samples.tickers)
      Samples.fetch_ohlcv Samples.sqrt (0%nat, [])
    = (Return snap, st')
    /\ get_active_symbols nat (Samples.answer Samples.markets)
         (Samples.answer Samples.tickers) (0%nat, [])
       = (Return symbols, st1)
    /\ subseq (map r_symbol snap) (map (fun s => Str.replace s "/USDT" "") symbols)
    /\ (List.length snap <= List.length symbols)%nat
    /\ (List.length symbols <= SYMBOL_LIMIT)%nat.
Proof.
  destruct (update_dashboard_returns nat (Samples.answer Samples.markets)
              (Samples.answer Samples.tickers) Samples.fetch_ohlcv Samples.sqrt
              (0%nat, [])) as (snap & st' & Hrun).
  destruct (snapshot_follows_universe nat (Samples.answer Samples.markets)
              (Samples.answer Samples.tickers) Samples.fetch_ohlcv Samples.sqrt
              (0%nat, []) snap st' Hrun) as (symbols & st1 & H).
  exists snap, st', symbols, st1. split; [exact Hrun | exact H].
Defined.

(** ** The order of the values that are not NaN *)

Section FloatOrder.

Local Open Scope Q_scope.

Lemma fleb_refl (x : float) : is_nan x = false -> fleb x x = true.
Proof.
  destruct x as [q| |[|]|]; cbn [fleb fltb is_nan value andb orb negb]; intros H; try reflexivity; try discriminate.
  apply Qle_bool_iff, Qle_refl.
Qed.

Lemma fltb_false_fleb (x y : float) :
  is_nan x = false -> is_nan y = false -> fltb x y = false -> fleb y x = true.
Proof.
  destruct x as [a| |[|]|], y as [b| |[|]|]; cbn [fleb fltb is_nan value andb orb negb]; unfold Qltb;
    intros Hx Hy H; try reflexivity; try discriminate;
    now apply negb_false_iff in H.
Qed.

Lemma fltb_fleb (x y : float) : fltb x y = true -> fleb x y = true.
Proof.
  destruct x as [a| |[|]|], y as [b| |[|]|]; cbn [fleb fltb is_nan value andb orb negb];
    intros H; try reflexivity; try discriminate;
    try (apply Qltb_lt in H; apply Qle_bool_iff; now apply Qlt_le_weak).
Qed.

Lemma fleb_trans (x y z : float) :
  fleb x y = true -> fleb y z = true -> fleb x z = true.
Proof.
  destruct x as [a| |[|]|], y as [b| |[|]|], z as [c| |[|]|]; cbn [fleb fltb is_nan value andb orb negb];
    intros H1 H2; try reflexivity; try discriminate;
    try (apply Qle_bool_iff in H1; apply Qle_bool_iff in H2; apply Qle_bool_iff;
         cbn [value] in *; lra).
Qed.

Lemma fleb_not_nan (x y : float) :
  fleb x y = true -> is_nan x = false /\ is_nan y = false.
Proof.
  destruct x as [a| |[|]|], y as [b| |[|]|]; cbn [fleb fltb is_nan value andb orb negb]; intros H;
    try discriminate; split; reflexivity.
Qed.

End FloatOrder.

(** ** The statistics of a snapshot *)

Section BestOf.

(** [better v x] tells that [x] beats the best value [v] so far; [R y v]
    that [v] is at least as good as [y]. *)
Variable better : float -> float -> bool.
Variable R : float -> float -> Prop.
Hypothesis R_refl : forall x, is_nan x = false -> R x x.
Hypothesis R_trans : forall x y z, R x y -> R y z -> R x z.
Hypothesis better_true : forall v x, better v x = true -> R v x.
Hypothesis better_false :
  forall v x, is_nan v = false -> is_nan x = false -> better v x = false -> R x v.

Lemma best_from_spec : forall l best i,
  Forall (fun x => is_nan x = false) l ->
  is_nan (snd best) = false ->
  let r := Frame.best_from better best i l in
  R (snd best) (snd r)
  /\ Forall (fun y => R y (snd r)) l
  /\ (r = best
      \/ ((i <= fst r < i + List.length l)%nat
          /\ nth_error l (fst r - i) = Some (snd r))).
Proof.
  induction l as [|x t IH]; intros best i Hl Hbest; cbn [Frame.best_from].
  - cbv zeta. split; [now apply R_refl|]. split; [constructor | now left].
  - inversion Hl as [|? ? Hx Ht]; subst. cbv zeta.
    destruct (better (snd best) x) eqn:E.
    + destruct (IH (i, x) (S i) Ht Hx) as (H1 & H2 & H3).
      cbn [snd] in H1.
      split; [apply R_trans with x; [now apply better_true | exact H1]|].
      split; [constructor; assumption|].
      right. cbn [List.length]. destruct H3 as [-> | [Hi Hnth]].
      * cbn [fst snd]. split; [lia|]. now rewrite Nat.sub_diag.
      * split; [lia|].
        replace (fst (Frame.best_from better (i, x) (S i) t) - i)%nat
          with (S (fst (Frame.best_from better (i, x) (S i) t) - S i)) by lia.
        exact Hnth.
    + destruct (IH best (S i) Ht Hbest) as (H1 & H2 & H3).
      split; [exact H1|].
      split; [constructor; [|assumption]|].
      * apply R_trans with (snd best); [|exact H1].
        now apply better_false.
      * destruct H3 as [-> | [Hi Hnth]]; [now left|]. right.
        cbn [List.length]. split; [lia|].
        replace (fst (Frame.best_from better best (S i) t) - i)%nat
          with (S (fst (Frame.best_from better best (S i) t) - S i)) by lia.
        exact Hnth.
Qed.

Lemma arg_best_spec (l : list float) :
  l <> [] -> Forall (fun x => is_nan x = false) l ->
  exists v,
    nth_error l (Frame.arg_best better l) = Some v
    /\ Forall (fun y => R y v) l.
Proof.
  intros Hne Hl. destruct l as [|x t]; [congruence|].
  inversion Hl as [|? ? Hx Ht]; subst. cbn [Frame.arg_best].
  destruct (best_from_spec t (0%nat, x) 1 Ht Hx) as (H1 & H2 & H3).
  cbn [snd] in H1.
  exists (snd (Frame.best_from better (0%nat, x) 1 t)).
  split; [|constructor; assumption].
  destruct H3 as [-> | [Hi Hnth]]; [reflexivity|].
  replace (fst (Frame.best_from better (0%nat, x) 1 t))
    with (S (fst (Frame.best_from better (0%nat, x) 1 t) - 1)) by lia.
  exact Hnth.
Qed.

End BestOf.

Section StatsFacts.

Lemma fill_without_nan (fill : float) (col : Series.Series) :
  Forall (fun x => is_nan x = false) col ->
  map (fun x => if is_nan x then fill else x) col = col.
Proof.
  induction 1 as [|x col Hx _ IH]; cbn [map]; [reflexivity|].
  now rewrite Hx, IH.
Qed.

Lemma forallb_nan_false (col : Series.Series) :
  col <> [] -> Forall (fun x => is_nan x = false) col -> forallb is_nan col = false.
Proof.
  intros Hne Hcol. destruct col as [|x col]; [congruence|].
  inversion Hcol; subst. cbn [forallb]. now rewrite H1.
Qed.

(** The row of the greatest value of a column without NaN. *)
Lemma top_symbol_max (column : AnalysisResult -> float) (df : list AnalysisResult) :
  df <> [] ->
  Forall (fun r => is_nan (column r) = false) df ->
  exists row,
    In row df
    /\ top_symbol Frame.idxmax column df = Return (r_symbol row)
    /\ Forall (fun r => fleb (column r) (column row) = true) df.
Proof.
  intros Hne Hcol.
  assert (Hc : Forall (fun x => is_nan x = false) (map column df))
    by now apply Forall_map.
  assert (Hne' : map column df <> []) by (destruct df; [congruence | discriminate]).
  destruct (arg_best_spec fltb (fun y v => fleb y v = true)
              fleb_refl fleb_trans fltb_fleb fltb_false_fleb
              (map column df) Hne' Hc) as (v & Hnth & Hall).
  rewrite nth_error_map in Hnth.
  destruct (nth_error df (Frame.arg_best fltb (map column df))) as [row|] eqn:Er;
    [|discriminate].
  cbn [option_map] in Hnth. injection Hnth as <-.
  exists row. split; [now apply nth_error_In in Er|]. split.
  - unfold top_symbol, Frame.idxmax.
    rewrite (forallb_nan_false _ Hne' Hc), (fill_without_nan _ _ Hc).
    cbn [obind]. unfold Frame.loc. now rewrite Er.
  - now apply Forall_map in Hall.
Qed.

(** The row of the least value. *)
Lemma top_symbol_min (column : AnalysisResult -> float) (df : list AnalysisResult) :
  df <> [] ->
  Forall (fun r => is_nan (column r) = false) df ->
  exists row,
    In row df
    /\ top_symbol Frame.idxmin column df = Return (r_symbol row)
    /\ Forall (fun r => fleb (column row) (column r) = true) df.
Proof.
  intros Hne Hcol.
  assert (Hc : Forall (fun x => is_nan x = false) (map column df))
    by now apply Forall_map.
  assert (Hne' : map column df <> []) by (destruct df; [congruence | discriminate]).
  destruct (arg_best_spec (fun best x => fltb x best) (fun y v => fleb v y = true)
              fleb_refl
              (fun x y z H1 H2 => fleb_trans z y x H2 H1)
              (fun v x H => fltb_fleb x v H)
              (fun v x Hv Hx H => fltb_false_fleb x v Hx Hv H)
              (map column df) Hne' Hc) as (v & Hnth & Hall).
  rewrite nth_error_map in Hnth.
  destruct (nth_error df (Frame.arg_best (fun best x => fltb x best) (map column df)))
    as [row|] eqn:Er; [|discriminate].
  cbn [option_map] in Hnth. injection Hnth as <-.
  exists row. split; [now apply nth_error_In in Er|]. split.
  - unfold top_symbol, Frame.idxmin.
    rewrite (forallb_nan_false _ Hne' Hc), (fill_without_nan _ _ Hc).
    cbn [obind]. unfold Frame.loc. now rewrite Er.
  - now apply Forall_map in Hall.
Qed.

(** A column of NaN only has no greatest and no least entry: the lookup
    raises. *)
Lemma top_symbol_all_nan (column : AnalysisResult -> float) (df : list AnalysisResult) :
  Forall (fun r => is_nan (column r) = true) df ->
  (exists e, top_symbol Frame.idxmax column df = Raise e)
  /\ (exists e, top_symbol Frame.idxmin column df = Raise e).
Proof.
  intros Hall.
  assert (E : forallb is_nan (map column df) = true).
  { apply forallb_forall. intros x Hx. apply in_map_iff in Hx.
    destruct Hx as (r & <- & Hr). now apply (proj1 (Forall_forall _ _) Hall). }
  unfold top_symbol, Frame.idxmax, Frame.idxmin. rewrite E.
  split; eexists; reflexivity.
Qed.

(** X15.  On a snapshot that is not empty and whose changes are not NaN,
    the statistics are computed, and the four top symbols are those of
    rows of the snapshot: no row has a 24h (7d) change above that of the
    top gainer or below that of the top loser. *)
Theorem market_stats_tops :
  forall df : list AnalysisResult,
    df <> [] ->
    Forall (fun r => is_nan (change_24h r) = false) df ->
    Forall (fun r => is_nan (change_7d r) = false) df ->
    exists s g24 l24 g7 l7,
      market_stats df = Return s
      /\ In g24 df /\ In l24 df /\ In g7 df /\ In l7 df
      /\ top_gainer_24h s = r_symbol g24
      /\ top_loser_24h s = r_symbol l24
      /\ top_gainer_7d s = r_symbol g7
      /\ top_loser_7d s = r_symbol l7
      /\ Forall (fun r => fleb (change_24h l24) (change_24h r) = true
                          /\ fleb (change_24h r) (change_24h g24) = true
                          /\ fleb (change_7d l7) (change_7d r) = true
                          /\ fleb (change_7d r) (change_7d g7) = true) df.
Proof.
  intros df Hne H24 H7.
  destruct (top_symbol_max change_24h df Hne H24) as (g24 & Hg24 & Eg24 & Ag24).
  destruct (top_symbol_min change_24h df Hne H24) as (l24 & Hl24 & El24 & Al24).
  destruct (top_symbol_max change_7d df Hne H7) as (g7 & Hg7 & Eg7 & Ag7).
  destruct (top_symbol_min change_7d df Hne H7) as (l7 & Hl7 & El7 & Al7).
  unfold market_stats. rewrite Eg24, El24, Eg7, El7. cbn [obind].
  eexists. exists g24, l24, g7, l7.
  split; [reflexivity|]. repeat (split; [assumption || reflexivity|]).
  apply Forall_forall. intros r Hr.
  rewrite Forall_forall in Ag24, Al24, Ag7, Al7. auto.
Qed.

End StatsFacts.

Section PageFacts.

Variable Figure : Type.
Variable empty_figure : Figure.
Variable figure : list AnalysisResult -> outcome Figure.

Lemma count_sum {A} (p : A -> bool) : forall l,
  List.length (filter p l)
  = fold_right (fun x n => ((if p x then 1 else 0) + n)%nat) 0%nat l.
Proof.
  induction l as [|x l IH]; cbn [filter fold_right]; [reflexivity|].
  destruct (p x); cbn [List.length]; lia.
Qed.

(** A value is above 70, or below 30, or between the two, or NaN, and
    only one of these. *)
Lemma rsi_classes (x : float) :
  ((if fltb (of_Z 70) x then 1 else 0)
   + (if fltb x (of_Z 30) then 1 else 0)
   + (if fleb (of_Z 30) x && fleb x (of_Z 70) then 1 else 0)
   + (if is_nan x then 1 else 0) = 1)%nat.
Proof.
  destruct x as [q| |[|]|]; try reflexivity.
  cbn [fltb fleb is_nan value of_Z].
  assert (H1 := Qltb_lt (inject_Z 70) q). assert (H1' := Qltb_ge (inject_Z 70) q).
  assert (H2 := Qltb_lt q (inject_Z 30)). assert (H2' := Qltb_ge q (inject_Z 30)).
  assert (H3 := Qle_bool_iff (inject_Z 30) q).
  assert (H4 := Qle_bool_iff q (inject_Z 70)).
  change (inject_Z 70) with 70%Q in *. change (inject_Z 30) with 30%Q in *.
  destruct (Qltb 70 q), (Qltb q 30), (Qle_bool 30 q), (Qle_bool q 70);
    cbn [andb]; try reflexivity; exfalso;
    repeat match goal with
           | H : true = true <-> _ |- _ => apply proj1 in H; specialize (H eq_refl)
           | H : false = false <-> _ |- _ => apply proj1 in H; specialize (H eq_refl)
           | H : false = true <-> ?P |- _ =>
               assert (~ P) by (intros X; apply H in X; discriminate X); clear H
           | H : true = false <-> ?P |- _ =>
               assert (~ P) by (intros X; apply H in X; discriminate X); clear H
           | H : ~ (_ <= _)%Q |- _ => apply Qnot_le_lt in H
           | H : ~ (_ < _)%Q |- _ => apply Qnot_lt_le in H
           end; lra.
Qed.

Lemma rsi_partition (df : list AnalysisResult) :
  (List.length (filter (fun r => fltb (of_Z 70) (rsi r)) df)
   + List.length (filter (fun r => fltb (rsi r) (of_Z 30)) df)
   + List.length (filter (fun r => fleb (of_Z 30) (rsi r) && fleb (rsi r) (of_Z 70)) df)
   + List.length (filter (fun r => is_nan (rsi r)) df)
   = List.length df)%nat.
Proof.
  rewrite !count_sum.
  induction df as [|r df IH]; cbn [fold_right List.length]; [reflexivity|].
  assert (Hr := rsi_classes (rsi r)). lia.
Qed.

(** X16.  The statistics count as overbought the rows of RSI above 70 and
    as oversold those of RSI below 30; with the rows of RSI from 30 to 70
    and the rows whose RSI is NaN, which are in neither count, they make
    up the snapshot. *)
Theorem market_stats_counts :
  forall (df : list AnalysisResult) (s : Stats),
    market_stats df = Return s ->
    overbought s = List.length (filter (fun r => fltb (of_Z 70) (rsi r)) df)
    /\ oversold s = List.length (filter (fun r => fltb (rsi r) (of_Z 30)) df)
    /\ (overbought s + oversold s
        + List.length (filter (fun r => fleb (of_Z 30) (rsi r) && fleb (rsi r) (of_Z 70)) df)
        + List.length (filter (fun r => is_nan (rsi r)) df)
        = List.length df)%nat.
Proof.
  intros df s Hs. unfold market_stats in Hs.
  destruct (top_symbol Frame.idxmax change_24h df); [|discriminate].
  destruct (top_symbol Frame.idxmin change_24h df); [|discriminate].
  destruct (top_symbol Frame.idxmax change_7d df); [|discriminate].
  destruct (top_symbol Frame.idxmin change_7d df); [|discriminate].
  cbn [obind] in Hs. injection Hs as <-. cbn [overbought oversold].
  unfold Frame.count.
  assert (E : forall p : float -> bool,
             List.length (filter p (map rsi df))
             = List.length (filter (fun r => p (rsi r)) df)).
  { intros p. induction df as [|r df IH]; cbn [map filter]; [reflexivity|].
    destruct (p (rsi r)); cbn [List.length]; now rewrite IH. }
  rewrite !E. split; [reflexivity|]. split; [reflexivity|].
  apply rsi_partition.
Qed.

Lemma filter_split_perm {A} (p : A -> bool) : forall l,
  Permutation (filter (fun x => negb (p x)) l ++ filter p l) l.
Proof.
  induction l as [|x l IH]; cbn [filter]; [reflexivity|].
  destruct (p x); cbn [negb app].
  - rewrite <- Permutation_middle. now constructor.
  - now constructor.
Qed.

Lemma insert_by_desc_perm {A} (key : A -> float) (x : A) : forall l,
  Permutation (Frame.insert_by_desc key x l) (x :: l).
Proof.
  induction l as [|y l IH]; cbn [Frame.insert_by_desc]; [reflexivity|].
  destruct (fltb (key x) (key y)); [|reflexivity].
  rewrite IH. apply perm_swap.
Qed.

Lemma sort_by_desc_perm {A} (key : A -> float) : forall l,
  Permutation (fold_right (Frame.insert_by_desc key) [] l) l.
Proof.
  induction l as [|x l IH]; [reflexivity|].
  cbn [fold_right]. rewrite insert_by_desc_perm. now constructor.
Qed.

Lemma insert_by_desc_sorted {A} (key : A -> float) (x : A) : forall l,
  is_nan (key x) = false ->
  Forall (fun r => is_nan (key r) = false) l ->
  StronglySorted (fun a b => fleb (key b) (key a) = true) l ->
  StronglySorted (fun a b => fleb (key b) (key a) = true)
                 (Frame.insert_by_desc key x l).
Proof.
  induction l as [|y l IH]; intros Hx Hl Hs; cbn [Frame.insert_by_desc].
  - repeat constructor.
  - inversion Hs as [|? ? Hs' Hy]; subst. inversion Hl as [|? ? Hy0 Hl']; subst.
    destruct (fltb (key x) (key y)) eqn:E.
    + constructor; [now apply IH|].
      apply Forall_forall. intros z Hz.
      apply (Permutation_in _ (insert_by_desc_perm key x l)) in Hz.
      destruct Hz as [<- | Hz]; [now apply fltb_fleb|].
      now apply (proj1 (Forall_forall _ _) Hy).
    + assert (Hyx : fleb (key y) (key x) = true) by now apply fltb_false_fleb.
      constructor; [exact Hs|].
      constructor; [exact Hyx|].
      eapply Forall_impl; [|exact Hy].
      intros z Hz. cbv beta in Hz. now apply fleb_trans with (key y).
Qed.

Lemma sort_values_desc_spec (df : list AnalysisResult) :
  Permutation (Frame.sort_values_desc volume_24h df) df
  /\ by_volume_desc (Frame.sort_values_desc volume_24h df).
Proof.
  unfold Frame.sort_values_desc.
  set (vals := filter (fun r => negb (is_nan (volume_24h r))) df).
  set (nans := filter (fun r => is_nan (volume_24h r)) df).
  assert (Hvals : Forall (fun r => is_nan (volume_24h r) = false) vals).
  { apply Forall_forall. intros r Hr. apply filter_In in Hr.
    now apply negb_true_iff. }
  split.
  - rewrite sort_by_desc_perm. apply filter_split_perm.
  - exists (fold_right (Frame.insert_by_desc volume_24h) [] vals), nans.
    split; [reflexivity|]. split; [|split].
    + apply Forall_forall. intros r Hr.
      apply (Permutation_in _ (sort_by_desc_perm volume_24h vals)) in Hr.
      now apply (proj1 (Forall_forall _ _) Hvals).
    + apply Forall_forall. intros r Hr. now apply filter_In in Hr.
    + clearbody vals. induction Hvals as [|r vals Hr Hvals IH]; [constructor|].
      cbn [fold_right]. apply insert_by_desc_sorted; [exact Hr| |exact IH].
      apply Forall_forall. intros z Hz.
      apply (Permutation_in _ (sort_by_desc_perm volume_24h vals)) in Hz.
      now apply (proj1 (Forall_forall _ _) Hvals).
Qed.

Lemma valid_data_some (df : list AnalysisResult) : valid_data (map Some df) = df.
Proof. induction df as [|r df IH]; cbn [map valid_data]; congruence. Qed.

Lemma create_dashboard_blank_or_page
    (data : list (option AnalysisResult)) (p : page Figure) :
  create_dashboard Figure empty_figure figure data = Return p ->
  match p with
  | Blank fig => fig = empty_figure /\ valid_data data = []
  | Page cards fig table =>
      valid_data data <> []
      /\ market_stats (valid_data data) = Return cards
      /\ figure (valid_data data) = Return fig
      /\ Permutation table (valid_data data)
      /\ by_volume_desc table
  end.
Proof.
  intros Hp. unfold create_dashboard in Hp.
  destruct (valid_data data) as [|r df] eqn:Ed.
  - injection Hp as <-. split; reflexivity.
  - destruct (market_stats (r :: df)) as [cards|e]; [|discriminate].
    cbn [obind] in Hp.
    destruct (figure (r :: df)) as [fig|e]; [|discriminate].
    cbn [obind] in Hp. injection Hp as <-.
    split; [discriminate|]. split; [reflexivity|]. split; [reflexivity|].
    apply sort_values_desc_spec.
Qed.

(** X17.  What [create_dashboard] returns tells what it was given: the
    empty figure for data without a result; otherwise a page whose cards
    are the statistics of the results, whose figure is made of them, and
    whose table holds the same results sorted by volume, the largest
    first. *)
Theorem create_dashboard_page :
  forall (data : list (option AnalysisResult)) (p : page Figure),
    create_dashboard Figure empty_figure figure data = Return p ->
    match p with
    | Blank fig => fig = empty_figure /\ valid_data data = []
    | Page cards fig table =>
        valid_data data <> []
        /\ market_stats (valid_data data) = Return cards
        /\ figure (valid_data data) = Return fig
        /\ Permutation table (valid_data data)
        /\ by_volume_desc table
    end.
Proof. exact create_dashboard_blank_or_page. Qed.

(** X18.  A snapshot that is not empty and whose 24h changes, or whose 7d
    changes, are all NaN makes [create_dashboard] raise: the statistics
    have no top symbol to look up. *)
Theorem create_dashboard_undefined_changes :
  forall df : list AnalysisResult,
    df <> [] ->
    Forall (fun r => is_nan (change_24h r) = true) df
    \/ Forall (fun r => is_nan (change_7d r) = true) df ->
    exists e, create_dashboard Figure empty_figure figure (map Some df) = Raise e.
Proof.
  intros df Hne Hnan. unfold create_dashboard. rewrite valid_data_some.
  destruct df as [|r df]; [congruence|].
  assert (Hstats : exists e, market_stats (r :: df) = Raise e).
  { unfold market_stats. destruct Hnan as [H24|H7].
    - destruct (top_symbol_all_nan change_24h (r :: df) H24) as [[e ->] _].
      now exists e.
    - destruct (top_symbol_all_nan change_7d (r :: df) H7) as [[e1 E1] [e2 E2]].
      destruct (top_symbol Frame.idxmax change_24h (r :: df)) as [g24|e];
        [|now exists e].
      cbn [obind].
      destruct (top_symbol Frame.idxmin change_24h (r :: df)) as [l24|e];
        [|now exists e].
      cbn [obind]. rewrite E1. now exists e1. }
  destruct Hstats as [e ->]. now exists e.
Qed.

End PageFacts.

(** ** The callback as a whole *)

Section CallbackFacts.

Variable W : Type.
Variable load_markets : W -> outcome (dict market) * W.
Variable fetch_tickers : W -> outcome (dict ticker) * W.
Variable fetch_ohlcv : string -> string -> Z -> W -> outcome (list candle) * W.
Variable sqrt : float -> float.
Variable Figure : Type.
Variable empty_figure : Figure.
Variable figure : list AnalysisResult -> outcome Figure.

(** X19.  When loading the markets fails with a transient error at every
    attempt, the callback returns the empty figure, after three calls and
    sleeps of 1 and 2 seconds: the plotting library is not asked for a
    figure of the snapshot. *)
Theorem update_dashboard_page_outage :
  always_transient load_markets ->
  forall st, exists w',
    update_dashboard_page W load_markets fetch_tickers fetch_ohlcv sqrt
      Figure empty_figure figure st
    = (Return (Blank empty_figure),
       (w', snd st ++ [Call; Sleep 1; Call; Sleep 2; Call])).
Proof.
  intros Hall st.
  destruct (outage_snapshot W load_markets fetch_tickers fetch_ohlcv sqrt Hall st)
    as (w' & Hrun).
  exists w'. unfold update_dashboard_page, bind. now rewrite Hrun.
Qed.

(** X20.  The callback returns or raises as [create_dashboard] does on the
    snapshot of the cycle, which itself never raises: the empty figure for
    an empty snapshot; a page whose table holds the results of the
    snapshot, [SYMBOL_LIMIT] at most, sorted by volume; an exception only
    from the statistics or from the figure of a snapshot that is not
    empty. *)
Theorem update_dashboard_page_outcome :
  forall st,
    exists snap st',
      update_dashboard W load_markets fetch_tickers fetch_ohlcv sqrt st
      = (Return snap, st')
      /\ snd (update_dashboard_page W load_markets fetch_tickers fetch_ohlcv sqrt
                Figure empty_figure figure st) = st'
      /\ match fst (update_dashboard_page W load_markets fetch_tickers fetch_ohlcv sqrt
                      Figure empty_figure figure st) with
         | Return (Blank fig) => fig = empty_figure /\ snap = []
         | Return (Page cards fig table) =>
             market_stats snap = Return cards
             /\ figure snap = Return fig
             /\ Permutation table snap
             /\ by_volume_desc table
             /\ (List.length table <= SYMBOL_LIMIT)%nat
         | Raise e =>
             snap <> []
             /\ (market_stats snap = Raise e
                 \/ exists cards, market_stats snap = Return cards
                                  /\ figure snap = Raise e)
         end.
Proof.
  intros st.
  destruct (update_dashboard_returns W load_markets fetch_tickers fetch_ohlcv sqrt st)
    as (snap & st' & Hrun).
  exists snap, st'. split; [exact Hrun|].
  unfold update_dashboard_page, bind. rewrite Hrun. unfold lift. cbn [fst snd].
  split; [reflexivity|].
  destruct (create_dashboard Figure empty_figure figure (map Some snap))
    as [p|e] eqn:Ep.
  - assert (H := create_dashboard_blank_or_page Figure empty_figure figure
                   (map Some snap) p Ep).
    rewrite valid_data_some in H.
    destruct p as [fig|cards fig table]; [exact H|].
    destruct H as (_ & Hs & Hf & Hperm & Hsorted).
    repeat (split; [assumption|]).
    rewrite (Permutation_length Hperm).
    now apply (update_dashboard_length W load_markets fetch_tickers fetch_ohlcv sqrt
                 st snap st').
  - unfold create_dashboard in Ep. rewrite valid_data_some in Ep.
    destruct snap as [|r df]; [discriminate|].
    split; [discriminate|].
    revert Ep. destruct (market_stats (r :: df)) as [cards|e0]; cbn [obind].
    + intros Ep. right. exists cards. split; [reflexivity|].
      revert Ep. destruct (figure (r :: df)) as [fig|e1]; cbn [obind];
        intros Ep; [discriminate | congruence].
    + intros Ep. left. congruence.
Qed.

End CallbackFacts.

Lemma market_stats_tops_witness :
  exists s g24 l24 g7 l7,
    market_stats Cases.board = Return s
    /\ In g24 Cases.board /\ In l24 Cases.board
    /\ In g7 Cases.board /\ In l7 Cases.board
    /\ top_gainer_24h s = r_symbol g24
    /\ top_loser_24h s = r_symbol l24
    /\ top_gainer_7d s = r_symbol g7
    /\ top_loser_7d s = r_symbol l7
    /\ Forall (fun r => fleb (change_24h l24) (change_24h r) = true
                        /\ fleb (change_24h r) (change_24h g24) = true
                        /\ fleb (change_7d l7) (change_7d r) = true
                        /\ fleb (change_7d r) (change_7d g7) = true) Cases.board.
Proof.
  apply (market_stats_tops Cases.board).
  - discriminate.
  - repeat constructor.
  - repeat constructor.
Defined.

(** The statistics of the sample snapshot: ties go to the first row. *)
Example market_stats_sample :
  market_stats Cases.board
  = Return (MkStats (Fin 870) 1 1 (Fin 0) "BBB" "CCC" "BBB" "AAA").
Proof. vm_compute. reflexivity. Qed.

Lemma market_stats_counts_witness :
  exists s,
    market_stats Cases.board = Return s
    /\ overbought s = List.length (filter (fun r => fltb (of_Z 70) (rsi r)) Cases.board)
    /\ oversold s = List.length (filter (fun r => fltb (rsi r) (of_Z 30)) Cases.board)
    /\ (overbought s + oversold s
        + List.length (filter (fun r => fleb (of_Z 30) (rsi r) && fleb (rsi r) (of_Z 70))
                         Cases.board)
        + List.length (filter (fun r => is_nan (rsi r)) Cases.board)
        = List.length Cases.board)%nat.
Proof.
  destruct (market_stats Cases.board) as [s|e] eqn:Hs;
    [|vm_compute in Hs; discriminate Hs].
  exists s. split; [reflexivity|].
  exact (market_stats_counts Cases.board s Hs).
Defined.

Lemma create_dashboard_page_witness :
  exists p,
    create_dashboard (list string) [] Cases.labels (None :: map Some Cases.board) = Return p
    /\ match p with
       | Blank fig => fig = [] /\ valid_data (None :: map Some Cases.board) = []
       | Page cards fig table =>
           valid_data (None :: map Some Cases.board) <> []
           /\ market_stats (valid_data (None :: map Some Cases.board)) = Return cards
           /\ Cases.labels (valid_data (None :: map Some Cases.board)) = Return fig
           /\ Permutation table (valid_data (None :: map Some Cases.board))
           /\ by_volume_desc table
       end.
Proof.
  destruct (create_dashboard (list string) [] Cases.labels (None :: map Some Cases.board))
    as [p|e] eqn:Hp; [|vm_compute in Hp; discriminate Hp].
  exists p. split; [reflexivity|].
  exact (create_dashboard_page (list string) [] Cases.labels _ p Hp).
Defined.

(** The table of the sample snapshot, the largest volume first. *)
Example create_dashboard_sample :
  exists cards fig table,
    create_dashboard (list string) [] Cases.labels (None :: map Some Cases.board)
    = Return (Page cards fig table)
    /\ map r_symbol table = ["BBB"; "DDD"; "AAA"; "CCC"]%string.
Proof. do 3 eexists. split; vm_compute; reflexivity. Qed.

Lemma create_dashboard_undefined_changes_witness :
  exists e,
    create_dashboard (list string) [] Cases.labels
      (map Some [Cases.row "ZERO" NaN NaN NaN (Fin 0)])
    = Raise e.
Proof.
  apply (create_dashboard_undefined_changes (list string) [] Cases.labels).
  - discriminate.
  - left. repeat constructor.
Defined.

Lemma update_dashboard_page_outage_witness :
  exists w',
    update_dashboard_page nat Samples.down (Samples.answer Samples.tickers)
      Samples.fetch_ohlcv Samples.sqrt (list string) [] Cases.labels (0%nat, [])
    = (Return (Blank []), (w', [] ++ [Call; Sleep 1; Call; Sleep 2; Call])).
Proof.
  apply (update_dashboard_page_outage nat Samples.down (Samples.answer Samples.tickers)
           Samples.fetch_ohlcv Samples.sqrt (list string) [] Cases.labels).
  intros w. exists (Exn NetworkError "timed out"), (S w). split; reflexivity.
Defined.
